(** * astro: the lunar module (lib/lunar.js)

    A shallow embedding of [lib/lunar.js] and the properties of its position,
    transit, rise/set and phase computations.

    Numbers.  A JavaScript number is modelled by [num]: an exact real, one of
    the two infinities, or NaN.  Arithmetic on finite values is exact (no
    rounding, no overflow) and zero carries no sign (it divides like [+0]);
    the special values follow IEEE 754 as JavaScript exposes them, so that
    the NaN sentinels and the divisions by zero of the rise/set sweep behave
    as in the source.  Where the rounding of the source decides a property,
    the function is given on binary64 numbers as well ([Double], on the
    primitive floats).  The calendar arithmetic of the phase computation
    works on integers and one decimal constant and is modelled on [Z] and
    [Q], where it can be run; [PhaseJs] gives the phase computation on
    numbers, with Invalid Date and the NaN that comes of it, and agrees
    with the integer computation on every valid date. *)

From Stdlib Require Import Floats.
From Stdlib Require Import Reals Lra Lia Psatz ZArith QArith Qround List String
  Bool Factorial.
Import ListNotations.

#[local] Set Warnings "-inexact-float".

#[local] Open Scope R_scope.

(** ** JavaScript numbers *)

Inductive num : Type :=
| Fin (r : R)
| PInf
| NInf
| NaN.

Declare Scope js_scope.
Delimit Scope js_scope with js.
Bind Scope js_scope with num.

Module Js.

Definition Rltb (x y : R) : bool := if Rlt_dec x y then true else false.
Definition Rleb (x y : R) : bool := if Rle_dec x y then true else false.

Definition of_Z (z : Z) : num := Fin (IZR z).

Definition isNaN (x : num) : bool :=
  match x with NaN => true | _ => false end.

Definition neg (x : num) : num :=
  match x with
  | Fin r => Fin (- r)
  | PInf => NInf
  | NInf => PInf
  | NaN => NaN
  end.

Definition add (x y : num) : num :=
  match x, y with
  | NaN, _ | _, NaN => NaN
  | Fin a, Fin b => Fin (a + b)
  | PInf, NInf | NInf, PInf => NaN
  | PInf, _ | _, PInf => PInf
  | NInf, _ | _, NInf => NInf
  end.

Definition sub (x y : num) : num := add x (neg y).

(** The infinity with the sign of [r], NaN for [r = 0]. *)
Definition signed_inf (r : R) : num :=
  if Rlt_dec 0 r then PInf else if Rlt_dec r 0 then NInf else NaN.

Definition mul (x y : num) : num :=
  match x, y with
  | NaN, _ | _, NaN => NaN
  | Fin a, Fin b => Fin (a * b)
  | Fin a, PInf | PInf, Fin a => signed_inf a
  | Fin a, NInf | NInf, Fin a => signed_inf (- a)
  | PInf, PInf | NInf, NInf => PInf
  | PInf, NInf | NInf, PInf => NInf
  end.

(** Division; a zero divisor acts as [+0]. *)
Definition div (x y : num) : num :=
  match x, y with
  | NaN, _ | _, NaN => NaN
  | Fin a, Fin b => if Req_dec_T b 0 then signed_inf a else Fin (a / b)
  | Fin _, _ => Fin 0
  | PInf, Fin b => if Rlt_dec b 0 then NInf else PInf
  | NInf, Fin b => if Rlt_dec b 0 then PInf else NInf
  | _, _ => NaN
  end.

(** Comparisons: every comparison with NaN is false. *)
Definition lt (x y : num) : bool :=
  match x, y with
  | NaN, _ | _, NaN => false
  | Fin a, Fin b => Rltb a b
  | PInf, _ | _, NInf => false
  | NInf, _ | _, PInf => true
  end.

Definition le (x y : num) : bool :=
  match x, y with
  | NaN, _ | _, NaN => false
  | Fin a, Fin b => Rleb a b
  | NInf, _ | _, PInf => true
  | PInf, _ | _, NInf => false
  end.

Definition ge (x y : num) : bool := le y x.

Definition abs (x : num) : num :=
  match x with
  | Fin r => Fin (Rabs r)
  | PInf | NInf => PInf
  | NaN => NaN
  end.

Definition sqrt (x : num) : num :=
  match x with
  | Fin r => if Rlt_dec r 0 then NaN else Fin (R_sqrt.sqrt r)
  | PInf => PInf
  | NInf | NaN => NaN
  end.

Definition floor (x : num) : num :=
  match x with
  | Fin r => Fin (IZR (Zfloor r))
  | _ => x
  end.

Definition sin (x : num) : num :=
  match x with Fin r => Fin (Rtrigo_def.sin r) | _ => NaN end.

Definition cos (x : num) : num :=
  match x with Fin r => Fin (Rtrigo_def.cos r) | _ => NaN end.

Definition tan (x : num) : num :=
  match x with Fin r => Fin (Rtrigo1.tan r) | _ => NaN end.

Definition asin (x : num) : num :=
  match x with
  | Fin r => if Rle_dec (Rabs r) 1 then Fin (Ratan.asin r) else NaN
  | _ => NaN
  end.

(** [Math.atan2] on finite arguments, by quadrant. *)
Definition Ratan2 (y x : R) : R :=
  if Rlt_dec 0 x then atan (y / x)
  else if Rlt_dec x 0 then
    (if Rlt_dec y 0 then atan (y / x) - PI else atan (y / x) + PI)
  else if Rlt_dec 0 y then PI / 2
  else if Rlt_dec y 0 then - (PI / 2)
  else 0.

Definition atan2 (y x : num) : num :=
  match y, x with
  | NaN, _ | _, NaN => NaN
  | Fin a, Fin b => Fin (Ratan2 a b)
  | Fin a, PInf => Fin 0
  | Fin a, NInf => Fin (if Rlt_dec a 0 then - PI else PI)
  | PInf, Fin _ => Fin (PI / 2)
  | NInf, Fin _ => Fin (- (PI / 2))
  | PInf, PInf => Fin (PI / 4)
  | NInf, PInf => Fin (- (PI / 4))
  | PInf, NInf => Fin (3 * (PI / 4))
  | NInf, NInf => Fin (- (3 * (PI / 4)))
  end.

Definition PI : num := Fin Rtrigo1.PI.

End Js.

Notation "x + y" := (Js.add x y) : js_scope.
Notation "x - y" := (Js.sub x y) : js_scope.
Notation "x * y" := (Js.mul x y) : js_scope.
Notation "x / y" := (Js.div x y) : js_scope.
Notation "- x" := (Js.neg x) : js_scope.
Notation "x <? y" := (Js.lt x y) : js_scope.
Notation "x <=? y" := (Js.le x y) : js_scope.
Notation "x >=? y" := (Js.ge x y) : js_scope.

(** Numeric literals of the source. *)
Coercion Fin : R >-> num.

#[local] Open Scope js_scope.

(** ** The modules [lunar.js] requires *)

(** Modelled from the spec: [lib/julian.js] is absent from the sources.  The
    spec (4.1) gives [julian_date(ms) = ms/86400000 + 2440587.5] and
    [t = (julian_date(instant) - J2000) / 36525], with the inverse mapping
    for reporting solved instants; J2000 is the Julian date 2451545. *)
Definition julian_to (ms : num) : num :=
  (ms / 86400000 + 2440587.5 - 2451545) / 36525.

Definition julian_from (t : num) : num :=
  (t * 36525 + 2451545 - 2440587.5) * 86400000.

Module lunar.

Definition RAD : num := Js.PI / 180.
Definition AU : num := 1 / 149597870.7.

Definition limit_angle (radians : num) : num :=
  radians - Js.floor (radians / (2 * Js.PI)) * (2 * Js.PI).

Definition Q0 : num := 218.316 * RAD.
Definition Q1 : num := 13.176396 * RAD.
Definition M0 : num := 134.963 * RAD.
Definition M1 : num := 13.064993 * RAD.
Definition F0 : num := 93.272 * RAD.
Definition F1 : num := 13.22935 * RAD.
Definition L0 : num := 6.289 * RAD.
Definition L1 : num := 5.128 * RAD.
Definition E0 : num := 23.439 * RAD.
Definition E1 : num := -0.00000036 * RAD.
Definition D0 : num := 385001 * AU.
Definition D1 : num := -20905 * AU.

Definition _ecliptic_equinox_longitude (t : num) : num := Q0 + Q1 * t.

Definition _mean_anomaly (t : num) : num := M0 + M1 * t.

Definition _mean_distance (t : num) : num := F0 + F1 * t.

Definition _longitude (t : num) : num :=
  _ecliptic_equinox_longitude t + L0 * Js.sin (_mean_anomaly t).

Definition _latitude (t : num) : num := L1 * Js.sin (_mean_distance t).

Definition _obliquity (t : num) : num := E0 + E1 * t.

Definition _distance (t : num) : num := D0 + D1 * Js.cos (_mean_anomaly t).

Definition _right_ascension_direct (lat lon obl : num) : num :=
  Js.atan2 (Js.sin lon * Js.cos obl - Js.tan lat * Js.sin obl) (Js.cos lon).

Definition _right_ascension (t : num) : num :=
  _right_ascension_direct (_latitude t) (_longitude t) (_obliquity t).

Definition _declination_direct (lat lon obl : num) : num :=
  Js.asin (Js.sin lat * Js.cos obl + Js.cos lat * Js.sin obl * Js.sin lon).

Definition _declination (t : num) : num :=
  _declination_direct (_latitude t) (_longitude t) (_obliquity t).

Definition _hour_angle_direct (lst ra : num) : num :=
  limit_angle lst - limit_angle ra.

Definition _transit_direct (t ha : num) : num :=
  t - ha * (12 / Js.PI / 24).

Definition _hours_later (t hrs : num) : num := t + hrs / 24.

Definition PARALLAX : num := 0.0023212879051524586.

Definition _dayFromTimestamp (ts : num) : num := ts / 86400000 + 2440587.5.

Definition latitude (ms : num) : num := _latitude (julian_to ms).
Definition longitude (ms : num) : num := _longitude (julian_to ms).
Definition obliquity (ms : num) : num := _obliquity (julian_to ms).
Definition distance (ms : num) : num := _distance (julian_to ms).
Definition declination (ms : num) : num := _declination (julian_to ms).
Definition right_ascension (ms : num) : num :=
  _right_ascension (julian_to ms).

(** The object [_rise_and_set] returns. *)
Record RiseSet : Type := { moonrise : num; moonset : num }.

(** The parabola fitted through three samples, and its roots. *)
Record Parabola : Type :=
  { p_a : num; p_b : num; p_xe : num; p_ye : num; p_d : num }.

Record Roots : Type := { roots : nat; x1 : num; x2 : num }.

(** The variables of the sweep that live across iterations: the samples [h0]
    and [h1], and the loop variables [moonrise] and [moonset], in hours from
    [t], here [rise_h] and [set_h]. *)
Record Sweep : Type :=
  { h0 : num; h1 : num; rise_h : num; set_h : num }.

Definition fit (h0 h1 h2 : num) : Parabola :=
  let a := (h2 + h0) / 2 - h1 in
  let b := (h2 - h0) / 2 in
  let xe := - b / (2 * a) in
  let ye := (a * xe + b) * xe + h1 in
  let d := b * b - 4 * a * h1 in
  {| p_a := a; p_b := b; p_xe := xe; p_ye := ye; p_d := d |}.

(** [x1] and [x2] are declared without a value; they are read only when
    [roots] is positive, and an unset value added to [i] gives NaN. *)
Definition count_roots (p : Parabola) : Roots :=
  if p_d p >=? 0 then
    let dx := Js.sqrt (p_d p) / (Js.abs (p_a p) * 2) in
    let x1 := p_xe p - dx in
    let x2 := p_xe p + dx in
    let roots := 0%nat in
    let roots := if Js.abs x1 <=? 1 then S roots else roots in
    let roots := if Js.abs x2 <=? 1 then S roots else roots in
    let x1 := if x1 <? -1 then x2 else x1 in
    {| roots := roots; x1 := x1; x2 := x2 |}
  else {| roots := 0; x1 := NaN; x2 := NaN |}.

(** The branch on [roots] that assigns [moonrise] and [moonset]. *)
Definition record_events (i h0 : num) (p : Parabola) (r : Roots)
    (moonrise moonset : num) : num * num :=
  match roots r with
  | 1%nat =>
      if (h0 <? 0) && Js.isNaN moonrise then (i + x1 r, moonset)
      else if Js.isNaN moonset then (moonrise, i + x1 r)
      else (moonrise, moonset)
  | 2%nat =>
      let moonrise :=
        if Js.isNaN moonrise
        then i + (if p_ye p <? 0 then x2 r else x1 r) else moonrise in
      let moonset :=
        if Js.isNaN moonset
        then i + (if p_ye p <? 0 then x1 r else x2 r) else moonset in
      (moonrise, moonset)
  | _ => (moonrise, moonset)
  end.

(** The values of [i] in [for (let i = 0; i <= 24; i += 2)]. *)
Definition loop_indices : list Z :=
  map (fun k => (2 * Z.of_nat k)%Z) (List.seq 0 13).

Section Observer.

(** Modelled from the spec: [lib/sidereal.js] is absent from the sources.  The
    spec (4.2) describes [greenwich_sidereal(t)] as a polynomial
    approximation, whose coefficients it does not give and which is
    therefore a variable here, and
    [local_sidereal(t, longitude) = greenwich_sidereal(t) + longitude],
    normalized to one turn. *)
Variable greenwich : R -> R.

Definition sidereal_greenwich (t : num) : num :=
  match t with Fin r => Fin (greenwich r) | _ => NaN end.

Definition sidereal_local (t lon : num) : num :=
  limit_angle (sidereal_greenwich t + lon).

Definition _hour_angle (t lon : num) : num :=
  _hour_angle_direct (sidereal_local t lon) (_right_ascension t).

Definition _hour_angle_iterative (t lon ha0 : num) : num :=
  let t1 := _transit_direct t ha0 in
  let ha1 := _hour_angle t1 lon + ha0 in
  ha1.

Definition _hour_angle_refined (t lon : num) : num :=
  let ha := _hour_angle t lon in
  let ha := _hour_angle_iterative t lon ha in
  let ha := _hour_angle_iterative t lon ha in
  let ha := _hour_angle_iterative t lon ha in
  let ha := _hour_angle_iterative t lon ha in
  ha.

Definition _transit (t lat lon : num) : num :=
  let later_t := _hours_later t 24 in
  let result := _transit_direct later_t (_hour_angle_refined later_t lon) in
  if result <=? later_t then result
  else
    let result := _transit_direct t (_hour_angle_refined t lon) in
    if result >=? t then result else NaN.

Definition _elevation (t lat lon : num) : num :=
  let decl := _declination t in
  let ha := _hour_angle t lon in
  Js.asin (Js.sin lat * Js.sin decl
           + Js.cos lat * Js.cos decl * Js.cos ha).

(** One iteration of the loop body, up to the [break] test: the updated
    variables and the sample [h2]. *)
Definition segment (t lat lon : num) (i : Z) (st : Sweep) : Sweep * num :=
  let h := - PARALLAX in
  let h1 :=
    if (i =? 0)%Z then h1 st
    else _elevation (_hours_later t (Js.of_Z i)) lat lon - h in
  let h2 := _elevation (_hours_later t (Js.of_Z (i + 1))) lat lon - h in
  let p := fit (h0 st) h1 h2 in
  let r := count_roots p in
  let '(moonrise, moonset) :=
    record_events (Js.of_Z i) (h0 st) p r (rise_h st) (set_h st) in
  ({| h0 := h0 st; h1 := h1; rise_h := moonrise; set_h := moonset |}, h2).

(** The [break] test. *)
Definition found_all (st : Sweep) : bool :=
  (rise_h st <? 24) && (set_h st <? 24).

Fixpoint sweep (t lat lon : num) (indices : list Z) (st : Sweep) : Sweep :=
  match indices with
  | [] => st
  | i :: rest =>
      let '(st', h2) := segment t lat lon i st in
      if found_all st' then st'
      else sweep t lat lon rest
             {| h0 := h2; h1 := h1 st';
                rise_h := rise_h st'; set_h := set_h st' |}
  end.

Definition _rise_and_set (t lat lon : num) : RiseSet :=
  let h := - PARALLAX in
  let h0 := _elevation t lat lon - h in
  let h1 := h0 in
  let st :=
    sweep t lat lon loop_indices
      {| h0 := h0; h1 := h1; rise_h := NaN; set_h := NaN |} in
  {| moonrise := _hours_later t (rise_h st);
     moonset := _hours_later t (set_h st) |}.

Definition elevation (ms lat lon : num) : num :=
  _elevation (julian_to ms) (lat * RAD) (lon * RAD).

Definition transit (ms lat lon : num) : num :=
  julian_from (_transit (julian_to ms) (lat * RAD) (lon * RAD)).

Definition rise (ms lat lon : num) : num :=
  julian_from (moonrise (_rise_and_set (julian_to ms) (lat * RAD) (lon * RAD))).

Definition set (ms lat lon : num) : num :=
  julian_from (moonset (_rise_and_set (julian_to ms) (lat * RAD) (lon * RAD))).

(** [rise_and_set] overwrites the two fields of the object in turn. *)
Definition rise_and_set (ms lat lon : num) : RiseSet :=
  let x := _rise_and_set (julian_to ms) (lat * RAD) (lon * RAD) in
  let x := {| moonrise := julian_from (moonrise x); moonset := moonset x |} in
  let x := {| moonrise := moonrise x; moonset := julian_from (moonset x) |} in
  x.

End Observer.

(** *** Phase *)

(** The fields of a [Date] that the phase computation reads. *)
Record Date : Type := { getFullYear : Z; getMonth : Z; getDate : Z }.

Record MoonPhase : Type :=
  { number : Z; string : option String.string }.

(** [Math.round] on a rational: halves go up. *)
Definition Math_round (q : Q) : Z := Qfloor (q + 0.5).

Definition _phaseString (phaseNumber : Q) : option String.string :=
  let moonPhase := None in
  let phaseNumber := Math_round phaseNumber in
  if (phaseNumber =? 0)%Z then Some "new-moon"%string
  else if ((0 <? phaseNumber) && (phaseNumber <? 8))%Z
  then Some "Waxing-crescent"%string
  else if (phaseNumber =? 8)%Z then Some "first-quarter"%string
  else if ((8 <? phaseNumber) && (phaseNumber <? 15))%Z
  then Some "waxing-gibbous"%string
  else if (phaseNumber =? 15)%Z then Some "full-moon"%string
  else if ((15 <? phaseNumber) && (phaseNumber <? 22))%Z
  then Some "waning-gibbous"%string
  else if (phaseNumber =? 22)%Z then Some "last-quarter"%string
  else if ((22 <? phaseNumber) && (phaseNumber <? 31))%Z
  then Some "waning-crescent"%string
  else moonPhase.

Section Phase.

(** [new Date(ts)] for a time value [ts], an integer number of milliseconds
    within the range of dates: the calendar fields are those of the host's
    local time zone, which the source does not fix.  The dates that are not
    valid are in [PhaseJs] below. *)
Variable new_Date : Z -> Date.

Definition _dateFromTimestamp (ts : Z) : Date := new_Date ts.

(** [%] is JavaScript's remainder, which takes the sign of the dividend
    ([Z.rem]); [parseInt] of an integer is that integer. *)
Definition _phaseNumber (ts : Z) : Z :=
  let date := _dateFromTimestamp ts in
  let year := getFullYear date in
  let month := (getMonth date + 1)%Z in
  let day := getDate date in
  let r := Z.rem year 100 in
  let r := Z.rem r 19 in
  let r := if (9 <? r)%Z then (r - 19)%Z else r in
  let r := (Z.rem (r * 11) 30 + month + day)%Z in
  let r := if (month <? 3)%Z then (r + 2)%Z else r in
  let r := (inject_Z r - (if (year <? 2000)%Z then 4 else 8.3))%Q in
  let r := Z.rem (Qfloor (r + 0.5)) 30 in
  if (r <? 0)%Z then (r + 30)%Z else r.

Definition phase (ms : Z) : MoonPhase :=
  let phaseNumber := _phaseNumber ms in
  let p :=
    {| number := phaseNumber;
       string := _phaseString (inject_Z phaseNumber) |} in
  p.

End Phase.

End lunar.

(** ** The hour angle in double precision *)

Module Double.

#[local] Open Scope float_scope.

(** [Math.PI], the double nearest to pi. *)
Definition PI : float := 0x1.921fb54442d18p+1.

(** A non-negative integer below 2^53 as a double. *)
Definition of_Z (z : Z) : float := PrimFloat.of_uint63 (Uint63.of_Z z).

(** [Math.floor].  A double [m * 2^e] with [0 <= e] is an integer; for
    [e < 0] the integer part of [m * 2^e] is below 2^53 and is taken on
    [Z].  Infinities, NaN and zeros are returned as they are. *)
Definition floor (x : float) : float :=
  match Prim2SF x with
  | S754_finite s m e =>
      if (0 <=? e)%Z then x
      else
        let q := (Z.pos m / 2 ^ (- e))%Z in
        if s then
          (if (Z.pos m mod 2 ^ (- e) =? 0)%Z then - of_Z q else - of_Z (q + 1))
        else of_Z q
  | _ => x
  end.

Definition limit_angle (radians : float) : float :=
  radians - floor (radians / (2 * PI)) * (2 * PI).

Definition _hour_angle_direct (lst ra : float) : float :=
  limit_angle lst - limit_angle ra.

End Double.

(** ** The phase computation on JavaScript numbers *)

(** [phase] as the source runs it on a timestamp: [new Date] can give
    Invalid Date, whose fields are NaN, and the arithmetic, the comparisons
    and the label mapping then work on NaN. *)
Module PhaseJs.

(** The integer part of a real, towards zero. *)
Definition Rtrunc (r : R) : Z := if Rle_dec 0 r then Zfloor r else Zceil r.

(** [%]: the remainder takes the sign of the dividend and is exact. *)
Definition rem (x y : num) : num :=
  match x, y with
  | NaN, _ | _, NaN => NaN
  | PInf, _ | NInf, _ => NaN
  | Fin a, PInf | Fin a, NInf => Fin a
  | Fin a, Fin b =>
      if Req_dec_T b 0 then NaN else Fin (a - b * IZR (Rtrunc (a / b)))
  end.

(** [===] on numbers: NaN equals nothing. *)
Definition strict_eq (x y : num) : bool :=
  match x, y with
  | Fin a, Fin b => if Req_dec_T a b then true else false
  | PInf, PInf | NInf, NInf => true
  | _, _ => false
  end.

(** [Math.round]: the nearest integer, halves going up. *)
Definition Math_round (x : num) : num :=
  match x with
  | Fin r => Fin (IZR (Zfloor (r + 1 / 2)))
  | _ => x
  end.

(** [parseInt] of a number reads the decimal form of the number: NaN and the
    infinities have no digits and give NaN; an integer of fewer than 22
    digits, which is all that [_phaseNumber] passes, is returned as it is. *)
Definition parseInt (x : num) : num :=
  match x with
  | Fin r => Fin (IZR (Rtrunc r))
  | _ => NaN
  end.

(** The argument of [phase]: a number of milliseconds, or a string. *)
Inductive Timestamp : Type :=
| Number (ms : num)
| Text (s : String.string).

(** A [Date] object: a time value in milliseconds, or Invalid Date. *)
Inductive Date : Type :=
| Valid (tv : Z)
| Invalid.

(** [new Date(value)] on a number: the value is clipped to the range of
    dates, 8.64e15 milliseconds either side of the epoch, and truncated to an
    integer; a number that is not finite or lies outside the range gives
    Invalid Date. *)
Definition new_Date (value : num) : Date :=
  match value with
  | Fin r =>
      if Rle_dec (Rabs r) 8640000000000000 then Valid (Rtrunc r) else Invalid
  | _ => Invalid
  end.

Record MoonPhase : Type :=
  { number : num; string : option String.string }.

(** The cases of [switch (true)] in their order; [null] is [None].  The
    rounded value that the source writes to the console is not part of the
    result. *)
Definition _phaseString (phaseNumber : num) : option String.string :=
  let moonPhase := None in
  let phaseNumber := Math_round phaseNumber in
  if strict_eq phaseNumber 0 then Some "new-moon"%string
  else if (0 <? phaseNumber) && (phaseNumber <? 8)
  then Some "Waxing-crescent"%string
  else if strict_eq phaseNumber 8 then Some "first-quarter"%string
  else if (8 <? phaseNumber) && (phaseNumber <? 15)
  then Some "waxing-gibbous"%string
  else if strict_eq phaseNumber 15 then Some "full-moon"%string
  else if (15 <? phaseNumber) && (phaseNumber <? 22)
  then Some "waning-gibbous"%string
  else if strict_eq phaseNumber 22 then Some "last-quarter"%string
  else if (22 <? phaseNumber) && (phaseNumber <? 31)
  then Some "waning-crescent"%string
  else moonPhase.

Section Host.

(** The calendar fields of a time value in the host's local time zone, which
    the source does not fix. *)
Variable calendar : Z -> lunar.Date.

(** The getters of a [Date]: every field of Invalid Date is NaN. *)
Definition getFullYear (d : Date) : num :=
  match d with
  | Valid tv => Js.of_Z (lunar.getFullYear (calendar tv))
  | Invalid => NaN
  end.

Definition getMonth (d : Date) : num :=
  match d with
  | Valid tv => Js.of_Z (lunar.getMonth (calendar tv))
  | Invalid => NaN
  end.

Definition getDate (d : Date) : num :=
  match d with
  | Valid tv => Js.of_Z (lunar.getDate (calendar tv))
  | Invalid => NaN
  end.

(** [parseInt] of a string, which belongs to the host. *)
Variable parseInt_text : String.string -> num.

Definition _dateFromTimestamp (ts : Timestamp) : Date :=
  let ts :=
    match ts with
    | Text s => parseInt_text s
    | Number ms => ms
    end in
  new_Date ts.

Definition _phaseNumber (ts : Timestamp) : num :=
  let date := _dateFromTimestamp ts in
  let year := getFullYear date in
  let month := getMonth date + 1 in
  let day := getDate date in
  let r := rem year 100 in
  let r := rem r 19 in
  let r := if 9 <? r then r - 19 else r in
  let r := rem (r * 11) 30 + parseInt month + parseInt day in
  let r := if month <? 3 then r + 2 else r in
  let r := r - (if year <? 2000 then 4 else 8.3) in
  let r := rem (Js.floor (r + 0.5)) 30 in
  if r <? 0 then r + 30 else r.

Definition phase (ms : Timestamp) : MoonPhase :=
  let phaseNumber := _phaseNumber ms in
  let p :=
    {| number := phaseNumber;
       string := _phaseString phaseNumber |} in
  p.

End Host.

End PhaseJs.

(** ** Definitions used to state the properties *)

#[local] Close Scope js_scope.

(** The reduction of a finite angle to one turn, as [limit_angle] computes it
    on a finite number. *)
Definition Rlimit (x : R) : R := x - IZR (Zfloor (x / (2 * PI))) * (2 * PI).

(** The position series on a finite argument, as the source computes them:
    [_mean_anomaly], [_mean_distance], [_longitude], [_latitude],
    [_obliquity], [_distance], and the sine that [_declination_direct]
    passes to [Math.asin]. *)
Definition rad : R := PI / 180.

Definition Rmean_anomaly (t : R) : R := 134.963 * rad + 13.064993 * rad * t.

Definition Rmean_distance (t : R) : R := 93.272 * rad + 13.22935 * rad * t.

Definition Rlongitude (t : R) : R :=
  218.316 * rad + 13.176396 * rad * t + 6.289 * rad * sin (Rmean_anomaly t).

Definition Rlatitude (t : R) : R := 5.128 * rad * sin (Rmean_distance t).

Definition Robliquity (t : R) : R := 23.439 * rad + -0.00000036 * rad * t.

Definition Rdistance (t : R) : R :=
  385001 * (1 / 149597870.7)
  + -20905 * (1 / 149597870.7) * cos (Rmean_anomaly t).

Definition Rsin_declination (t : R) : R :=
  sin (Rlatitude t) * cos (Robliquity t)
  + cos (Rlatitude t) * sin (Robliquity t) * sin (Rlongitude t).

(** The right ascension and the hour angle on finite arguments, as
    [_right_ascension] and [_hour_angle] compute them, and one step of the
    refinement of the hour angle started at [t]. *)
Definition Rright_ascension (t : R) : R :=
  Js.Ratan2
    (sin (Rlongitude t) * cos (Robliquity t)
     - tan (Rlatitude t) * sin (Robliquity t))
    (cos (Rlongitude t)).

Definition Rhour_angle (greenwich : R -> R) (t lon : R) : R :=
  Rlimit (greenwich t + lon) - Rlimit (Rright_ascension t).

Definition Rhour_angle_iterative (greenwich : R -> R) (t lon ha0 : R) : R :=
  Rhour_angle greenwich (t - ha0 / (2 * PI)) lon + ha0.

(** The numbers [Number.isFinite] accepts. *)
Definition finite (x : num) : bool :=
  match x with Fin _ => true | _ => false end.

(** A linear sidereal clock, for closed examples: 280.147 degrees at the
    epoch and 360.9856235 degrees a day. *)
Definition linear_greenwich (t : R) : R := (280.147 + 360.9856235 * t) * rad.

(** Taylor polynomials of the sine and the cosine. *)
Definition sin_lo (u : R) : R := u - u ^ 3 / 6 + u ^ 5 / 120 - u ^ 7 / 5040.
Definition sin_hi (u : R) : R := sin_lo u + u ^ 9 / 362880.
Definition cos_lo (u : R) : R := 1 - u ^ 2 / 2 + u ^ 4 / 24 - u ^ 6 / 720.
Definition cos_hi (u : R) : R := cos_lo u + u ^ 8 / 40320.

Module Classification.
Import lunar.

(** The classification of crossings as the specification words it: a single
    in-domain root is a rise when the sample at the segment start is
    negative and a set otherwise; of two roots the earlier is the set and
    the later the rise when the vertex value is negative, and conversely
    otherwise; a rise or set already found is kept. *)
Definition record_events_claimed (i h0 : num) (p : Parabola) (r : Roots)
    (moonrise moonset : num) : num * num :=
  match roots r with
  | 1%nat =>
      if Js.lt h0 0
      then ((if Js.isNaN moonrise then i + x1 r else moonrise)%js, moonset)
      else (moonrise, (if Js.isNaN moonset then i + x1 r else moonset)%js)
  | 2%nat =>
      ((if Js.isNaN moonrise
        then i + (if Js.lt (p_ye p) 0 then x2 r else x1 r) else moonrise)%js,
       (if Js.isNaN moonset
        then i + (if Js.lt (p_ye p) 0 then x1 r else x2 r) else moonset)%js)
  | _ => (moonrise, moonset)
  end.

(** The branch conditions under which the loop body takes the crossing of a
    segment for a rise, respectively for a set. *)
Definition taken_as_rise (h0 : num) (r : Roots) : bool :=
  match roots r with
  | 1%nat => Js.lt h0 0
  | 2%nat => true
  | _ => false
  end.

Definition taken_as_set (h0 : num) (r : Roots) (moonrise : num) : bool :=
  match roots r with
  | 1%nat => negb (Js.lt h0 0 && Js.isNaN moonrise)
  | 2%nat => true
  | _ => false
  end.


Section Trace.
Variable greenwich : R -> R.
Variables t lat lon : num.

(** The samples [h1] and [h2] of iteration [i] and the roots found. *)
Definition segment_h1 (i : Z) (st : Sweep) : num :=
  if (i =? 0)%Z then h1 st
  else (_elevation greenwich (_hours_later t (Js.of_Z i)) lat lon
        - - PARALLAX)%js.

Definition segment_h2 (i : Z) : num :=
  (_elevation greenwich (_hours_later t (Js.of_Z (i + 1))) lat lon
   - - PARALLAX)%js.

Definition segment_roots (i : Z) (st : Sweep) : Roots :=
  count_roots (fit (h0 st) (segment_h1 i st) (segment_h2 i)).

(** The iterations the loop executes, each with the variables at its
    entry. *)
Fixpoint visited (indices : list Z) (st : Sweep) : list (Z * Sweep) :=
  match indices with
  | [] => []
  | i :: rest =>
      (i, st) ::
      (let '(st', h2) := segment greenwich t lat lon i st in
       if found_all st' then []
       else visited rest
              {| h0 := h2; h1 := h1 st';
                 rise_h := rise_h st'; set_h := set_h st' |})
  end.

(** The sweep of [_rise_and_set] at its start. *)
Definition initial : Sweep :=
  let h0 := (_elevation greenwich t lat lon - - PARALLAX)%js in
  {| h0 := h0; h1 := h0; rise_h := NaN; set_h := NaN |}.

End Trace.

End Classification.

(** * Properties *)

(** ** Arithmetic on finite numbers *)

Module JsFacts.

Lemma Rltb_true x y : Js.Rltb x y = true <-> x < y.
Proof. unfold Js.Rltb; destruct (Rlt_dec x y); split; auto; discriminate. Qed.

Lemma Rltb_false x y : Js.Rltb x y = false <-> y <= x.
Proof.
  unfold Js.Rltb; destruct (Rlt_dec x y); split; intros H;
    try discriminate; try reflexivity; lra.
Qed.

Lemma Rleb_true x y : Js.Rleb x y = true <-> x <= y.
Proof. unfold Js.Rleb; destruct (Rle_dec x y); split; auto; discriminate. Qed.

Lemma Rleb_false x y : Js.Rleb x y = false <-> y < x.
Proof.
  unfold Js.Rleb; destruct (Rle_dec x y); split; intros H;
    try discriminate; try reflexivity; lra.
Qed.

Lemma div_fin a b : b <> 0 -> (Fin a / Fin b)%js = Fin (a / b).
Proof. intros Hb; simpl. destruct (Req_dec_T b 0); [contradiction | reflexivity]. Qed.

Lemma div_zero a : (Fin a / Fin 0)%js = Js.signed_inf a.
Proof. simpl. destruct (Req_dec_T 0 0); [reflexivity | contradiction]. Qed.

Lemma signed_inf_pos a : 0 < a -> Js.signed_inf a = PInf.
Proof. intros H; unfold Js.signed_inf. destruct (Rlt_dec 0 a); [reflexivity | contradiction]. Qed.

Lemma signed_inf_neg a : a < 0 -> Js.signed_inf a = NInf.
Proof.
  intros H; unfold Js.signed_inf.
  destruct (Rlt_dec 0 a); [lra |].
  destruct (Rlt_dec a 0); [reflexivity | contradiction].
Qed.

Lemma signed_inf_zero : Js.signed_inf 0 = NaN.
Proof.
  unfold Js.signed_inf.
  destruct (Rlt_dec 0 0); [lra |]. destruct (Rlt_dec 0 0); [lra | reflexivity].
Qed.

Lemma two_PI_neq0 : 2 * PI <> 0.
Proof. pose proof PI_RGT_0; lra. Qed.

Lemma asin_fin x : -1 <= x <= 1 -> Js.asin (Fin x) = Fin (asin x).
Proof.
  intros H; simpl. destruct (Rle_dec (Rabs x) 1) as [_ | n]; [reflexivity |].
  exfalso; apply n. apply Rabs_le; lra.
Qed.

Lemma sqrt_fin x : 0 <= x -> Js.sqrt (Fin x) = Fin (sqrt x).
Proof. intros H; simpl. destruct (Rlt_dec x 0); [lra | reflexivity]. Qed.

End JsFacts.

(** ** Phase *)

Module PhaseFacts.
Import lunar.

Lemma rem30_bound (z : Z) : (-30 < Z.rem z 30 < 30)%Z.
Proof.
  pose proof (Z.rem_bound_abs z 30 ltac:(lia)) as H.
  lia.
Qed.

(** The eight labels, by the rounded value. *)
Lemma _phaseString_cases (q : Q) :
  let n := Math_round q in
  _phaseString q =
    if (n <? 0)%Z then None
    else if (n =? 0)%Z then Some "new-moon"%string
    else if (n <? 8)%Z then Some "Waxing-crescent"%string
    else if (n =? 8)%Z then Some "first-quarter"%string
    else if (n <? 15)%Z then Some "waxing-gibbous"%string
    else if (n =? 15)%Z then Some "full-moon"%string
    else if (n <? 22)%Z then Some "waning-gibbous"%string
    else if (n =? 22)%Z then Some "last-quarter"%string
    else if (n <? 31)%Z then Some "waning-crescent"%string
    else None.
Proof.
  intros n; unfold _phaseString; fold n.
  repeat match goal with
  | |- context [(?a =? ?b)%Z] => destruct (Z.eqb_spec a b)
  | |- context [(?a <? ?b)%Z] => destruct (Z.ltb_spec a b)
  end; simpl; try reflexivity; lia.
Qed.

Lemma Qfloor_between (q : Q) (z : Z) :
  (inject_Z z <= q)%Q -> (q < inject_Z (z + 1))%Q -> Qfloor q = z.
Proof.
  intros Hlo Hhi.
  pose proof (Qfloor_le q) as H1. pose proof (Qlt_floor q) as H2.
  assert (Ha : (z < Qfloor q + 1)%Z).
  { rewrite Zlt_Qlt. eapply Qle_lt_trans; [exact Hlo | exact H2]. }
  assert (Hb : (Qfloor q < z + 1)%Z).
  { rewrite Zlt_Qlt. eapply Qle_lt_trans; [exact H1 | exact Hhi]. }
  lia.
Qed.

Lemma Math_round_integer (n : Z) : Math_round (inject_Z n) = n.
Proof.
  unfold Math_round. apply Qfloor_between.
  - unfold Qle, inject_Z; cbn. lia.
  - unfold Qlt, inject_Z; cbn. lia.
Qed.

(** JavaScript's remainder followed by the correction of a negative result
    is the remainder of the floored division. *)
Lemma rem_corrected (m : Z) :
  (if (Z.rem m 30 <? 0)%Z then (Z.rem m 30 + 30)%Z else Z.rem m 30)
  = (m mod 30)%Z.
Proof.
  pose proof (rem30_bound m) as Hb.
  pose proof (Z.quot_rem' m 30) as Hq.
  destruct (Z.ltb_spec (Z.rem m 30) 0) as [Hneg | Hpos].
  - apply (Z.mod_unique_pos m 30 (m ÷ 30 - 1)); lia.
  - apply (Z.mod_unique_pos m 30 (m ÷ 30)); lia.
Qed.

(** The last steps on an integer [r]: subtracting 4, or 8.3, and rounding
    by [Math.floor(r + 0.5)] subtracts the integer 4, respectively 8. *)
Lemma phase_tail (r : Z) (before : bool) :
  (let q := (inject_Z r - (if before then 4 else 8.3))%Q in
   let m := Z.rem (Qfloor (q + 0.5)) 30 in
   if (m <? 0)%Z then (m + 30)%Z else m)
  = ((r - (if before then 4 else 8)) mod 30)%Z.
Proof.
  cbv zeta.
  assert (Hf : Qfloor (inject_Z r - (if before then 4 else 8.3) + 0.5)
               = (r - (if before then 4 else 8))%Z).
  { destruct before; apply Qfloor_between;
      unfold Qle, Qlt, Qplus, Qminus, Qopp, Qplus, inject_Z; cbn; lia. }
  rewrite Hf. apply rem_corrected.
Qed.

(** The value of [r] before the century correction: the golden-number term
    and the month and day, with the two days added in January and
    February. *)
Lemma _phaseNumber_formula (new_Date : Z -> Date) (ts : Z) :
  let date := new_Date ts in
  let year := getFullYear date in
  let month := (getMonth date + 1)%Z in
  let g := Z.rem (Z.rem year 100) 19 in
  let g := if (9 <? g)%Z then (g - 19)%Z else g in
  _phaseNumber new_Date ts
  = ((Z.rem (g * 11) 30 + month + getDate date
      + (if (month <? 3)%Z then 2 else 0)
      - (if (year <? 2000)%Z then 4 else 8)) mod 30)%Z.
Proof.
  cbv zeta. unfold _phaseNumber, _dateFromTimestamp. cbv zeta.
  set (g := if (9 <? _)%Z then _ else _).
  set (r := if (getMonth (new_Date ts) + 1 <? 3)%Z then _ else _).
  pose proof (phase_tail r (getFullYear (new_Date ts) <? 2000)%Z) as Ht.
  cbv zeta in Ht.
  rewrite Ht. f_equal. unfold r.
  destruct (getMonth (new_Date ts) + 1 <? 3)%Z; lia.
Qed.

(** Whatever calendar fields the host reports for a time value, the integer
    computation gives a phase number from 0 to 29. *)
Lemma _phaseNumber_range (new_Date : Z -> Date) (ms : Z) :
  (0 <= _phaseNumber new_Date ms < 30)%Z.
Proof.
  unfold _phaseNumber; cbv zeta.
  match goal with
  | |- context [Z.rem (Qfloor ?q) 30] =>
      pose proof (rem30_bound (Qfloor q)) as Hb;
      destruct (Z.ltb_spec (Z.rem (Qfloor q) 30) 0)
  end; lia.
Qed.

End PhaseFacts.

Module PhaseJsFacts.
Import PhaseJs.

Lemma Rtrunc_IZR (z : Z) : Rtrunc (IZR z) = z.
Proof.
  unfold Rtrunc. destruct (Rle_dec 0 (IZR z)).
  - apply ZfloorZ.
  - unfold Zceil. rewrite <- opp_IZR, ZfloorZ. lia.
Qed.

(** The integer part of a quotient of integers is the quotient that rounds
    towards zero. *)
Lemma Rtrunc_quot (a b : Z) :
  (0 < b)%Z -> Rtrunc (IZR a / IZR b) = Z.quot a b.
Proof.
  intros Hb.
  assert (HbR : 0 < IZR b) by (apply IZR_lt; exact Hb).
  pose proof (Z.quot_rem' a b) as Hq.
  assert (Hdiv : IZR a / IZR b = IZR (Z.quot a b) + IZR (Z.rem a b) / IZR b).
  { rewrite Hq at 1. rewrite plus_IZR, mult_IZR. field. lra. }
  unfold Rtrunc.
  destruct (Z_le_gt_dec 0 a) as [Ha | Ha].
  - pose proof (Z.rem_bound_pos a b Ha Hb) as [Hr0 Hr1].
    apply IZR_le in Hr0. apply IZR_lt in Hr1.
    assert (Hf : 0 <= IZR (Z.rem a b) / IZR b < 1).
    { split.
      - apply Rmult_le_pos; [exact Hr0 | apply Rlt_le, Rinv_0_lt_compat, HbR].
      - apply Rmult_lt_reg_r with (IZR b); [exact HbR |].
        unfold Rdiv. rewrite Rmult_assoc, Rinv_l by lra. lra. }
    assert (Hq0 : (0 <= Z.quot a b)%Z) by (apply Z.quot_pos; lia).
    apply IZR_le in Hq0.
    destruct (Rle_dec 0 (IZR a / IZR b)) as [_ | n]; [| exfalso; apply n; lra].
    apply Zfloor_eq. lra.
  - assert (Ha' : (a <= 0)%Z) by lia.
    pose proof (Z.rem_bound_pos (- a) b ltac:(lia) Hb) as [Hp0 Hp1].
    pose proof (Z.rem_opp_l (- a) b ltac:(lia)) as Ho.
    rewrite Z.opp_involutive in Ho.
    assert (Hr0' : (- b < Z.rem a b)%Z) by lia.
    assert (Hr1 : (Z.rem a b <= 0)%Z) by lia.
    apply IZR_lt in Hr0'. apply IZR_le in Hr1. rewrite opp_IZR in Hr0'.
    assert (Hf : -1 < IZR (Z.rem a b) / IZR b <= 0).
    { split.
      - apply Rmult_lt_reg_r with (IZR b); [exact HbR |].
        unfold Rdiv. rewrite Rmult_assoc, Rinv_l by lra. lra.
      - apply Rmult_le_reg_r with (IZR b); [exact HbR |].
        unfold Rdiv. rewrite Rmult_assoc, Rinv_l by lra. lra. }
    assert (Hneg : IZR a / IZR b < 0).
    { apply Rmult_lt_reg_r with (IZR b); [exact HbR |].
      unfold Rdiv. rewrite Rmult_assoc, Rinv_l by lra.
      assert (IZR a < 0) by (apply IZR_lt; lia). lra. }
    destruct (Rle_dec 0 (IZR a / IZR b)) as [Hc | _]; [lra |].
    unfold Zceil.
    assert (Hfl : Zfloor (- (IZR a / IZR b)) = (- Z.quot a b)%Z).
    { apply Zfloor_eq. rewrite opp_IZR. lra. }
    rewrite Hfl. lia.
Qed.

(** On integers [%] is [Z.rem]. *)
Lemma rem_int (a b : Z) :
  (0 < b)%Z -> rem (Fin (IZR a)) (Fin (IZR b)) = Fin (IZR (Z.rem a b)).
Proof.
  intros Hb. unfold rem.
  destruct (Req_dec_T (IZR b) 0) as [H0 | _].
  - apply eq_IZR in H0. lia.
  - rewrite Rtrunc_quot by exact Hb.
    rewrite Z.rem_eq by lia. rewrite minus_IZR, mult_IZR. reflexivity.
Qed.

Lemma lt_int (a b : Z) : Js.lt (Fin (IZR a)) (Fin (IZR b)) = (a <? b)%Z.
Proof.
  cbn [Js.lt]. destruct (Z.ltb_spec a b) as [H | H].
  - apply JsFacts.Rltb_true. now apply IZR_lt.
  - apply JsFacts.Rltb_false. now apply IZR_le.
Qed.

Lemma strict_eq_int (a b : Z) :
  strict_eq (Fin (IZR a)) (Fin (IZR b)) = (a =? b)%Z.
Proof.
  cbn [strict_eq]. destruct (Req_dec_T (IZR a) (IZR b)) as [H | H];
    destruct (Z.eqb_spec a b) as [E | E]; try reflexivity.
  - apply eq_IZR in H. contradiction.
  - subst. contradiction.
Qed.

Lemma Math_round_int (z : Z) : Math_round (Fin (IZR z)) = Fin (IZR z).
Proof.
  cbn [Math_round]. do 2 f_equal. apply Zfloor_eq. lra.
Qed.

(** The time value of a date that is valid. *)
Lemma new_Date_valid (r : R) :
  Rabs r <= 8640000000000000 -> new_Date (Fin r) = Valid (Rtrunc r).
Proof.
  intros H. cbn [new_Date].
  destruct (Rle_dec (Rabs r) 8640000000000000); [reflexivity | contradiction].
Qed.

Lemma new_Date_invalid (r : R) :
  8640000000000000 < Rabs r -> new_Date (Fin r) = Invalid.
Proof.
  intros H. cbn [new_Date].
  destruct (Rle_dec (Rabs r) 8640000000000000); [lra | reflexivity].
Qed.

(** The label of an integer, by cases. *)
Lemma _phaseString_int (n : Z) :
  _phaseString (Fin (IZR n)) = lunar._phaseString (inject_Z n).
Proof.
  unfold _phaseString, lunar._phaseString. cbv zeta.
  rewrite Math_round_int.
  rewrite PhaseFacts.Math_round_integer.
  rewrite !strict_eq_int, !lt_int. reflexivity.
Qed.

Section Host.
Variable calendar : Z -> lunar.Date.
Variable parseInt_text : String.string -> num.

(** On Invalid Date every step of the phase number is NaN, and NaN has no
    label. *)
Lemma _phaseNumber_invalid (ts : Timestamp) :
  _dateFromTimestamp parseInt_text ts = Invalid ->
  _phaseNumber calendar parseInt_text ts = NaN.
Proof.
  intros H. unfold _phaseNumber. cbv zeta. rewrite H. reflexivity.
Qed.

Lemma _phaseString_NaN : _phaseString NaN = None.
Proof. reflexivity. Qed.

(** On a valid date the phase number is the one that the integer
    computation gives from the calendar fields of the time value. *)
Lemma _phaseNumber_valid (ts : Timestamp) (tv : Z) :
  _dateFromTimestamp parseInt_text ts = Valid tv ->
  _phaseNumber calendar parseInt_text ts
  = Js.of_Z (lunar._phaseNumber calendar tv).
Proof.
  intros H. unfold _phaseNumber, lunar._phaseNumber, lunar._dateFromTimestamp.
  cbv zeta. rewrite H. cbn [getFullYear getMonth getDate]. unfold Js.of_Z.
  set (y := lunar.getFullYear (calendar tv)).
  set (m := lunar.getMonth (calendar tv)).
  set (d := lunar.getDate (calendar tv)).
  change (Fin (IZR m) + Fin 1)%js with (Fin (IZR m + 1)).
  rewrite <- (plus_IZR m 1).
  rewrite (rem_int y 100), (rem_int _ 19) by lia.
  rewrite (lt_int 9), (lt_int (m + 1) 3), (lt_int y 2000).
  set (g := Z.rem (Z.rem y 100) 19).
  assert (Hfour : forall r : Z,
            Js.floor (Fin (IZR r) - Fin 4 + Fin 0.5)%js
            = Fin (IZR (Qfloor (inject_Z r - 4 + 0.5)%Q))).
  { intros r.
    replace (Qfloor (inject_Z r - 4 + 0.5)) with (r - 4)%Z.
    - cbn [Js.sub Js.add Js.neg Js.floor]. do 2 f_equal.
      apply Zfloor_eq. rewrite minus_IZR. lra.
    - symmetry. apply PhaseFacts.Qfloor_between;
        unfold Qle, Qlt, Qplus, Qminus, Qopp, Qplus, inject_Z; cbn; lia. }
  assert (Height : forall r : Z,
            Js.floor (Fin (IZR r) - Fin 8.3 + Fin 0.5)%js
            = Fin (IZR (Qfloor (inject_Z r - 8.3 + 0.5)%Q))).
  { intros r.
    replace (Qfloor (inject_Z r - 8.3 + 0.5)) with (r - 8)%Z.
    - cbn [Js.sub Js.add Js.neg Js.floor]. do 2 f_equal.
      apply Zfloor_eq. rewrite minus_IZR. lra.
    - symmetry. apply PhaseFacts.Qfloor_between;
        unfold Qle, Qlt, Qplus, Qminus, Qopp, Qplus, inject_Z; cbn; lia. }
  assert (Hsub : forall a b : Z, (Fin (IZR a) - Fin (IZR b))%js = Fin (IZR (a - b)))
    by (intros a b; cbn [Js.sub Js.add Js.neg]; now rewrite minus_IZR).
  assert (Hadd : forall a b : Z, (Fin (IZR a) + Fin (IZR b))%js = Fin (IZR (a + b)))
    by (intros a b; cbn [Js.add]; now rewrite plus_IZR).
  assert (Hmul : forall a b : Z, (Fin (IZR a) * Fin (IZR b))%js = Fin (IZR (a * b)))
    by (intros a b; cbn [Js.mul]; now rewrite mult_IZR).
  cbn [parseInt]. rewrite !Rtrunc_IZR.
  destruct (9 <? g)%Z, (m + 1 <? 3)%Z, (y <? 2000)%Z;
    rewrite ?Hsub, ?Hmul, ?(rem_int _ 30), ?Hadd by lia;
    rewrite ?Hfour, ?Height, ?(rem_int _ 30), (lt_int _ 0) by lia;
    match goal with
    | |- context [(?a <? 0)%Z] => destruct (a <? 0)%Z
    end; rewrite ?Hadd; reflexivity.
Qed.

End Host.

(** The phase of the epoch, where the host's calendar reports it as
    1 January 1970: the number is 24 and the label ["waning-crescent"]. *)
Lemma phase_at_the_epoch (calendar : Z -> lunar.Date)
    (parseInt_text : String.string -> num) :
  calendar 0%Z
  = {| lunar.getFullYear := 1970; lunar.getMonth := 0; lunar.getDate := 1 |} ->
  phase calendar parseInt_text (Number (Fin 0))
  = {| number := Fin 24; string := Some "waning-crescent"%string |}.
Proof.
  intros Hc. unfold phase. cbv zeta.
  assert (Hd : _dateFromTimestamp parseInt_text (Number (Fin 0)) = Valid 0).
  { unfold _dateFromTimestamp. cbv zeta.
    rewrite new_Date_valid by (rewrite Rabs_R0; lra).
    now rewrite (Rtrunc_IZR 0). }
  rewrite (_phaseNumber_valid calendar parseInt_text _ 0 Hd).
  assert (Hn : lunar._phaseNumber calendar 0 = 24%Z).
  { unfold lunar._phaseNumber, lunar._dateFromTimestamp. cbv zeta.
    rewrite Hc. reflexivity. }
  rewrite Hn. unfold Js.of_Z.
  rewrite (_phaseString_int 24). reflexivity.
Qed.

End PhaseJsFacts.

Module PhaseClaims.
Import PhaseJs.

(** C6, as stated, does not hold: the last case of the mapping is
    [22 < phaseNumber && phaseNumber < 31], which the value 30 satisfies, so
    [_phaseString(30)] is the label ["waning-crescent"], not a missing one. *)
Lemma phaseString_30_is_labelled : _phaseString (Fin 30) <> None.
Proof. rewrite (PhaseJsFacts._phaseString_int 30). vm_compute. discriminate. Qed.

(** C6, amended: the value 30 is mapped to the label ["waning-crescent"],
    as is every integer from 23 to 30, by the last case of the mapping,
    [22 < phaseNumber && phaseNumber < 31]; the boundary value that no case
    matches is 31, which has no label. *)
Theorem phaseString_boundary :
  _phaseString (Fin 30) = Some "waning-crescent"%string
  /\ (forall n : Z,
        (22 < n < 31)%Z ->
        _phaseString (Fin (IZR n)) = Some "waning-crescent"%string)
  /\ _phaseString (Fin 31) = None.
Proof.
  split; [| split].
  - rewrite (PhaseJsFacts._phaseString_int 30). reflexivity.
  - intros n Hn. rewrite PhaseJsFacts._phaseString_int.
    rewrite PhaseFacts._phaseString_cases. cbv zeta.
    rewrite PhaseFacts.Math_round_integer.
    repeat match goal with
    | |- context [(?a =? ?b)%Z] => destruct (Z.eqb_spec a b)
    | |- context [(?a <? ?b)%Z] => destruct (Z.ltb_spec a b)
    end; try reflexivity; lia.
  - rewrite (PhaseJsFacts._phaseString_int 31). reflexivity.
Qed.

(** C7, as stated, does not hold: the time value 8640000000000001 lies past
    the last date, [new Date] gives Invalid Date, whose fields are NaN, and
    the phase number is NaN, not an integer from 0 to 29. *)
Lemma phase_number_of_invalid_date :
  ~ (forall (calendar : Z -> lunar.Date) (parseInt_text : String.string -> num),
       exists n : Z,
         number (phase calendar parseInt_text (Number (Fin 8640000000000001)))
         = Fin (IZR n)
         /\ (0 <= n < 30)%Z).
Proof.
  intros H.
  destruct (H (fun _ => {| lunar.getFullYear := 1970; lunar.getMonth := 0;
                           lunar.getDate := 1 |}) (fun _ => NaN))
    as (n & Hn & _).
  unfold phase in Hn. cbv zeta in Hn. cbn [number] in Hn.
  rewrite PhaseJsFacts._phaseNumber_invalid in Hn; [discriminate |].
  apply PhaseJsFacts.new_Date_invalid.
  rewrite Rabs_pos_eq; lra.
Qed.

(** C7, amended: for every timestamp whose [Date] is valid the phase number
    returned by [phase] is an integer in the range [0, 30), whatever
    calendar fields the host reports; when the [Date] is invalid the phase
    number is NaN.  The [Date] of a number of milliseconds is valid exactly
    when the number is finite and at most 8.64e15 in size. *)
Theorem phase_number_range_or_NaN
    (calendar : Z -> lunar.Date) (parseInt_text : String.string -> num)
    (ts : Timestamp) :
  match _dateFromTimestamp parseInt_text ts with
  | Valid _ =>
      exists n : Z,
        number (phase calendar parseInt_text ts) = Fin (IZR n)
        /\ (0 <= n < 30)%Z
  | Invalid => number (phase calendar parseInt_text ts) = NaN
  end
  /\ (forall ms : num,
        (exists tv : Z, _dateFromTimestamp parseInt_text (Number ms) = Valid tv)
        <-> exists r : R, ms = Fin r /\ Rabs r <= 8640000000000000).
Proof.
  split.
  - unfold phase. cbv zeta. cbn [number].
    destruct (_dateFromTimestamp parseInt_text ts) as [tv |] eqn:Hd.
    + rewrite (PhaseJsFacts._phaseNumber_valid _ _ _ tv Hd).
      exists (lunar._phaseNumber calendar tv). split; [reflexivity |].
      apply (PhaseFacts._phaseNumber_range calendar tv).
    + now apply PhaseJsFacts._phaseNumber_invalid.
  - intros ms. unfold _dateFromTimestamp. cbv zeta. split.
    + intros [tv Hv]. destruct ms as [r | | |]; cbn [new_Date] in Hv;
        try discriminate.
      destruct (Rle_dec (Rabs r) 8640000000000000); [| discriminate].
      now exists r.
    + intros (r & -> & Hr). exists (Rtrunc r).
      now apply PhaseJsFacts.new_Date_valid.
Qed.

End PhaseClaims.

(** ** Angles and the hour angle *)

Module AngleFacts.
Import lunar.

Lemma two_PI_fin : (2 * Js.PI)%js = Fin (2 * PI).
Proof. reflexivity. Qed.

Lemma limit_angle_fin (x : R) : limit_angle (Fin x) = Fin (Rlimit x).
Proof.
  unfold limit_angle, Rlimit. rewrite two_PI_fin.
  rewrite JsFacts.div_fin by apply JsFacts.two_PI_neq0.
  reflexivity.
Qed.

Lemma Rlimit_range (x : R) : 0 <= Rlimit x < 2 * PI.
Proof.
  unfold Rlimit.
  pose proof (Zfloor_bound (x / (2 * PI))) as [Hlo Hhi].
  pose proof PI_RGT_0 as Hpi.
  assert (Hx : x = x / (2 * PI) * (2 * PI)) by (field; lra).
  set (q := x / (2 * PI)) in *. set (n := IZR (Zfloor q)) in *.
  rewrite Hx. split; nra.
Qed.

Lemma Rlimit_period (x : R) (j : Z) : Rlimit (x + 2 * PI * IZR j) = Rlimit x.
Proof.
  unfold Rlimit.
  replace ((x + 2 * PI * IZR j) / (2 * PI)) with (x / (2 * PI) + IZR j)
    by (field; pose proof PI_RGT_0; lra).
  rewrite Zfloor_addz, plus_IZR. ring.
Qed.

Lemma Rlimit_idem (x : R) : Rlimit (Rlimit x) = Rlimit x.
Proof.
  pose proof (Rlimit_range x) as [Hlo Hhi].
  unfold Rlimit at 1.
  replace (Zfloor (Rlimit x / (2 * PI))) with 0%Z; [ring |].
  symmetry; apply Zfloor_eq. pose proof PI_RGT_0 as Hpi.
  split.
  - apply Rmult_le_reg_r with (2 * PI); [lra |].
    replace (Rlimit x / (2 * PI) * (2 * PI)) with (Rlimit x) by (field; lra). lra.
  - apply Rmult_lt_reg_r with (2 * PI); [lra |].
    replace (Rlimit x / (2 * PI) * (2 * PI)) with (Rlimit x) by (field; lra). lra.
Qed.

Lemma limit_angle_period (x : num) (j : Z) :
  limit_angle (x + 2 * Js.PI * Js.of_Z j)%js = limit_angle x.
Proof.
  destruct x as [r | | |]; try reflexivity.
  change (Fin r + 2 * Js.PI * Js.of_Z j)%js with (Fin (r + 2 * PI * IZR j)).
  rewrite !limit_angle_fin, Rlimit_period. reflexivity.
Qed.

Lemma transit_direct_fin (t ha : R) :
  _transit_direct (Fin t) (Fin ha) = Fin (t - ha / (2 * PI)).
Proof.
  unfold _transit_direct, Js.PI.
  rewrite JsFacts.div_fin by apply PI_neq0.
  rewrite JsFacts.div_fin by lra.
  simpl. f_equal. field. apply PI_neq0.
Qed.

(** The double-precision functions at a few arguments: [Math.floor] on
    both sides of zero and on an integer too large to have a fraction, and
    [limit_angle] where the rounding shows. *)
Lemma Double_floor_values :
  (Double.floor 2.5 = 2 /\ Double.floor (-2.5) = -3
   /\ Double.floor 0.5 = 0 /\ Double.floor (-0.5) = -1
   /\ Double.floor 1e22 = 1e22)%float.
Proof. repeat split; vm_compute; reflexivity. Qed.

Lemma Double_limit_angle_values :
  (Double.limit_angle (0.1 + 2 * Double.PI) = 0.09999999999999964
   /\ Double.limit_angle 1e22 = 0
   /\ Double.limit_angle (-1e-20) = 2 * Double.PI)%float.
Proof. repeat split; vm_compute; reflexivity. Qed.

End AngleFacts.

Module AngleClaims.
Import lunar.

(** C8, as stated, does not hold in the double arithmetic of the source:
    the sum, the quotient and the product of the reduction round, so a whole
    turn added to the sidereal time changes the result.  With lst = 0.1,
    ra = 0, j = 1 and k = 0 the two sides are 0.09999999999999964 and
    0.1. *)
Lemma hour_angle_direct_wrap_rounds :
  (Double._hour_angle_direct (0.1 + 2 * Double.PI * 1) (0 + 2 * Double.PI * 0)
   <> Double._hour_angle_direct 0.1 0)%float.
Proof.
  intros H. apply (f_equal Prim2SF) in H. vm_compute in H. discriminate H.
Qed.

(** The two values. *)
Lemma hour_angle_direct_wrap_values :
  (Double._hour_angle_direct (0.1 + 2 * Double.PI * 1) (0 + 2 * Double.PI * 0)
   = 0.09999999999999964
   /\ Double._hour_angle_direct 0.1 0 = 0.1)%float.
Proof. split; vm_compute; reflexivity. Qed.

(** C8, amended: the hour angle reduces the local sidereal time and the right
    ascension modulo a full turn before subtracting, in the double
    arithmetic of the source as in exact arithmetic; in exact arithmetic
    each reduced operand lies in [0, 2 pi) and adding whole turns to either
    input does not change the result:
    hour_angle(lst + 2 pi j, ra + 2 pi k) = hour_angle(lst, ra) for all
    integers j and k.  In double arithmetic the equality does not hold in
    general, as the values above show. *)
Theorem hour_angle_direct_wrap_exact (lst ra : num) (j k : Z) :
  (forall a b : float,
     Double._hour_angle_direct a b
     = (Double.limit_angle a - Double.limit_angle b)%float)
  /\ _hour_angle_direct (lst + 2 * Js.PI * Js.of_Z j)%js
                        (ra + 2 * Js.PI * Js.of_Z k)%js
     = _hour_angle_direct lst ra
  /\ (forall l r : R,
        _hour_angle_direct (Fin l) (Fin r)
        = Fin (Rlimit l - Rlimit r)
        /\ 0 <= Rlimit l < 2 * PI
        /\ 0 <= Rlimit r < 2 * PI).
Proof.
  split; [reflexivity |]. split.
  - unfold _hour_angle_direct. now rewrite !AngleFacts.limit_angle_period.
  - intros l r. unfold _hour_angle_direct.
    rewrite !AngleFacts.limit_angle_fin.
    repeat split; try apply AngleFacts.Rlimit_range.
Qed.

(** C4: the refinement of the hour angle is exactly four applications of
    the iteration step to the initial hour angle, with no convergence test;
    a step projects the time backward by [ha * (12 / pi / 24)] days, that
    is by [ha / (2 pi)] of 24 hours, recomputes the hour angle at the
    projected instant and adds it to the estimate. *)
Theorem hour_angle_refined_is_four_steps (greenwich : R -> R) (t lon : num) :
  _hour_angle_refined greenwich t lon
  = Nat.iter 4 (_hour_angle_iterative greenwich t lon)
      (_hour_angle greenwich t lon)
  /\ (forall ha : num,
        _hour_angle_iterative greenwich t lon ha
        = (_hour_angle greenwich (t - ha * (12 / Js.PI / 24)) lon + ha)%js)
  /\ (forall t' ha : R,
        _transit_direct (Fin t') (Fin ha) = Fin (t' - ha / (2 * PI))).
Proof.
  split; [reflexivity |]. split; [reflexivity |].
  apply AngleFacts.transit_direct_fin.
Qed.

End AngleClaims.

(** ** Position *)

Module PositionFacts.
Import lunar.

Lemma RAD_fin : RAD = Fin (PI / 180).
Proof. unfold RAD, Js.PI. apply JsFacts.div_fin. lra. Qed.

Lemma AU_fin : AU = Fin (1 / 149597870.7).
Proof. unfold AU. apply JsFacts.div_fin. lra. Qed.

Lemma julian_to_fin (ms : R) :
  julian_to (Fin ms)
  = Fin ((ms / 86400000 + 2440587.5 - 2451545) / 36525).
Proof.
  unfold julian_to.
  rewrite JsFacts.div_fin by lra.
  cbn [Js.add Js.sub Js.neg].
  rewrite JsFacts.div_fin by lra.
  reflexivity.
Qed.

Ltac fin_eval :=
  rewrite ?RAD_fin, ?AU_fin;
  cbn [Js.add Js.sub Js.mul Js.neg Js.sin Js.cos Js.tan Js.atan2].

Lemma _longitude_fin (t : R) : _longitude (Fin t) = Fin (Rlongitude t).
Proof.
  unfold _longitude, _ecliptic_equinox_longitude, _mean_anomaly, Q0, Q1, L0,
    M0, M1.
  fin_eval. reflexivity.
Qed.

Lemma _distance_fin (t : R) : _distance (Fin t) = Fin (Rdistance t).
Proof.
  unfold _distance, _mean_anomaly, D0, D1, M0, M1. fin_eval. reflexivity.
Qed.

Lemma _latitude_fin (t : R) : _latitude (Fin t) = Fin (Rlatitude t).
Proof.
  unfold _latitude, _mean_distance, L1, F0, F1. fin_eval. reflexivity.
Qed.

Lemma _obliquity_fin (t : R) : _obliquity (Fin t) = Fin (Robliquity t).
Proof. unfold _obliquity, E0, E1. fin_eval. reflexivity. Qed.

Lemma _right_ascension_finite (t : R) :
  exists ra : R, _right_ascension (Fin t) = Fin ra.
Proof.
  unfold _right_ascension, _right_ascension_direct.
  rewrite _latitude_fin, _longitude_fin, _obliquity_fin.
  fin_eval. eexists; reflexivity.
Qed.

Lemma rad_pos : 0 < rad.
Proof. unfold rad. pose proof PI_RGT_0. lra. Qed.

(** The longitude stays within [L0] of the mean longitude. *)
Lemma Rlongitude_between (t : R) :
  (218.316 + 13.176396 * t) * rad - 6.289 * rad
  <= Rlongitude t
  <= (218.316 + 13.176396 * t) * rad + 6.289 * rad.
Proof.
  unfold Rlongitude. pose proof rad_pos as Hrad.
  pose proof (SIN_bound (Rmean_anomaly t)) as [Hs1 Hs2].
  set (s := sin (Rmean_anomaly t)) in *.
  split; nra.
Qed.

Lemma Rlongitude_near_mean (t : R) :
  Rabs (Rlongitude t - (218.316 + 13.176396 * t) * rad) <= 6.289 * rad.
Proof.
  pose proof (Rlongitude_between t) as [H1 H2].
  apply Rabs_le. split; lra.
Qed.

(** More than eighteen time units before the epoch the mean longitude is so
    far below zero that the equation of the centre cannot make up for it. *)
Lemma Rlongitude_negative (t : R) : t <= -18 -> Rlongitude t < 0.
Proof.
  intros Ht. pose proof (Rlongitude_between t) as [_ H].
  pose proof rad_pos as Hrad.
  assert (H1 : rad * t <= rad * -18) by (apply Rmult_le_compat_l; lra).
  lra.
Qed.

Lemma Rdistance_pos (t : R) : 0 < Rdistance t.
Proof.
  unfold Rdistance.
  pose proof (COS_bound (Rmean_anomaly t)) as [Hc1 Hc2].
  set (c := cos (Rmean_anomaly t)) in *.
  lra.
Qed.

End PositionFacts.

Module PositionClaims.
Import lunar.

(** C1, as stated, does not hold: [longitude] returns [_longitude]
    unreduced.  For the time value -62168472000000 (the start of year 0) the
    result is negative, hence outside [0, 360) whether read in degrees or
    in radians. *)
Lemma longitude_not_reduced :
  exists lam : R,
    longitude (Fin (-62168472000000)) = Fin lam /\ lam < 0.
Proof.
  unfold longitude.
  rewrite PositionFacts.julian_to_fin, PositionFacts._longitude_fin.
  eexists. split; [reflexivity |].
  apply PositionFacts.Rlongitude_negative. lra.
Qed.

(** C1, amended: for every finite millisecond timestamp the returned
    distance is strictly positive, and the returned longitude is the finite
    value [Q0 + Q1 t + L0 sin(M0 + M1 t)] in radians, within [L0] of the
    mean longitude [Q0 + Q1 t]; it is not reduced modulo a full turn. *)
Theorem longitude_raw_distance_positive (ms : R) :
  exists t : R,
    julian_to (Fin ms) = Fin t
    /\ longitude (Fin ms) = Fin (Rlongitude t)
    /\ Rabs (Rlongitude t - (218.316 + 13.176396 * t) * rad) <= 6.289 * rad
    /\ distance (Fin ms) = Fin (Rdistance t)
    /\ 0 < Rdistance t.
Proof.
  unfold longitude, distance. rewrite PositionFacts.julian_to_fin.
  eexists. split; [reflexivity |].
  rewrite PositionFacts._longitude_fin, PositionFacts._distance_fin.
  repeat split.
  - apply PositionFacts.Rlongitude_near_mean.
  - apply PositionFacts.Rdistance_pos.
Qed.

End PositionClaims.

(** ** Transit *)

Module TransitFacts.
Import lunar.

Lemma _hours_later_fin (t hrs : R) :
  _hours_later (Fin t) (Fin hrs) = Fin (t + hrs / 24).
Proof. unfold _hours_later. rewrite JsFacts.div_fin by lra. reflexivity. Qed.

Lemma le_not_NaN (x y : num) : Js.le x y = true -> x <> NaN /\ y <> NaN.
Proof. destruct x, y; simpl; intros H; split; congruence. Qed.

Section WithSidereal.
Variable greenwich : R -> R.

Lemma sidereal_local_fin (t lon : R) :
  sidereal_local greenwich (Fin t) (Fin lon)
  = Fin (Rlimit (greenwich t + lon)).
Proof.
  unfold sidereal_local, sidereal_greenwich. cbn [Js.add].
  apply AngleFacts.limit_angle_fin.
Qed.

Lemma _hour_angle_fin (t lon ra : R) :
  _right_ascension (Fin t) = Fin ra ->
  _hour_angle greenwich (Fin t) (Fin lon)
  = Fin (Rlimit (greenwich t + lon) - Rlimit ra).
Proof.
  intros Hra. unfold _hour_angle, _hour_angle_direct.
  rewrite sidereal_local_fin, Hra, !AngleFacts.limit_angle_fin.
  rewrite AngleFacts.Rlimit_idem. reflexivity.
Qed.

(** An observer whose local sidereal time equals the right ascension sees
    the hour angle zero. *)
Lemma _hour_angle_zero (t ra : R) :
  _right_ascension (Fin t) = Fin ra ->
  _hour_angle greenwich (Fin t) (Fin (ra - greenwich t)) = Fin 0.
Proof.
  intros Hra. rewrite (_hour_angle_fin _ _ _ Hra).
  replace (greenwich t + (ra - greenwich t)) with ra by ring.
  f_equal. ring.
Qed.

Lemma _transit_direct_zero (t : R) :
  _transit_direct (Fin t) (Fin 0) = Fin t.
Proof.
  rewrite AngleFacts.transit_direct_fin. f_equal.
  unfold Rdiv. ring.
Qed.

Lemma _hour_angle_iterative_zero (t : R) (lon : num) :
  _hour_angle greenwich (Fin t) lon = Fin 0 ->
  _hour_angle_iterative greenwich (Fin t) lon (Fin 0) = Fin 0.
Proof.
  intros H0. unfold _hour_angle_iterative.
  rewrite _transit_direct_zero, H0. cbn [Js.add]. f_equal. ring.
Qed.

Lemma _hour_angle_refined_zero (t : R) (lon : num) :
  _hour_angle greenwich (Fin t) lon = Fin 0 ->
  _hour_angle_refined greenwich (Fin t) lon = Fin 0.
Proof.
  intros H0. unfold _hour_angle_refined.
  rewrite H0. now rewrite !(_hour_angle_iterative_zero _ _ H0).
Qed.

(** With the hour angle zero a day ahead, the backward search returns the
    end of the window itself. *)
Lemma _transit_at_window_end (t : R) (lat : num) :
  exists lon : R,
    _transit greenwich (Fin t) lat (Fin lon) = Fin (t + 24 / 24).
Proof.
  destruct (PositionFacts._right_ascension_finite (t + 24 / 24)) as [ra Hra].
  exists (ra - greenwich (t + 24 / 24)).
  unfold _transit.
  rewrite _hours_later_fin.
  rewrite (_hour_angle_refined_zero _ _ (_hour_angle_zero _ _ Hra)).
  rewrite _transit_direct_zero.
  cbn [Js.le].
  replace (Js.Rleb (t + 24 / 24) (t + 24 / 24)) with true; [reflexivity |].
  symmetry; apply JsFacts.Rleb_true; lra.
Qed.

End WithSidereal.

End TransitFacts.

(** ** The rise/set sweep *)

Module SweepFacts.
Import lunar Classification.

Lemma abs_le_one (x : num) :
  Js.le (Js.abs x) (Fin 1) = true -> exists r : R, x = Fin r /\ -1 <= r <= 1.
Proof.
  destruct x as [r | | |]; simpl; try discriminate.
  intros H. apply JsFacts.Rleb_true in H.
  exists r; split; [reflexivity |].
  unfold Rabs in H. destruct (Rcase_abs r); lra.
Qed.

Lemma abs_le_one_false (r : R) :
  Js.le (Js.abs (Fin r)) (Fin 1) = false -> r < -1 \/ 1 < r.
Proof.
  simpl. intros H. apply JsFacts.Rleb_false in H.
  unfold Rabs in H. destruct (Rcase_abs r); lra.
Qed.

Lemma add_fin_inv (x y : num) (r : R) :
  (x + y)%js = Fin r -> exists a b : R, x = Fin a /\ y = Fin b /\ r = a + b.
Proof.
  destruct x as [a | | |], y as [b | | |]; simpl; try discriminate.
  intros [= <-]. now exists a, b.
Qed.

Lemma sub_fin_inv (x y : num) (r : R) :
  (x - y)%js = Fin r -> exists a b : R, x = Fin a /\ y = Fin b /\ r = a - b.
Proof.
  unfold Js.sub. intros H. apply add_fin_inv in H as (a & b & -> & Hy & ->).
  destruct y as [c | | |]; simpl in Hy; try discriminate.
  injection Hy as <-. exists a, c. repeat split.
Qed.

(** The half-distance between the roots is never negative. *)
Lemma dx_nonneg (d a : num) (q : R) :
  (Js.sqrt d / (Js.abs a * 2))%js = Fin q -> 0 <= q.
Proof.
  destruct d as [rd | | |]; simpl Js.sqrt.
  - destruct (Rlt_dec rd 0); [discriminate |].
    destruct a as [ra | | |]; simpl; try discriminate.
    + destruct (Req_dec_T (Rabs ra * 2) 0).
      * unfold Js.signed_inf.
        destruct (Rlt_dec 0 (sqrt rd)); [discriminate |].
        destruct (Rlt_dec (sqrt rd) 0); discriminate.
      * intros [= <-].
        pose proof (sqrt_pos rd). pose proof (Rabs_pos ra).
        apply Rmult_le_pos; [assumption |].
        apply Rlt_le, Rinv_0_lt_compat. lra.
    + unfold Js.signed_inf. destruct (Rlt_dec 0 2); [| lra].
      intros [= <-]. lra.
    + unfold Js.signed_inf. destruct (Rlt_dec 0 2); [| lra].
      intros [= <-]. lra.
  - destruct a as [ra | | |]; simpl; try discriminate.
    + destruct (Rlt_dec (Rabs ra * 2) 0); discriminate.
    + unfold Js.signed_inf. destruct (Rlt_dec 0 2); [discriminate | lra].
    + unfold Js.signed_inf. destruct (Rlt_dec 0 2); [discriminate | lra].
  - destruct a; discriminate.
  - destruct a; discriminate.
Qed.

(** Where [count_roots] leaves the roots it counts: one root is in [x1] and
    lies in the segment; two roots are in [x1] and [x2], in this order, and
    both lie in the segment. *)
Lemma count_roots_in_segment (p : Parabola) :
  match roots (count_roots p) with
  | 0%nat => True
  | 1%nat => exists x : R, x1 (count_roots p) = Fin x /\ -1 <= x <= 1
  | 2%nat =>
      exists a b : R,
        x1 (count_roots p) = Fin a /\ x2 (count_roots p) = Fin b
        /\ -1 <= a <= b /\ b <= 1
  | _ => False
  end.
Proof.
  unfold count_roots.
  destruct (Js.ge (p_d p) (Fin 0)); [| exact I].
  set (dx := (Js.sqrt (p_d p) / (Js.abs (p_a p) * 2))%js).
  assert (Hdx : forall q, dx = Fin q -> 0 <= q) by (intros q; apply dx_nonneg).
  clearbody dx. cbv zeta.
  destruct (Js.le (Js.abs (p_xe p - dx)%js) (Fin 1)) eqn:H1;
  destruct (Js.le (Js.abs (p_xe p + dx)%js) (Fin 1)) eqn:H2; cbn [roots x1 x2].
  - apply abs_le_one in H1 as (u & Hu & Hur).
    apply abs_le_one in H2 as (v & Hv & Hvr).
    destruct (sub_fin_inv _ _ _ Hu) as (e & q & He & Hq & ->).
    destruct (add_fin_inv _ _ _ Hv) as (e' & q' & He' & Hq' & ->).
    rewrite He in He'; injection He' as <-.
    rewrite Hq in Hq'; injection Hq' as <-.
    specialize (Hdx _ Hq).
    rewrite Hu, Hv. cbn [Js.lt].
    replace (Js.Rltb (e - q) (-1)) with false
      by (symmetry; apply JsFacts.Rltb_false; lra).
    exists (e - q), (e + q). repeat split; lra.
  - apply abs_le_one in H1 as (u & Hu & Hur).
    rewrite Hu. cbn [Js.lt].
    replace (Js.Rltb u (-1)) with false
      by (symmetry; apply JsFacts.Rltb_false; lra).
    exists u. split; [reflexivity | lra].
  - apply abs_le_one in H2 as (v & Hv & Hvr).
    destruct (add_fin_inv _ _ _ Hv) as (e & q & He & Hq & ->).
    specialize (Hdx _ Hq).
    rewrite He, Hq in H1 |- *. cbn [Js.sub Js.add Js.neg] in H1 |- *.
    apply abs_le_one_false in H1.
    cbn [Js.lt].
    replace (Js.Rltb (e + - q) (-1)) with true
      by (symmetry; apply JsFacts.Rltb_true; lra).
    exists (e + q). split; [reflexivity | lra].
  - exact I.
Qed.

End SweepFacts.

Module SweepEval.
Import lunar Classification.

(** The fitted parabola on finite samples. *)
Lemma fit_fin (h0 h1 h2 : R) :
  (h2 + h0) / 2 - h1 <> 0 ->
  fit (Fin h0) (Fin h1) (Fin h2)
  = {| p_a := Fin ((h2 + h0) / 2 - h1);
       p_b := Fin ((h2 - h0) / 2);
       p_xe := Fin (- ((h2 - h0) / 2) / (2 * ((h2 + h0) / 2 - h1)));
       p_ye :=
         Fin ((((h2 + h0) / 2 - h1)
               * (- ((h2 - h0) / 2) / (2 * ((h2 + h0) / 2 - h1)))
               + (h2 - h0) / 2)
              * (- ((h2 - h0) / 2) / (2 * ((h2 + h0) / 2 - h1))) + h1);
       p_d :=
         Fin ((h2 - h0) / 2 * ((h2 - h0) / 2)
              - 4 * ((h2 + h0) / 2 - h1) * h1) |}.
Proof.
  intros Ha. unfold fit.
  cbn [Js.add Js.sub Js.neg].
  rewrite !JsFacts.div_fin by lra.
  cbn [Js.add Js.sub Js.neg Js.mul].
  replace ((h2 + h0) / 2 + - h1) with ((h2 + h0) / 2 - h1) in * by ring.
  replace ((h2 + - h0) / 2) with ((h2 - h0) / 2) by (unfold Rminus; reflexivity).
  rewrite JsFacts.div_fin by lra.
  cbn [Js.add Js.sub Js.neg Js.mul].
  f_equal; f_equal; unfold Rminus; ring.
Qed.

(** The roots counted for a finite parabola that is not degenerate. *)
Lemma count_roots_fin (a b xe ye d : R) :
  a <> 0 -> 0 <= d ->
  let dx := sqrt d / (Rabs a * 2) in
  count_roots {| p_a := Fin a; p_b := Fin b; p_xe := Fin xe;
                 p_ye := Fin ye; p_d := Fin d |}
  = {| roots :=
         (if Rle_dec (Rabs (xe - dx)) 1 then 1 else 0)
         + (if Rle_dec (Rabs (xe + dx)) 1 then 1 else 0);
       x1 := Fin (if Rlt_dec (xe - dx) (-1) then xe + dx else xe - dx);
       x2 := Fin (xe + dx) |}.
Proof.
  intros Ha Hd dx. unfold count_roots. cbn [p_d p_a p_xe Js.ge Js.le].
  replace (Js.Rleb 0 d) with true by (symmetry; now apply JsFacts.Rleb_true).
  rewrite JsFacts.sqrt_fin by assumption.
  cbn [Js.abs Js.mul].
  rewrite JsFacts.div_fin
    by (pose proof (Rabs_pos_lt a Ha); lra).
  fold dx. cbn [Js.sub Js.add Js.neg Js.abs Js.le Js.lt].
  replace (xe + - dx) with (xe - dx) by ring.
  unfold Js.Rleb, Js.Rltb.
  destruct (Rle_dec (Rabs (xe - dx)) 1), (Rle_dec (Rabs (xe + dx)) 1),
    (Rlt_dec (xe - dx) (-1)); reflexivity.
Qed.

(** Three samples on a line give a degenerate parabola: the divisions by
    zero leave no root to count. *)
Lemma count_roots_degenerate (h0 h1 h2 : R) :
  (h2 + h0) / 2 - h1 = 0 ->
  roots (count_roots (fit (Fin h0) (Fin h1) (Fin h2))) = 0%nat.
Proof.
  intros Ha. unfold fit.
  cbn [Js.add Js.sub Js.neg].
  rewrite !JsFacts.div_fin by lra.
  cbn [Js.add Js.sub Js.neg Js.mul].
  replace ((h2 + h0) / 2 + - h1) with 0 by lra.
  set (b := (h2 + - h0) / 2).
  replace (2 * 0) with 0 by ring. rewrite JsFacts.div_zero.
  replace (4 * 0) with 0 by ring.
  unfold count_roots. cbn [p_d p_a p_xe].
  cbn [Js.mul Js.add Js.sub Js.neg Js.abs].
  destruct (Js.ge (Fin (b * b + - (0 * h1))) (Fin 0)) eqn:Hge; [| reflexivity].
  replace (b * b + - (0 * h1)) with (b * b) by ring.
  rewrite JsFacts.sqrt_fin by nra.
  replace (Rabs 0 * 2) with 0 by (rewrite Rabs_R0; ring).
  rewrite JsFacts.div_zero.
  destruct (Rtotal_order b 0) as [Hb | [Hb | Hb]].
  - rewrite (JsFacts.signed_inf_pos (- b)) by lra.
    rewrite (JsFacts.signed_inf_pos (sqrt (b * b))) by (apply sqrt_lt_R0; nra).
    reflexivity.
  - rewrite Hb. replace (- 0) with 0 by ring.
    rewrite JsFacts.signed_inf_zero. reflexivity.
  - rewrite (JsFacts.signed_inf_neg (- b)) by lra.
    rewrite (JsFacts.signed_inf_pos (sqrt (b * b))) by (apply sqrt_lt_R0; nra).
    reflexivity.
Qed.

End SweepEval.

Module ClassificationClaims.
Import lunar Classification.

(** The segment with samples -0.375, -0.1875 and 0.25 is fitted by
    [(x - 1/2) (x + 3) / 8]: its only root in the segment is 1/2, where the
    elevation climbs through the threshold. *)
Lemma roots_of_example_segment :
  count_roots (fit (Fin (-0.375)) (Fin (-0.1875)) (Fin 0.25))
  = {| roots := 1; x1 := Fin 0.5; x2 := Fin 0.5 |}.
Proof.
  rewrite SweepEval.fit_fin by lra.
  replace ((0.25 + -0.375) / 2 - -0.1875) with 0.125 by lra.
  replace ((0.25 - -0.375) / 2) with 0.3125 by lra.
  replace (- (0.3125) / (2 * 0.125)) with (-1.25) by lra.
  replace (0.3125 * 0.3125 - 4 * 0.125 * -0.1875) with (0.4375 * 0.4375)
    by lra.
  rewrite SweepEval.count_roots_fin by lra. cbv zeta.
  rewrite sqrt_square by lra. rewrite (Rabs_pos_eq 0.125) by lra.
  replace (-1.25 - 0.4375 / (0.125 * 2)) with (-3) by lra.
  replace (-1.25 + 0.4375 / (0.125 * 2)) with 0.5 by lra.
  assert (H1 : ~ Rabs (-3) <= 1)
    by (unfold Rabs; destruct (Rcase_abs (-3)); lra).
  assert (H2 : Rabs 0.5 <= 1)
    by (unfold Rabs; destruct (Rcase_abs 0.5); lra).
  destruct (Rle_dec (Rabs (-3)) 1); [contradiction |].
  destruct (Rle_dec (Rabs 0.5) 1); [| contradiction].
  destruct (Rlt_dec (-3) (-1)); [reflexivity | lra].
Qed.


(** In every other state the loop body classifies as the specification
    words it.  In a segment with exactly one root in the domain the
    crossing is recorded as the rise when the sample at the segment start
    is negative and no rise is recorded yet, and as the set when that
    sample is not negative; in a segment with two roots the earlier root is
    the set and the later the rise when the vertex value is negative, and
    conversely otherwise; a rise or a set already recorded is never
    replaced; and the recorded root lies in the segment domain. *)
Lemma record_events_classification
    (i h0 : num) (p : Parabola) (moonrise moonset : num) :
  Js.lt h0 (Fin 0) && negb (Js.isNaN moonrise) && Js.isNaN moonset
    && (roots (count_roots p) =? 1)%nat = false ->
  record_events i h0 p (count_roots p) moonrise moonset
  = record_events_claimed i h0 p (count_roots p) moonrise moonset
  /\ (Js.isNaN moonrise = false ->
      fst (record_events i h0 p (count_roots p) moonrise moonset) = moonrise)
  /\ (Js.isNaN moonset = false ->
      snd (record_events i h0 p (count_roots p) moonrise moonset) = moonset)
  /\ match roots (count_roots p) with
     | 0%nat => True
     | 1%nat => exists x : R, x1 (count_roots p) = Fin x /\ -1 <= x <= 1
     | 2%nat =>
         exists a b : R,
           x1 (count_roots p) = Fin a /\ x2 (count_roots p) = Fin b
           /\ -1 <= a <= b /\ b <= 1
     | _ => False
     end.
Proof.
  intros Hcase.
  split; [| split; [| split]].
  - unfold record_events, record_events_claimed.
    destruct (roots (count_roots p)) as [| [| [| n]]]; try reflexivity.
    cbn [Nat.eqb] in Hcase.
    destruct (Js.lt h0 (Fin 0)), (Js.isNaN moonrise), (Js.isNaN moonset);
      cbn in Hcase |- *; try reflexivity; discriminate.
  - intros Hr. unfold record_events.
    destruct (roots (count_roots p)) as [| [| [| n]]]; try reflexivity;
      rewrite Hr; rewrite ?andb_false_r; cbn [fst].
    + destruct (Js.isNaN moonset); reflexivity.
    + reflexivity.
  - intros Hs. unfold record_events.
    destruct (roots (count_roots p)) as [| [| [| n]]]; try reflexivity;
      rewrite Hs; cbn [snd].
    + destruct (Js.lt h0 (Fin 0) && Js.isNaN moonrise); reflexivity.
    + reflexivity.
  - apply SweepFacts.count_roots_in_segment.
Qed.

End ClassificationClaims.

Module SweepInvariants.
Import lunar Classification.

Lemma loop_indices_range : Forall (fun i => (0 <= i <= 24)%Z) loop_indices.
Proof. unfold loop_indices; cbn. repeat constructor; lia. Qed.





Section WithInput.
Variable greenwich : R -> R.
Variables t lat lon : num.

(** The loop body in terms of its samples and roots. *)
Lemma segment_unfold (i : Z) (st : Sweep) :
  segment greenwich t lat lon i st
  = (let p := fit (h0 st) (segment_h1 greenwich t lat lon i st)
                  (segment_h2 greenwich t lat lon i) in
     let ev := record_events (Js.of_Z i) (h0 st) p (count_roots p)
                 (rise_h st) (set_h st) in
     ({| h0 := h0 st; h1 := segment_h1 greenwich t lat lon i st;
         rise_h := fst ev; set_h := snd ev |},
      segment_h2 greenwich t lat lon i)).
Proof.
  unfold segment, segment_h1, segment_h2. cbv zeta.
  destruct (record_events _ _ _ _ _ _); reflexivity.
Qed.


(** A rise is recorded only in a segment taken for a rise. *)
Lemma sweep_rise_unfound (indices : list Z) (st : Sweep) :
  rise_h st = NaN ->
  Forall (fun '(i, s) =>
            taken_as_rise (h0 s) (segment_roots greenwich t lat lon i s)
            = false)
         (visited greenwich t lat lon indices st) ->
  rise_h (sweep greenwich t lat lon indices st) = NaN.
Proof.
  revert st. induction indices as [| i rest IH]; intros st Hr Hall.
  - exact Hr.
  - cbn [sweep visited] in *. rewrite segment_unfold in *. cbv zeta in *.
    inversion Hall as [| ? ? Hhead Htail]; subst.
    assert (Hkeep :
      fst (record_events (Js.of_Z i) (h0 st)
             (fit (h0 st) (segment_h1 greenwich t lat lon i st)
                (segment_h2 greenwich t lat lon i))
             (count_roots
                (fit (h0 st) (segment_h1 greenwich t lat lon i st)
                   (segment_h2 greenwich t lat lon i)))
             (rise_h st) (set_h st)) = NaN).
    { unfold taken_as_rise, segment_roots in Hhead. unfold record_events.
      destruct (roots _) as [| [| [| n]]]; cbn [fst]; try assumption.
      - rewrite Hhead. cbn [andb]. destruct (Js.isNaN (set_h st)); assumption.
      - discriminate. }
    destruct (found_all _).
    + exact Hkeep.
    + apply IH; [exact Hkeep | exact Htail].
Qed.

(** A set is recorded only in a segment taken for a set. *)
Lemma sweep_set_unfound (indices : list Z) (st : Sweep) :
  set_h st = NaN ->
  Forall (fun '(i, s) =>
            taken_as_set (h0 s) (segment_roots greenwich t lat lon i s)
              (rise_h s) = false)
         (visited greenwich t lat lon indices st) ->
  set_h (sweep greenwich t lat lon indices st) = NaN.
Proof.
  revert st. induction indices as [| i rest IH]; intros st Hs Hall.
  - exact Hs.
  - cbn [sweep visited] in *. rewrite segment_unfold in *. cbv zeta in *.
    inversion Hall as [| ? ? Hhead Htail]; subst.
    assert (Hkeep :
      snd (record_events (Js.of_Z i) (h0 st)
             (fit (h0 st) (segment_h1 greenwich t lat lon i st)
                (segment_h2 greenwich t lat lon i))
             (count_roots
                (fit (h0 st) (segment_h1 greenwich t lat lon i st)
                   (segment_h2 greenwich t lat lon i)))
             (rise_h st) (set_h st)) = NaN).
    { unfold taken_as_set, segment_roots in Hhead. unfold record_events.
      destruct (roots _) as [| [| [| n]]]; cbn [snd]; try assumption.
      - apply negb_false_iff in Hhead. rewrite Hhead. assumption.
      - discriminate. }
    destruct (found_all _).
    + exact Hkeep.
    + apply IH; [exact Hkeep | exact Htail].
Qed.

End WithInput.

End SweepInvariants.

Module SweepResults.
Import lunar Classification.

Lemma _hours_later_NaN (t : num) : _hours_later t NaN = NaN.
Proof. destruct t; reflexivity. Qed.

Lemma julian_from_NaN : julian_from NaN = NaN.
Proof. reflexivity. Qed.

Lemma _rise_and_set_unfold (greenwich : R -> R) (t lat lon : num) :
  _rise_and_set greenwich t lat lon
  = let st := sweep greenwich t lat lon loop_indices
                (initial greenwich t lat lon) in
    {| moonrise := _hours_later t (rise_h st);
       moonset := _hours_later t (set_h st) |}.
Proof. reflexivity. Qed.


End SweepResults.

Module SweepClaims.
Import lunar Classification.

(** C9: for every timestamp, latitude and longitude the standalone rise
    query equals the [moonrise] field of [rise_and_set] and the standalone
    set query its [moonset] field, NaN results included: each field is the
    Julian conversion of the corresponding field of one [_rise_and_set]
    sweep. *)
Theorem rise_and_set_agrees (greenwich : R -> R) (ms lat lon : num) :
  rise greenwich ms lat lon = moonrise (rise_and_set greenwich ms lat lon)
  /\ set greenwich ms lat lon = moonset (rise_and_set greenwich ms lat lon)
  /\ rise_and_set greenwich ms lat lon
     = (let x := _rise_and_set greenwich (julian_to ms)
                   (lat * RAD)%js (lon * RAD)%js in
        {| moonrise := julian_from (moonrise x);
           moonset := julian_from (moonset x) |}).
Proof. repeat split. Qed.

(** C5: if no segment visited by the sweep is taken for a rise, the rise
    output is NaN; if none is taken for a set, the set output is NaN.  A
    segment is taken for a rise when it has two roots in its domain, or
    one and a negative sample at its start; for a set when it has two
    roots, or one that the loop body does not record as the rise. *)
Theorem undefined_when_not_found (greenwich : R -> R) (ms lat lon : num) :
  let t := julian_to ms in
  let la := (lat * RAD)%js in
  let lo := (lon * RAD)%js in
  let trace :=
    visited greenwich t la lo loop_indices (initial greenwich t la lo) in
  (Forall (fun '(i, s) =>
             taken_as_rise (h0 s) (segment_roots greenwich t la lo i s)
             = false) trace ->
   rise greenwich ms lat lon = NaN)
  /\ (Forall (fun '(i, s) =>
                taken_as_set (h0 s) (segment_roots greenwich t la lo i s)
                  (rise_h s) = false) trace ->
      set greenwich ms lat lon = NaN).
Proof.
  intros t la lo trace. split; intros Hall.
  - unfold rise. fold t la lo. rewrite SweepResults._rise_and_set_unfold.
    cbv zeta. cbn [moonrise].
    rewrite (SweepInvariants.sweep_rise_unfound greenwich t la lo
               loop_indices (initial greenwich t la lo) eq_refl Hall).
    now rewrite SweepResults._hours_later_NaN.
  - unfold set. fold t la lo. rewrite SweepResults._rise_and_set_unfold.
    cbv zeta. cbn [moonset].
    rewrite (SweepInvariants.sweep_set_unfound greenwich t la lo
               loop_indices (initial greenwich t la lo) eq_refl Hall).
    now rewrite SweepResults._hours_later_NaN.
Qed.

End SweepClaims.

(** ** A set that goes unrecorded *)

Module LostSet.
Import lunar Classification.

(** The first segment, with samples -0.1875, -0.1875 and 0.3125, is fitted
    by [(x - 1/2) (x + 3/2) / 4]: its only root in the segment is 1/2. *)
Lemma roots_of_first_segment :
  count_roots (fit (Fin (-0.1875)) (Fin (-0.1875)) (Fin 0.3125))
  = {| roots := 1; x1 := Fin 0.5; x2 := Fin 0.5 |}.
Proof.
  rewrite SweepEval.fit_fin by lra.
  replace ((0.3125 + -0.1875) / 2 - -0.1875) with 0.25 by lra.
  replace ((0.3125 - -0.1875) / 2) with 0.25 by lra.
  replace (- (0.25) / (2 * 0.25)) with (-0.5) by lra.
  replace (0.25 * 0.25 - 4 * 0.25 * -0.1875) with (0.5 * 0.5) by lra.
  rewrite SweepEval.count_roots_fin by lra. cbv zeta.
  rewrite sqrt_square by lra. rewrite (Rabs_pos_eq 0.25) by lra.
  replace (-0.5 - 0.5 / (0.25 * 2)) with (-1.5) by lra.
  replace (-0.5 + 0.5 / (0.25 * 2)) with 0.5 by lra.
  assert (H1 : ~ Rabs (-1.5) <= 1)
    by (unfold Rabs; destruct (Rcase_abs (-1.5)); lra).
  assert (H2 : Rabs 0.5 <= 1)
    by (unfold Rabs; destruct (Rcase_abs 0.5); lra).
  destruct (Rle_dec (Rabs (-1.5)) 1); [contradiction |].
  destruct (Rle_dec (Rabs 0.5) 1); [| contradiction].
  destruct (Rlt_dec (-1.5) (-1)); [reflexivity | lra].
Qed.

(** The samples 0.3125, 0 and -0.3125 lie on a line that crosses the
    threshold downwards in the middle of the segment: no root is counted. *)
Lemma roots_of_collinear_segment :
  roots (count_roots (fit (Fin 0.3125) (Fin 0) (Fin (-0.3125)))) = 0%nat.
Proof. apply SweepEval.count_roots_degenerate. lra. Qed.

(** The samples -0.3125, -0.25 and -0.375 stay below the threshold: the
    discriminant is negative. *)
Lemma roots_of_low_segment :
  roots (count_roots (fit (Fin (-0.3125)) (Fin (-0.25)) (Fin (-0.375))))
  = 0%nat.
Proof.
  rewrite SweepEval.fit_fin by lra.
  unfold count_roots. cbn [p_d Js.ge Js.le].
  match goal with
  | |- context [Js.Rleb 0 ?d] =>
      replace (Js.Rleb 0 d) with false; [reflexivity |];
      symmetry; apply JsFacts.Rleb_false; lra
  end.
Qed.

Section Samples.
Variable greenwich : R -> R.
Variable t : R.
Variables lat lon : num.

(** The elevation above the threshold at [t] and at the seven hours that
    follow, taken as given: the table shows how the loop comes to the state
    in which it stores a rise as the set; it is not derived from an instant
    and a place. *)
Let sample (k : Z) : num :=
  (_elevation greenwich (_hours_later (Fin t) (Js.of_Z k)) lat lon
   - - PARALLAX)%js.

Hypothesis sample_0 :
  (_elevation greenwich (Fin t) lat lon - - PARALLAX)%js = Fin (-0.1875).
Hypothesis sample_1 : sample 1 = Fin 0.3125.
Hypothesis sample_2 : sample 2 = Fin 0.
Hypothesis sample_3 : sample 3 = Fin (-0.3125).
Hypothesis sample_4 : sample 4 = Fin (-0.25).
Hypothesis sample_5 : sample 5 = Fin (-0.375).
Hypothesis sample_6 : sample 6 = Fin (-0.1875).
Hypothesis sample_7 : sample 7 = Fin 0.25.

(** The Moon rises half an hour after [t], sets at hour 2 and rises again
    at hour 6.5.  The set is not recorded, the samples around it being
    collinear, and the second rise is returned as the set. *)
Lemma second_rise_returned_as_set :
  _rise_and_set greenwich (Fin t) lat lon
  = {| moonrise := Fin (t + (0 + 0.5) / 24);
       moonset := Fin (t + (6 + 0.5) / 24) |}.
Proof.
  unfold sample in *.
  rewrite SweepResults._rise_and_set_unfold. cbv zeta.
  change loop_indices
    with (0%Z :: map (fun k => (2 * Z.of_nat k)%Z) (List.seq 1 12)).
  cbn [sweep].
  rewrite SweepInvariants.segment_unfold. cbv zeta.
  unfold segment_h1, segment_h2, initial. cbn [h0 h1 rise_h set_h Z.eqb].
  change (0 + 1)%Z with 1%Z.
  rewrite sample_0, sample_1, roots_of_first_segment.
  unfold record_events. cbn [roots x1 x2 Js.isNaN Js.lt].
  replace (Js.Rltb (-0.1875) 0) with true
    by (symmetry; apply JsFacts.Rltb_true; lra).
  cbn [andb fst snd Js.of_Z Js.add].
  unfold found_all. cbn [rise_h set_h Js.lt andb].
  rewrite andb_false_r.
  change (map (fun k => (2 * Z.of_nat k)%Z) (List.seq 1 12))
    with (2%Z :: map (fun k => (2 * Z.of_nat k)%Z) (List.seq 2 11)).
  cbn [sweep].
  rewrite SweepInvariants.segment_unfold. cbv zeta.
  unfold segment_h1, segment_h2. cbn [h0 h1 rise_h set_h Z.eqb].
  change (2 + 1)%Z with 3%Z.
  rewrite sample_2, sample_3.
  unfold record_events. rewrite roots_of_collinear_segment.
  cbn [fst snd].
  unfold found_all. cbn [rise_h set_h Js.lt andb].
  rewrite andb_false_r.
  change (map (fun k => (2 * Z.of_nat k)%Z) (List.seq 2 11))
    with (4%Z :: map (fun k => (2 * Z.of_nat k)%Z) (List.seq 3 10)).
  cbn [sweep].
  rewrite SweepInvariants.segment_unfold. cbv zeta.
  unfold segment_h1, segment_h2. cbn [h0 h1 rise_h set_h Z.eqb].
  change (4 + 1)%Z with 5%Z.
  rewrite sample_4, sample_5.
  unfold record_events. rewrite roots_of_low_segment.
  cbn [fst snd].
  unfold found_all. cbn [rise_h set_h Js.lt andb].
  rewrite andb_false_r.
  change (map (fun k => (2 * Z.of_nat k)%Z) (List.seq 3 10))
    with (6%Z :: map (fun k => (2 * Z.of_nat k)%Z) (List.seq 4 9)).
  cbn [sweep].
  rewrite SweepInvariants.segment_unfold. cbv zeta.
  unfold segment_h1, segment_h2. cbn [h0 h1 rise_h set_h Z.eqb].
  change (6 + 1)%Z with 7%Z.
  rewrite sample_6, sample_7, ClassificationClaims.roots_of_example_segment.
  unfold record_events. cbn [roots x1 x2 Js.isNaN Js.lt].
  replace (Js.Rltb (-0.375) 0) with true
    by (symmetry; apply JsFacts.Rltb_true; lra).
  cbn [andb fst snd Js.of_Z Js.add].
  unfold found_all. cbn [rise_h set_h Js.lt].
  replace (Js.Rltb (0 + 0.5) 24) with true
    by (symmetry; apply JsFacts.Rltb_true; lra).
  replace (Js.Rltb (6 + 0.5) 24) with true
    by (symmetry; apply JsFacts.Rltb_true; lra).
  cbn [andb rise_h set_h].
  rewrite !TransitFacts._hours_later_fin. reflexivity.
Qed.

End Samples.

End LostSet.

(** ** Enclosures of the sine and the cosine *)

Module Trig.

Lemma PI_bounds : 3.1415926 < PI < 3.1415927.
Proof.
  pose proof (PI_2_3_7_ineq 4) as H.
  unfold sum_f_R0, tg_alt, PI_2_3_7_tg, Ratan_seq in H.
  simpl in H. lra.
Qed.

Lemma rad_bounds : 0.01745329 < rad < 0.0174533.
Proof. unfold rad. pose proof PI_bounds. lra. Qed.

Lemma sin_taylor (u : R) : 0 <= u <= 4 -> sin_lo u <= sin u <= sin_hi u.
Proof.
  intros [H1 H2]. pose proof (pre_sin_bound u 1 H1 H2) as H.
  change (2 * 1 + 1)%nat with 3%nat in H.
  change (2 * (1 + 1))%nat with 4%nat in H.
  unfold sin_approx, sin_term, sum_f_R0 in H.
  change (2 * 0 + 1)%nat with 1%nat in H.
  change (2 * 1 + 1)%nat with 3%nat in H.
  change (2 * 2 + 1)%nat with 5%nat in H.
  change (2 * 3 + 1)%nat with 7%nat in H.
  change (2 * 4 + 1)%nat with 9%nat in H.
  rewrite !INR_IZR_INZ in H.
  change (Z.of_nat (fact 1)) with 1%Z in H.
  change (Z.of_nat (fact 3)) with 6%Z in H.
  change (Z.of_nat (fact 5)) with 120%Z in H.
  change (Z.of_nat (fact 7)) with 5040%Z in H.
  replace (Z.of_nat (fact 9)) with 362880%Z in H by (vm_compute; reflexivity).
  unfold sin_hi, sin_lo. simpl pow in *. lra.
Qed.

Lemma cos_taylor (u : R) : -2 <= u <= 2 -> cos_lo u <= cos u <= cos_hi u.
Proof.
  intros [H1 H2]. pose proof (pre_cos_bound u 1 H1 H2) as H.
  change (2 * 1 + 1)%nat with 3%nat in H.
  change (2 * (1 + 1))%nat with 4%nat in H.
  unfold cos_approx, cos_term, sum_f_R0 in H.
  change (2 * 0)%nat with 0%nat in H.
  change (2 * 1)%nat with 2%nat in H.
  change (2 * 2)%nat with 4%nat in H.
  change (2 * 3)%nat with 6%nat in H.
  change (2 * 4)%nat with 8%nat in H.
  rewrite !INR_IZR_INZ in H.
  change (Z.of_nat (fact 0)) with 1%Z in H.
  change (Z.of_nat (fact 2)) with 2%Z in H.
  change (Z.of_nat (fact 4)) with 24%Z in H.
  change (Z.of_nat (fact 6)) with 720%Z in H.
  replace (Z.of_nat (fact 8)) with 40320%Z in H by (vm_compute; reflexivity).
  unfold cos_hi, cos_lo. simpl pow in *. lra.
Qed.

(** On the first quadrant the sine is enclosed by its Taylor polynomials at
    the ends of an interval that holds the argument. *)
Lemma sin_enclosure (a lo hi : R) :
  0 <= lo -> lo <= a <= hi -> hi <= 3 / 2 ->
  sin_lo lo <= sin a <= sin_hi hi.
Proof.
  intros Hlo [Ha1 Ha2] Hhi. pose proof PI_bounds as [Hp1 Hp2].
  pose proof (sin_taylor lo ltac:(lra)) as [Hl _].
  pose proof (sin_taylor hi ltac:(lra)) as [_ Hh].
  assert (H1 : sin lo <= sin a) by (apply sin_incr_1; lra).
  assert (H2 : sin a <= sin hi) by (apply sin_incr_1; lra).
  lra.
Qed.

Lemma cos_enclosure (a lo hi : R) :
  0 <= lo -> lo <= a <= hi -> hi <= 2 ->
  cos_lo hi <= cos a <= cos_hi lo.
Proof.
  intros Hlo [Ha1 Ha2] Hhi. pose proof PI_bounds as [Hp1 Hp2].
  pose proof (cos_taylor lo ltac:(lra)) as [_ Hl].
  pose proof (cos_taylor hi ltac:(lra)) as [Hh _].
  assert (H1 : cos a <= cos lo) by (apply cos_decr_1; lra).
  assert (H2 : cos hi <= cos a) by (apply cos_decr_1; lra).
  lra.
Qed.

Lemma asin_lower (s c : R) :
  -1 <= s <= 1 -> - (3 / 2) <= c <= 3 / 2 -> sin c <= s -> c <= asin s.
Proof.
  intros Hs Hc H. pose proof PI_bounds as [Hp1 Hp2].
  pose proof (asin_bound s) as [Hb1 Hb2].
  apply sin_incr_0; try lra. now rewrite sin_asin.
Qed.

Lemma asin_upper (s c : R) :
  -1 <= s <= 1 -> - (3 / 2) <= c <= 3 / 2 -> s <= sin c -> asin s <= c.
Proof.
  intros Hs Hc H. pose proof PI_bounds as [Hp1 Hp2].
  pose proof (asin_bound s) as [Hb1 Hb2].
  apply sin_incr_0; try lra. now rewrite sin_asin.
Qed.

Lemma sin_three_halves_PI_plus (y : R) : sin (3 * (PI / 2) + y) = - cos y.
Proof. rewrite sin_plus, sin_3PI2, cos_3PI2. ring. Qed.

Lemma sin_two_PI_plus (y : R) : sin (2 * PI + y) = sin y.
Proof. rewrite sin_plus, sin_2PI, cos_2PI. ring. Qed.

Lemma sin_five_halves_PI_plus (y : R) : sin (5 * (PI / 2) + y) = cos y.
Proof.
  replace (5 * (PI / 2) + y) with (2 * PI + (PI / 2 + y)) by field.
  rewrite sin_two_PI_plus. symmetry. apply cos_sin.
Qed.

(** The sine of the declination is a cosine of an angle between two unit
    vectors. *)
Lemma unit_combination (sb cb se ce sl : R) :
  sb * sb + cb * cb = 1 -> se * se + ce * ce = 1 -> -1 <= sl <= 1 ->
  -1 <= sb * ce + cb * se * sl <= 1.
Proof.
  intros Hb He Hl.
  assert (Hsq : (sb * ce + cb * se * sl) * (sb * ce + cb * se * sl) <= 1).
  { assert (H1 : (sb * ce + cb * se * sl) * (sb * ce + cb * se * sl)
                 + (sb * se * sl - cb * ce) * (sb * se * sl - cb * ce)
                 = (sb * sb + cb * cb) * (ce * ce + se * se * (sl * sl)))
      by ring.
    assert (Hl2 : sl * sl <= 1) by nra.
    assert (H2 : se * se * (sl * sl) <= se * se * 1)
      by (apply Rmult_le_compat_l; [nra | exact Hl2]).
    assert (H3 : 0 <= (sb * se * sl - cb * ce) * (sb * se * sl - cb * ce))
      by apply Rle_0_sqr.
    rewrite Hb in H1. lra. }
  split; nra.
Qed.

End Trig.

(** ** Elevation *)

Module ElevationFacts.
Import lunar.

Lemma sin_cos_unit (x : R) : sin x * sin x + cos x * cos x = 1.
Proof. pose proof (sin2_cos2 x) as H. unfold Rsqr in H. exact H. Qed.

Lemma Rsin_declination_range (t : R) : -1 <= Rsin_declination t <= 1.
Proof.
  unfold Rsin_declination.
  apply Trig.unit_combination.
  - apply sin_cos_unit.
  - apply sin_cos_unit.
  - apply SIN_bound.
Qed.

(** The declination of a finite instant is finite. *)
Lemma _declination_fin (t : R) :
  _declination (Fin t) = Fin (asin (Rsin_declination t)).
Proof.
  unfold _declination, _declination_direct.
  rewrite PositionFacts._latitude_fin, PositionFacts._longitude_fin,
    PositionFacts._obliquity_fin.
  cbn [Js.sin Js.cos Js.mul Js.add].
  apply JsFacts.asin_fin. apply Rsin_declination_range.
Qed.

Section WithSidereal.
Variable greenwich : R -> R.

Lemma _hour_angle_finite (t lon : R) :
  exists ha : R, _hour_angle greenwich (Fin t) (Fin lon) = Fin ha.
Proof.
  destruct (PositionFacts._right_ascension_finite t) as [ra Hra].
  eexists. apply (TransitFacts._hour_angle_fin greenwich t lon ra Hra).
Qed.

(** The elevation of a finite instant seen from a finite place is finite. *)
Lemma _elevation_fin (t lat lon : R) :
  exists ha : R,
    _elevation greenwich (Fin t) (Fin lat) (Fin lon)
    = Fin (asin (sin lat * sin (asin (Rsin_declination t))
                 + cos lat * cos (asin (Rsin_declination t)) * cos ha)).
Proof.
  destruct (_hour_angle_finite t lon) as [ha Hha].
  exists ha. unfold _elevation. rewrite _declination_fin, Hha.
  cbn [Js.sin Js.cos Js.mul Js.add].
  apply JsFacts.asin_fin.
  apply Trig.unit_combination.
  - apply sin_cos_unit.
  - rewrite Rplus_comm. apply sin_cos_unit.
  - apply COS_bound.
Qed.

(** At the pole the elevation is the declination, whatever the sidereal
    time. *)
Lemma _elevation_pole (t lon : R) :
  _elevation greenwich (Fin t) (Fin (90 * rad)) (Fin lon)
  = Fin (asin (Rsin_declination t)).
Proof.
  destruct (_elevation_fin t (90 * rad) lon) as [ha ->].
  replace (90 * rad) with (PI / 2) by (unfold rad; field).
  rewrite sin_PI2, cos_PI2.
  rewrite sin_asin by apply Rsin_declination_range.
  f_equal. f_equal. ring.
Qed.

End WithSidereal.

End ElevationFacts.

(** ** Sweeps that meet no crossing *)

Module SweepHigh.
Import lunar Classification.

(** The parabola through three samples that all lie between [m] and [M],
    with [M < 9 m], is positive on the whole segment. *)
Lemma parabola_positive (m M h0 h1 h2 x : R) :
  0 < m -> M < 9 * m ->
  m <= h0 <= M -> m <= h1 <= M -> m <= h2 <= M ->
  -1 <= x <= 1 ->
  0 < ((h2 + h0) / 2 - h1) * (x * x) + (h2 - h0) / 2 * x + h1.
Proof.
  intros Hm HM H0 H1 H2 Hx.
  replace (((h2 + h0) / 2 - h1) * (x * x) + (h2 - h0) / 2 * x + h1)
    with (h0 * (x * (x - 1) / 2) + h1 * (1 - x * x) + h2 * (x * (x + 1) / 2))
    by (unfold Rdiv; ring).
  destruct (Rle_dec 0 x) as [Hpos | Hneg].
  - assert (A : -1 / 8 <= x * (x - 1) / 2 <= 0)
      by (pose proof (Rle_0_sqr (2 * x - 1)) as Hsq; unfold Rsqr in Hsq;
          split; nra).
    assert (B : 0 <= 1 - x * x) by nra.
    assert (C : 0 <= x * (x + 1) / 2) by nra.
    assert (D : h0 * (x * (x - 1) / 2) >= M * (x * (x - 1) / 2)) by nra.
    assert (E : h1 * (1 - x * x) >= m * (1 - x * x)) by nra.
    assert (F : h2 * (x * (x + 1) / 2) >= m * (x * (x + 1) / 2)) by nra.
    nra.
  - assert (A : -1 / 8 <= x * (x + 1) / 2 <= 0)
      by (pose proof (Rle_0_sqr (2 * x + 1)) as Hsq; unfold Rsqr in Hsq;
          split; nra).
    assert (B : 0 <= 1 - x * x) by nra.
    assert (C : 0 <= x * (x - 1) / 2) by nra.
    assert (D : h2 * (x * (x + 1) / 2) >= M * (x * (x + 1) / 2)) by nra.
    assert (E : h1 * (1 - x * x) >= m * (1 - x * x)) by nra.
    assert (F : h0 * (x * (x - 1) / 2) >= m * (x * (x - 1) / 2)) by nra.
    nra.
Qed.

(** What [count_roots] computes are the roots of the parabola. *)
Lemma quadratic_root (a b c s : R) :
  a <> 0 -> 0 <= b * b - 4 * a * c -> s = 1 \/ s = -1 ->
  let x := - b / (2 * a) + s * (sqrt (b * b - 4 * a * c) / (Rabs a * 2)) in
  a * (x * x) + b * x + c = 0.
Proof.
  intros Ha Hd Hs x.
  assert (Hsq : sqrt (b * b - 4 * a * c) * sqrt (b * b - 4 * a * c)
                = b * b - 4 * a * c) by (apply sqrt_sqrt; assumption).
  set (q := sqrt (b * b - 4 * a * c)) in *.
  assert (Habs : Rabs a * Rabs a = a * a)
    by (unfold Rabs; destruct (Rcase_abs a); ring).
  assert (Hne : Rabs a <> 0) by (apply Rabs_no_R0; assumption).
  assert (Hx : (2 * a * x + b) * (2 * a * x + b) = q * q).
  { unfold x.
    replace (2 * a * (- b / (2 * a) + s * (q / (Rabs a * 2))) + b)
      with (s * q * (a / Rabs a)) by (field; split; assumption).
    replace (s * q * (a / Rabs a) * (s * q * (a / Rabs a)))
      with ((s * s) * (q * q) * ((a * a) / (Rabs a * Rabs a)))
      by (field; assumption).
    rewrite Habs. replace (s * s) with 1 by (destruct Hs; subst; ring).
    field. assumption. }
  assert (H4 : 4 * a * (a * (x * x) + b * x + c) = 0)
    by (rewrite Hsq in Hx; nra).
  apply Rmult_integral in H4. destruct H4 as [H4 | H4]; [lra | exact H4].
Qed.

(** Three samples well above the threshold give a segment without roots. *)
Lemma roots_zero_high (m M h0 h1 h2 : R) :
  0 < m -> M < 9 * m ->
  m <= h0 <= M -> m <= h1 <= M -> m <= h2 <= M ->
  roots (count_roots (fit (Fin h0) (Fin h1) (Fin h2))) = 0%nat.
Proof.
  intros Hm HM H0 H1 H2.
  destruct (Req_dec_T ((h2 + h0) / 2 - h1) 0) as [Ha | Ha].
  - now apply SweepEval.count_roots_degenerate.
  - rewrite SweepEval.fit_fin by assumption.
    set (a := (h2 + h0) / 2 - h1) in *. set (b := (h2 - h0) / 2).
    destruct (Rle_dec 0 (b * b - 4 * a * h1)) as [Hd | Hd].
    + rewrite SweepEval.count_roots_fin by assumption. cbv zeta. cbn [roots].
      assert (Hout : forall s, s = 1 \/ s = -1 ->
                ~ Rabs (- b / (2 * a)
                        + s * (sqrt (b * b - 4 * a * h1) / (Rabs a * 2))) <= 1).
      { intros s Hs Hin.
        pose proof (quadratic_root a b h1 s Ha Hd Hs) as Hroot. cbv zeta in Hroot.
        set (x := - b / (2 * a)
                  + s * (sqrt (b * b - 4 * a * h1) / (Rabs a * 2))) in *.
        assert (Hx : -1 <= x <= 1)
          by (unfold Rabs in Hin; destruct (Rcase_abs x); lra).
        pose proof (parabola_positive m M h0 h1 h2 x Hm HM H0 H1 H2 Hx) as Hpos.
        fold a b in Hpos. lra. }
      destruct (Rle_dec _ 1) as [Hin | _].
      * exfalso. apply (Hout (-1)); [now right |].
        replace (- b / (2 * a)
                 + -1 * (sqrt (b * b - 4 * a * h1) / (Rabs a * 2)))
          with (- b / (2 * a) - sqrt (b * b - 4 * a * h1) / (Rabs a * 2))
          by ring.
        exact Hin.
      * destruct (Rle_dec _ 1) as [Hin | _]; [| reflexivity].
        exfalso. apply (Hout 1); [now left |].
        replace (- b / (2 * a)
                 + 1 * (sqrt (b * b - 4 * a * h1) / (Rabs a * 2)))
          with (- b / (2 * a) + sqrt (b * b - 4 * a * h1) / (Rabs a * 2))
          by ring.
        exact Hin.
    + unfold count_roots. cbn [p_d Js.ge Js.le].
      replace (Js.Rleb 0 (b * b - 4 * a * h1)) with false; [reflexivity |].
      symmetry. apply JsFacts.Rleb_false. lra.
Qed.

Section AllHigh.
Variable greenwich : R -> R.
Variables t lat lon : num.
Variables m M : R.
Hypothesis m_pos : 0 < m.
Hypothesis M_below : M < 9 * m.

Let sample (k : Z) : num :=
  (_elevation greenwich (_hours_later t (Js.of_Z k)) lat lon - - PARALLAX)%js.

Let high (v : num) : Prop := exists h : R, v = Fin h /\ m <= h <= M.

Hypothesis samples_high : forall k : Z, (0 <= k <= 25)%Z -> high (sample k).

Lemma visited_no_roots (indices : list Z) (st : Sweep) :
  Forall (fun i => (0 <= i <= 24)%Z) indices ->
  high (h0 st) -> high (h1 st) ->
  Forall (fun '(i, s) =>
            roots (segment_roots greenwich t lat lon i s) = 0%nat)
         (visited greenwich t lat lon indices st).
Proof.
  intros Hall. revert st.
  induction Hall as [| i rest Hi Hrest IH]; intros st H0 H1; cbn [visited].
  - constructor.
  - rewrite SweepInvariants.segment_unfold. cbv zeta.
    assert (Hh1 : high (segment_h1 greenwich t lat lon i st)).
    { unfold segment_h1. destruct (i =? 0)%Z; [exact H1 |].
      apply (samples_high i). lia. }
    assert (Hh2 : high (segment_h2 greenwich t lat lon i))
      by (apply (samples_high (i + 1)); lia).
    constructor.
    + unfold segment_roots.
      destruct H0 as (a & -> & Ha), Hh1 as (b & -> & Hb), Hh2 as (c & -> & Hc).
      now apply (roots_zero_high m M).
    + destruct (found_all _); [constructor |].
      apply IH; cbn [h0 h1]; assumption.
Qed.

(** With every sample high, the sweep ends with the rise and the set
    unresolved. *)
Lemma sweep_all_high :
  high (_elevation greenwich t lat lon - - PARALLAX)%js ->
  let st := sweep greenwich t lat lon loop_indices
              (initial greenwich t lat lon) in
  rise_h st = NaN /\ set_h st = NaN.
Proof.
  intros Hinit.
  pose proof (visited_no_roots loop_indices (initial greenwich t lat lon)
                SweepInvariants.loop_indices_range Hinit Hinit) as Hno.
  split.
  - apply SweepInvariants.sweep_rise_unfound; [reflexivity |].
    eapply Forall_impl; [| exact Hno].
    intros [i s] Hr. unfold taken_as_rise. now rewrite Hr.
  - apply SweepInvariants.sweep_set_unfound; [reflexivity |].
    eapply Forall_impl; [| exact Hno].
    intros [i s] Hr. unfold taken_as_set. now rewrite Hr.
Qed.

End AllHigh.

End SweepHigh.

(** ** The Moon seen from the pole *)

Module Polar.
Import lunar Classification.

Lemma cos_abs_enclosure (u hi : R) :
  - hi <= u <= hi -> hi <= 2 -> cos_lo hi <= cos u <= 1.
Proof.
  intros Hu Hhi. split; [| apply COS_bound].
  destruct (Rle_dec 0 u) as [Hpos | Hneg].
  - apply (Trig.cos_enclosure u 0 hi); lra.
  - rewrite <- cos_neg. apply (Trig.cos_enclosure (- u) 0 hi); lra.
Qed.

Lemma sin_abs_bound (u hi : R) :
  - hi <= u <= hi -> hi <= 3 / 2 -> - sin_hi hi <= sin u <= sin_hi hi.
Proof.
  intros Hu Hhi.
  destruct (Rle_dec 0 u) as [Hpos | Hneg].
  - pose proof (Trig.sin_enclosure u 0 hi (Rle_refl 0) ltac:(lra) Hhi) as [H1 H2].
    unfold sin_lo in H1. simpl pow in H1. lra.
  - pose proof (Trig.sin_enclosure (- u) 0 hi (Rle_refl 0) ltac:(lra) Hhi)
      as [H1 H2].
    rewrite sin_neg in H1, H2. unfold sin_lo in H1. simpl pow in H1. lra.
Qed.

Lemma longitude_near_solstice (t : R) :
  16.8 <= t <= 18.35 ->
  exists u : R, Rlongitude t = 5 * (PI / 2) + u /\ -0.3 <= u <= 0.3.
Proof.
  intros [Ht1 Ht2]. pose proof Trig.rad_bounds as [Hr1 Hr2].
  exists (Rlongitude t - 5 * (PI / 2)). split; [ring |].
  replace (5 * (PI / 2)) with (450 * rad) by (unfold rad; field).
  unfold Rlongitude.
  pose proof (SIN_bound (Rmean_anomaly t)) as [Hs1 Hs2].
  set (s := sin (Rmean_anomaly t)) in *.
  assert (Hrt : 0.2932 <= rad * t <= 0.3203) by nra.
  assert (Hrs : -0.0174533 <= rad * s <= 0.0174533) by nra.
  split; lra.
Qed.

(** Around the northern lunistice the declination stays between 0.28 and
    0.52 radians for more than a day and a half. *)
Lemma declination_high (t : R) :
  16.8 <= t <= 18.35 -> 0.28 <= asin (Rsin_declination t) <= 0.52.
Proof.
  intros Ht. pose proof Ht as [Ht1 Ht2].
  pose proof Trig.rad_bounds as [Hr1 Hr2].
  assert (He : 0.409 <= Robliquity t <= 0.4091).
  { unfold Robliquity. assert (Hrt : 0 <= rad * t <= 1) by nra. lra. }
  assert (Hb : -0.0896 <= Rlatitude t <= 0.0896).
  { unfold Rlatitude.
    pose proof (SIN_bound (Rmean_distance t)) as [Hs1 Hs2].
    set (s := sin (Rmean_distance t)) in *.
    assert (Hrs : -0.0174533 <= rad * s <= 0.0174533) by nra. lra. }
  destruct (longitude_near_solstice t Ht) as (u & Hlam & Hu).
  pose proof (Rsin_declination_bounds := ElevationFacts.Rsin_declination_range t).
  unfold Rsin_declination in *. rewrite Hlam, Trig.sin_five_halves_PI_plus in *.
  pose proof (cos_abs_enclosure u 0.3 ltac:(lra) ltac:(lra)) as [Hcu1 Hcu2].
  pose proof (cos_abs_enclosure (Rlatitude t) 0.0896 ltac:(lra) ltac:(lra))
    as [Hcb1 Hcb2].
  pose proof (sin_abs_bound (Rlatitude t) 0.0896 ltac:(lra) ltac:(lra))
    as [Hsb1 Hsb2].
  pose proof (Trig.sin_enclosure (Robliquity t) 0.409 0.4091
                ltac:(lra) He ltac:(lra)) as [Hse1 Hse2].
  pose proof (COS_bound (Robliquity t)) as [Hce1 Hce2].
  unfold cos_lo, sin_lo, sin_hi, sin_lo in *. simpl pow in *.
  set (sb := sin (Rlatitude t)) in *. set (cb := cos (Rlatitude t)) in *.
  set (se := sin (Robliquity t)) in *. set (ce := cos (Robliquity t)) in *.
  set (cu := cos u) in *.
  assert (Hcb : 0.9959 <= cb) by lra.
  assert (Hse : 0.3976 <= se <= 0.3979) by lra.
  assert (Hcu : 0.9553 <= cu) by lra.
  assert (Hsb : -0.0896 <= sb <= 0.0896) by lra.
  assert (H1 : -0.0896 <= sb * ce <= 0.0896) by nra.
  assert (H2 : 0.3959 <= cb * se <= 0.3979) by nra.
  assert (H3 : 0.3782 <= cb * se * cu <= 0.3979) by nra.
  split.
  - apply Trig.asin_lower; [assumption | lra |].
    pose proof (Trig.sin_taylor 0.28 ltac:(lra)) as [_ Hs].
    unfold sin_hi, sin_lo in Hs. simpl pow in Hs. lra.
  - apply Trig.asin_upper; [assumption | lra |].
    pose proof (Trig.sin_taylor 0.52 ltac:(lra)) as [Hs _].
    unfold sin_lo in Hs. simpl pow in Hs. lra.
Qed.

Section PolarDay.
Variable greenwich : R -> R.
Variables t lon : R.
Hypothesis t_window : 16.8 <= t <= 17.3.

Lemma polar_sample_high (t' : R) :
  16.8 <= t' <= 18.35 ->
  exists h : R,
    (_elevation greenwich (Fin t') (Fin (90 * rad)) (Fin lon) - - PARALLAX)%js
    = Fin h /\ 0.28 <= h <= 0.53.
Proof.
  intros Ht'. rewrite ElevationFacts._elevation_pole.
  pose proof (declination_high t' Ht') as [H1 H2].
  eexists. split; [reflexivity |]. lra.
Qed.

Lemma polar_samples_high (k : Z) :
  (0 <= k <= 25)%Z ->
  exists h : R,
    (_elevation greenwich (_hours_later (Fin t) (Js.of_Z k))
       (Fin (90 * rad)) (Fin lon) - - PARALLAX)%js
    = Fin h /\ 0.28 <= h <= 0.53.
Proof.
  intros [Hk1 Hk2]. unfold Js.of_Z. rewrite TransitFacts._hours_later_fin.
  apply polar_sample_high.
  apply IZR_le in Hk1, Hk2. lra.
Qed.

(** No segment of the sweep has a root in its domain. *)
Lemma polar_visited_no_roots :
  Forall (fun '(i, s) =>
            roots (segment_roots greenwich (Fin t) (Fin (90 * rad)) (Fin lon)
                     i s) = 0%nat)
         (visited greenwich (Fin t) (Fin (90 * rad)) (Fin lon) loop_indices
            (initial greenwich (Fin t) (Fin (90 * rad)) (Fin lon))).
Proof.
  apply (SweepHigh.visited_no_roots greenwich (Fin t) (Fin (90 * rad))
           (Fin lon) 0.28 0.53); try lra.
  - exact polar_samples_high.
  - exact SweepInvariants.loop_indices_range.
  - apply polar_sample_high; lra.
  - apply polar_sample_high; lra.
Qed.

(** At the pole, with the Moon near its northern lunistice, the sweep finds
    neither a rise nor a set. *)
Lemma polar_no_rise_no_set :
  _rise_and_set greenwich (Fin t) (Fin (90 * rad)) (Fin lon)
  = {| moonrise := NaN; moonset := NaN |}.
Proof.
  rewrite SweepResults._rise_and_set_unfold. cbv zeta.
  destruct (SweepHigh.sweep_all_high greenwich (Fin t) (Fin (90 * rad))
              (Fin lon) 0.28 0.53 ltac:(lra) ltac:(lra) polar_samples_high
              ltac:(apply polar_sample_high; lra)) as [-> ->].
  reflexivity.
Qed.

End PolarDay.

End Polar.

Module UndefinedWitness.
Import lunar Classification.

(** The inputs of the example: the North Pole, seventeen time units after
    the epoch. *)
Lemma example_inputs :
  julian_to (Fin 54594648000000) = Fin 17
  /\ (Fin 90 * RAD)%js = Fin (90 * rad)
  /\ (Fin 0 * RAD)%js = Fin (0 * rad).
Proof.
  rewrite PositionFacts.julian_to_fin, PositionFacts.RAD_fin.
  repeat split. f_equal. lra.
Qed.

(** C5 at the North Pole: no segment is taken for a rise or for a set, and
    both queries return NaN. *)
Lemma undefined_at_the_pole :
  rise linear_greenwich (Fin 54594648000000) (Fin 90) (Fin 0) = NaN
  /\ set linear_greenwich (Fin 54594648000000) (Fin 90) (Fin 0) = NaN.
Proof.
  destruct (SweepClaims.undefined_when_not_found linear_greenwich
              (Fin 54594648000000) (Fin 90) (Fin 0)) as [Hrise Hset].
  destruct example_inputs as (Ht & Hlat & Hlon).
  rewrite Ht, Hlat, Hlon in Hrise, Hset.
  pose proof (Polar.polar_visited_no_roots linear_greenwich 17 (0 * rad)
                ltac:(lra)) as Hno.
  split.
  - apply Hrise. eapply Forall_impl; [| exact Hno].
    intros [i s] Hr. unfold taken_as_rise. now rewrite Hr.
  - apply Hset. eapply Forall_impl; [| exact Hno].
    intros [i s] Hr. unfold taken_as_set. now rewrite Hr.
Defined.

End UndefinedWitness.

(** ** The declination at two instants an hour apart *)

Module Enclosures.

Lemma rad_tight : 0.017453292 < rad < 0.017453293.
Proof. unfold rad. pose proof Trig.PI_bounds. lra. Qed.

Lemma sin_about_three_halves_PI (x : R) : sin x = - cos (x - 3 * (PI / 2)).
Proof.
  rewrite <- Trig.sin_three_halves_PI_plus. f_equal. ring.
Qed.

Lemma sin_about_two_PI (x : R) : sin x = sin (x - 2 * PI).
Proof.
  rewrite <- (Trig.sin_two_PI_plus (x - 2 * PI)). f_equal. ring.
Qed.

Lemma cos_between (a lo hi cl ch : R) :
  lo <= a <= hi -> 0 <= lo -> hi <= 2 ->
  cl <= cos_lo hi -> cos_hi lo <= ch ->
  cl <= cos a <= ch.
Proof.
  intros Ha Hlo Hhi Hcl Hch.
  pose proof (Trig.cos_enclosure a lo hi Hlo Ha Hhi). lra.
Qed.

Lemma sin_between (a lo hi sl sh : R) :
  lo <= a <= hi -> 0 <= lo -> hi <= 3 / 2 ->
  sl <= sin_lo lo -> sin_hi hi <= sh ->
  sl <= sin a <= sh.
Proof.
  intros Ha Hlo Hhi Hsl Hsh.
  pose proof (Trig.sin_enclosure a lo hi Hlo Ha Hhi). lra.
Qed.

Lemma product_between (x y xl xh yl yh pl ph : R) :
  0 <= xl -> xl <= x <= xh -> 0 <= yl -> yl <= y <= yh ->
  pl <= xl * yl -> xh * yh <= ph ->
  pl <= x * y <= ph.
Proof.
  intros Hxl Hx Hyl Hy Hpl Hph.
  assert (H1 : xl * yl <= x * y) by (apply Rmult_le_compat; lra).
  assert (H2 : x * y <= xh * yh) by (apply Rmult_le_compat; lra).
  lra.
Qed.

Lemma sin_declination_at_query :
  (-0.0022) <= Rsin_declination 12.035 <= (-0.002).
Proof.
  pose proof rad_tight as [Hr1 Hr2].
  assert (HPI : PI = 180 * rad) by (unfold rad; field).
  assert (HyM : 0.3874664 <= Rmean_anomaly 12.035 - 3 * (PI / 2) <= 0.3874665)
    by (unfold Rmean_anomaly; lra).
  assert (HcM : 0.9258692 <= - sin (Rmean_anomaly 12.035) <= 0.9258694).
  { rewrite (sin_about_three_halves_PI (Rmean_anomaly 12.035)), Ropp_involutive.
    apply (cos_between _ 0.3874664 0.3874665); [exact HyM | lra | lra | |];
      unfold cos_lo, cos_hi, cos_lo; simpl pow; lra. }
  assert (HyF : 0.3056555 <= - (Rmean_distance 12.035 - 3 * (PI / 2)) <= 0.3056556)
    by (unfold Rmean_distance; lra).
  assert (HcF : 0.9536498 <= - sin (Rmean_distance 12.035) <= 0.95365).
  { rewrite (sin_about_three_halves_PI (Rmean_distance 12.035)), Ropp_involutive,
      <- cos_neg.
    apply (cos_between _ 0.3056555 0.3056556); [exact HyF | lra | lra | |];
      unfold cos_lo, cos_hi, cos_lo; simpl pow; lra. }
  assert (HrF : 0.0166443 <= rad * - sin (Rmean_distance 12.035) <= 0.0166444)
    by (apply (product_between rad _ 0.017453292 0.017453293 0.9536498 0.95365); lra).
  assert (Hnb : 0.0853519 <= - Rlatitude 12.035 <= 0.0853525).
  { replace (- Rlatitude 12.035) with (5.128 * (rad * - sin (Rmean_distance 12.035)))
      by (unfold Rlatitude; ring).
    lra. }
  assert (Hnsb : 0.0852483 <= - sin (Rlatitude 12.035) <= 0.085249).
  { rewrite <- sin_neg.
    apply (sin_between _ 0.0853519 0.0853525); [exact Hnb | lra | lra | |];
      unfold sin_hi, sin_lo; simpl pow; lra. }
  assert (Hcb : 0.9963596 <= cos (Rlatitude 12.035) <= 0.9963598).
  { rewrite <- cos_neg.
    apply (cos_between _ 0.0853519 0.0853525); [exact Hnb | lra | lra | |];
      unfold cos_lo, cos_hi, cos_lo; simpl pow; lra. }
  assert (He : 0.4090876 <= Robliquity 12.035 <= 0.4090877)
    by (unfold Robliquity; lra).
  assert (Hse : 0.3977723 <= sin (Robliquity 12.035) <= 0.3977725)
    by (apply (sin_between _ 0.4090876 0.4090877); [exact He | lra | lra | |];
        unfold sin_hi, sin_lo; simpl pow; lra).
  assert (Hce : 0.917484 <= cos (Robliquity 12.035) <= 0.9174842)
    by (apply (cos_between _ 0.4090876 0.4090877); [exact He | lra | lra | |];
        unfold cos_lo, cos_hi, cos_lo; simpl pow; lra).
  assert (HrM : 0.0161594 <= rad * - sin (Rmean_anomaly 12.035) <= 0.0161595)
    by (apply (product_between rad _ 0.017453292 0.017453293 0.9258692 0.9258694); lra).
  assert (HyL : 0.1932275 <= Rlongitude 12.035 - 2 * PI <= 0.1932282).
  { replace (Rlongitude 12.035 - 2 * PI)
      with (218.316 * rad + 13.176396 * rad * 12.035 - 2 * PI
            - 6.289 * (rad * - sin (Rmean_anomaly 12.035)))
      by (unfold Rlongitude; ring).
    lra. }
  assert (Hsl : 0.1920273 <= sin (Rlongitude 12.035) <= 0.1920281).
  { rewrite (sin_about_two_PI (Rlongitude 12.035)).
    apply (sin_between _ 0.1932275 0.1932282); [exact HyL | lra | lra | |];
      unfold sin_hi, sin_lo; simpl pow; lra. }
  unfold Rsin_declination.
  set (sb := sin (Rlatitude 12.035)) in *. set (cb := cos (Rlatitude 12.035)) in *.
  set (se := sin (Robliquity 12.035)) in *. set (ce := cos (Robliquity 12.035)) in *.
  set (sl := sin (Rlongitude 12.035)) in *.
  assert (Hp1 : 0.0782139 <= - sb * ce <= 0.0782147)
    by (apply (product_between (- sb) ce 0.0852483 0.085249 0.917484 0.9174842); lra).
  assert (Hp2 : 0.3963242 <= cb * se <= 0.3963246)
    by (apply (product_between cb se 0.9963596 0.9963598 0.3977723 0.3977725); lra).
  assert (Hp3 : 0.076105 <= cb * se * sl <= 0.0761055)
    by (apply (product_between (cb * se) sl 0.3963242 0.3963246 0.1920273 0.1920281); lra).
  replace (sb * ce) with (- (- sb * ce)) by ring. lra.
Qed.

Lemma sin_declination_one_hour_later :
  0.0014 <= Rsin_declination (12.035 + 1 / 24) <= 0.0016.
Proof.
  pose proof rad_tight as [Hr1 Hr2].
  assert (HPI : PI = 180 * rad) by (unfold rad; field).
  assert (HyM : 0.3969675 <= Rmean_anomaly (12.035 + 1 / 24) - 3 * (PI / 2) <= 0.3969676)
    by (unfold Rmean_anomaly; lra).
  assert (HcM : 0.9222376 <= - sin (Rmean_anomaly (12.035 + 1 / 24)) <= 0.9222377).
  { rewrite (sin_about_three_halves_PI (Rmean_anomaly (12.035 + 1 / 24))), Ropp_involutive.
    apply (cos_between _ 0.3969675 0.3969676); [exact HyM | lra | lra | |];
      unfold cos_lo, cos_hi, cos_lo; simpl pow; lra. }
  assert (HyF : 0.2960348 <= - (Rmean_distance (12.035 + 1 / 24) - 3 * (PI / 2)) <= 0.2960349)
    by (unfold Rmean_distance; lra).
  assert (HcF : 0.9565007 <= - sin (Rmean_distance (12.035 + 1 / 24)) <= 0.9565008).
  { rewrite (sin_about_three_halves_PI (Rmean_distance (12.035 + 1 / 24))), Ropp_involutive,
      <- cos_neg.
    apply (cos_between _ 0.2960348 0.2960349); [exact HyF | lra | lra | |];
      unfold cos_lo, cos_hi, cos_lo; simpl pow; lra. }
  assert (HrF : 0.016694 <= rad * - sin (Rmean_distance (12.035 + 1 / 24)) <= 0.0166941)
    by (apply (product_between rad _ 0.017453292 0.017453293 0.9565007 0.9565008); lra).
  assert (Hnb : 0.0856068 <= - Rlatitude (12.035 + 1 / 24) <= 0.0856074).
  { replace (- Rlatitude (12.035 + 1 / 24)) with (5.128 * (rad * - sin (Rmean_distance (12.035 + 1 / 24))))
      by (unfold Rlatitude; ring).
    lra. }
  assert (Hnsb : 0.0855022 <= - sin (Rlatitude (12.035 + 1 / 24)) <= 0.0855029).
  { rewrite <- sin_neg.
    apply (sin_between _ 0.0856068 0.0856074); [exact Hnb | lra | lra | |];
      unfold sin_hi, sin_lo; simpl pow; lra. }
  assert (Hcb : 0.9963379 <= cos (Rlatitude (12.035 + 1 / 24)) <= 0.996338).
  { rewrite <- cos_neg.
    apply (cos_between _ 0.0856068 0.0856074); [exact Hnb | lra | lra | |];
      unfold cos_lo, cos_hi, cos_lo; simpl pow; lra. }
  assert (He : 0.4090876 <= Robliquity (12.035 + 1 / 24) <= 0.4090877)
    by (unfold Robliquity; lra).
  assert (Hse : 0.3977723 <= sin (Robliquity (12.035 + 1 / 24)) <= 0.3977725)
    by (apply (sin_between _ 0.4090876 0.4090877); [exact He | lra | lra | |];
        unfold sin_hi, sin_lo; simpl pow; lra).
  assert (Hce : 0.917484 <= cos (Robliquity (12.035 + 1 / 24)) <= 0.9174842)
    by (apply (cos_between _ 0.4090876 0.4090877); [exact He | lra | lra | |];
        unfold cos_lo, cos_hi, cos_lo; simpl pow; lra).
  assert (HrM : 0.016096 <= rad * - sin (Rmean_anomaly (12.035 + 1 / 24)) <= 0.0160961)
    by (apply (product_between rad _ 0.017453292 0.017453293 0.9222376 0.9222377); lra).
  assert (HyL : 0.2032083 <= Rlongitude (12.035 + 1 / 24) - 2 * PI <= 0.2032091).
  { replace (Rlongitude (12.035 + 1 / 24) - 2 * PI)
      with (218.316 * rad + 13.176396 * rad * (12.035 + 1 / 24) - 2 * PI
            - 6.289 * (rad * - sin (Rmean_anomaly (12.035 + 1 / 24))))
      by (unfold Rlongitude; ring).
    lra. }
  assert (Hsl : 0.2018126 <= sin (Rlongitude (12.035 + 1 / 24)) <= 0.2018135).
  { rewrite (sin_about_two_PI (Rlongitude (12.035 + 1 / 24))).
    apply (sin_between _ 0.2032083 0.2032091); [exact HyL | lra | lra | |];
      unfold sin_hi, sin_lo; simpl pow; lra. }
  unfold Rsin_declination.
  set (sb := sin (Rlatitude (12.035 + 1 / 24))) in *. set (cb := cos (Rlatitude (12.035 + 1 / 24))) in *.
  set (se := sin (Robliquity (12.035 + 1 / 24))) in *. set (ce := cos (Robliquity (12.035 + 1 / 24))) in *.
  set (sl := sin (Rlongitude (12.035 + 1 / 24))) in *.
  assert (Hp1 : 0.0784469 <= - sb * ce <= 0.0784476)
    by (apply (product_between (- sb) ce 0.0855022 0.0855029 0.917484 0.9174842); lra).
  assert (Hp2 : 0.3963156 <= cb * se <= 0.3963159)
    by (apply (product_between cb se 0.9963379 0.996338 0.3977723 0.3977725); lra).
  assert (Hp3 : 0.0799814 <= cb * se * sl <= 0.0799819)
    by (apply (product_between (cb * se) sl 0.3963156 0.3963159 0.2018126 0.2018135); lra).
  replace (sb * ce) with (- (- sb * ce)) by ring. lra.
Qed.

End Enclosures.

(** ** A rise found before the instant of the query *)

Module EarlyRise.
Import lunar Classification.

(** In the first segment the sample at the segment start stands in for the
    sample an hour earlier.  When the elevation has just passed the threshold
    and climbs fast, the parabola through (-1, hA), (0, hA), (1, hB) has both
    its roots between -1 and 0. *)
Lemma first_segment_roots (hA hB : R) :
  0 < hA -> 9 * hA < hB ->
  exists X1 X2 ye : R,
    count_roots (fit (Fin hA) (Fin hA) (Fin hB))
    = {| roots := 2; x1 := Fin X1; x2 := Fin X2 |}
    /\ p_ye (fit (Fin hA) (Fin hA) (Fin hB)) = Fin ye
    /\ ye < 0 /\ -1 < X1 /\ X1 < X2 /\ X2 < 0.
Proof.
  intros HA HB.
  assert (Ha : (hB + hA) / 2 - hA <> 0) by lra.
  rewrite SweepEval.fit_fin by assumption. cbn [p_ye].
  set (a := (hB + hA) / 2 - hA) in *.
  replace ((hB - hA) / 2) with a by (unfold a; lra).
  assert (Hapos : 4 * hA < a) by (unfold a; lra).
  replace (- a / (2 * a)) with (- (1 / 2)) by (field; lra).
  set (d := a * a - 4 * a * hA).
  assert (Hd : 0 < d) by (unfold d; nra).
  assert (Hda : d < a * a) by (unfold d; nra).
  rewrite SweepEval.count_roots_fin by lra. cbv zeta.
  assert (Hs0 : 0 < sqrt d) by (apply sqrt_lt_R0; exact Hd).
  assert (Hs1 : sqrt d < a).
  { rewrite <- (sqrt_square a) by lra. apply sqrt_lt_1_alt. lra. }
  rewrite (Rabs_pos_eq a) by lra.
  set (dx := sqrt d / (a * 2)).
  assert (Hdx : 0 < dx < 1 / 2).
  { unfold dx. split.
    - apply Rdiv_lt_0_compat; lra.
    - apply Rmult_lt_reg_r with (a * 2); [lra |].
      unfold Rdiv. rewrite Rmult_assoc, Rinv_l by lra. lra. }
  assert (H1 : Rabs (- (1 / 2) - dx) <= 1)
    by (apply Rabs_le; lra).
  assert (H2 : Rabs (- (1 / 2) + dx) <= 1)
    by (apply Rabs_le; lra).
  destruct (Rle_dec (Rabs (- (1 / 2) - dx)) 1); [| contradiction].
  destruct (Rle_dec (Rabs (- (1 / 2) + dx)) 1); [| contradiction].
  destruct (Rlt_dec (- (1 / 2) - dx) (-1)); [lra |].
  exists (- (1 / 2) - dx), (- (1 / 2) + dx).
  eexists. split; [reflexivity |]. split; [reflexivity |].
  repeat split; try lra.
Qed.

Section FirstSegment.
Variable greenwich : R -> R.
Variable t : R.
Variables lat lon : num.
Variables hA hB : R.
Hypothesis sample_now :
  (_elevation greenwich (Fin t) lat lon - - PARALLAX)%js = Fin hA.
Hypothesis sample_next :
  (_elevation greenwich (_hours_later (Fin t) (Js.of_Z 1)) lat lon
   - - PARALLAX)%js = Fin hB.
Hypothesis just_up : 0 < hA.
Hypothesis climbing : 9 * hA < hB.

(** The sweep stops after its first segment, with a set and a rise that both
    precede the instant of the query. *)
Lemma rise_and_set_before_query :
  exists r s : R,
    _rise_and_set greenwich (Fin t) lat lon
    = {| moonrise := Fin r; moonset := Fin s |}
    /\ t - 1 / 24 < s /\ s < r /\ r < t.
Proof.
  destruct (first_segment_roots hA hB just_up climbing)
    as (X1 & X2 & ye & Hroots & Hye & Hneg & Hx1 & Hx12 & Hx2).
  exists (t + (0 + X2) / 24), (t + (0 + X1) / 24).
  split; [| lra].
  rewrite SweepResults._rise_and_set_unfold. cbv zeta.
  assert (Hli : loop_indices
                = 0%Z :: map (fun k => (2 * Z.of_nat k)%Z) (List.seq 1 12))
    by reflexivity.
  rewrite Hli. cbn [sweep].
  rewrite SweepInvariants.segment_unfold. cbv zeta.
  unfold segment_h1, segment_h2, initial. cbn [h0 h1 rise_h set_h Z.eqb].
  change (0 + 1)%Z with 1%Z.
  rewrite sample_now, sample_next, Hroots.
  unfold record_events. cbn [roots x1 x2 Js.isNaN]. rewrite Hye.
  cbn [Js.lt].
  replace (Js.Rltb ye 0) with true
    by (symmetry; apply JsFacts.Rltb_true; exact Hneg).
  cbn [fst snd Js.of_Z Js.add].
  unfold found_all. cbn [rise_h set_h Js.lt].
  replace (Js.Rltb (0 + X2) 24) with true
    by (symmetry; apply JsFacts.Rltb_true; lra).
  replace (Js.Rltb (0 + X1) 24) with true
    by (symmetry; apply JsFacts.Rltb_true; lra).
  cbn [andb rise_h set_h].
  rewrite !TransitFacts._hours_later_fin. reflexivity.
Qed.

End FirstSegment.

End EarlyRise.

Module SpanClaims.
Import lunar Classification.

(** At the North Pole at t = 12.035 the Moon has been above the threshold
    for a few minutes and climbs about four milliradians in the next hour. *)
Lemma polar_samples (greenwich : R -> R) (lon : R) :
  exists hA hB : R,
    (_elevation greenwich (Fin 12.035) (Fin (90 * rad)) (Fin lon)
     - - PARALLAX)%js = Fin hA
    /\ (_elevation greenwich (_hours_later (Fin 12.035) (Js.of_Z 1))
          (Fin (90 * rad)) (Fin lon) - - PARALLAX)%js = Fin hB
    /\ 0 < hA /\ 9 * hA < hB.
Proof.
  unfold Js.of_Z. rewrite TransitFacts._hours_later_fin.
  rewrite !ElevationFacts._elevation_pole.
  do 2 eexists. split; [reflexivity |]. split; [reflexivity |].
  pose proof Enclosures.sin_declination_at_query as [Ha1 Ha2].
  pose proof Enclosures.sin_declination_one_hour_later as [Hb1 Hb2].
  pose proof (ElevationFacts.Rsin_declination_range 12.035) as Hra.
  pose proof (ElevationFacts.Rsin_declination_range (12.035 + 1 / 24)) as Hrb.
  assert (HA1 : -0.00221 <= asin (Rsin_declination 12.035)).
  { apply Trig.asin_lower; [assumption | lra |].
    replace (-0.00221) with (- (0.00221)) by lra. rewrite sin_neg.
    pose proof (Trig.sin_taylor 0.00221 ltac:(lra)) as [Hs _].
    unfold sin_lo in Hs. simpl pow in Hs. lra. }
  assert (HA2 : asin (Rsin_declination 12.035) <= -0.002).
  { apply Trig.asin_upper; [assumption | lra |].
    replace (-0.002) with (- (0.002)) by lra. rewrite sin_neg.
    pose proof (Trig.sin_taylor 0.002 ltac:(lra)) as [_ Hs].
    unfold sin_hi, sin_lo in Hs. simpl pow in Hs. lra. }
  assert (HB1 : 0.0014 <= asin (Rsin_declination (12.035 + 1 / 24))).
  { apply Trig.asin_lower; [assumption | lra |].
    pose proof (Trig.sin_taylor 0.0014 ltac:(lra)) as [_ Hs].
    unfold sin_hi, sin_lo in Hs. simpl pow in Hs. lra. }
  replace (IZR 1) with 1 by reflexivity.
  split; lra.
Qed.


End SpanClaims.

(** ** A transit returned from before the query instant *)

Module HourAngleBounds.
Import lunar.
Import Enclosures.

Lemma _right_ascension_fin (t : R) :
  _right_ascension (Fin t) = Fin (Rright_ascension t).
Proof.
  unfold _right_ascension, _right_ascension_direct.
  rewrite PositionFacts._latitude_fin, PositionFacts._longitude_fin,
    PositionFacts._obliquity_fin.
  reflexivity.
Qed.

Lemma _hour_angle_real (greenwich : R -> R) (t lon : R) :
  _hour_angle greenwich (Fin t) (Fin lon) = Fin (Rhour_angle greenwich t lon).
Proof.
  apply TransitFacts._hour_angle_fin, _right_ascension_fin.
Qed.

Lemma _hour_angle_iterative_real (greenwich : R -> R) (t lon ha0 : R) :
  _hour_angle_iterative greenwich (Fin t) (Fin lon) (Fin ha0)
  = Fin (Rhour_angle_iterative greenwich t lon ha0).
Proof.
  unfold _hour_angle_iterative.
  rewrite AngleFacts.transit_direct_fin, _hour_angle_real. reflexivity.
Qed.

Lemma _hour_angle_refined_real (greenwich : R -> R) (t lon : R) :
  _hour_angle_refined greenwich (Fin t) (Fin lon)
  = Fin (Nat.iter 4 (Rhour_angle_iterative greenwich t lon)
           (Rhour_angle greenwich t lon)).
Proof.
  unfold _hour_angle_refined.
  rewrite _hour_angle_real, !_hour_angle_iterative_real. reflexivity.
Qed.

Lemma inv_two_PI : 0.15915494 < / (2 * PI) < 0.15915495.
Proof.
  pose proof Trig.PI_bounds as [Hp1 Hp2].
  assert (H : / (2 * PI) * (2 * PI) = 1) by (field; lra).
  assert (Hpos : 0 < / (2 * PI)) by (apply Rinv_0_lt_compat; lra).
  set (x := / (2 * PI)) in *.
  split; nra.
Qed.

(** The reduction of an angle whose turn is known. *)
Lemma Rlimit_in_turn (n : Z) (x : R) :
  IZR n * (2 * PI) <= x < (IZR n + 1) * (2 * PI) ->
  Rlimit x = x - IZR n * (2 * PI).
Proof.
  intros [H1 H2]. unfold Rlimit. pose proof Trig.PI_bounds as [Hp1 Hp2].
  replace (Zfloor (x / (2 * PI))) with n; [reflexivity |].
  symmetry. apply Zfloor_eq. split.
  - apply Rmult_le_reg_r with (2 * PI); [lra |].
    replace (x / (2 * PI) * (2 * PI)) with x by (field; lra). exact H1.
  - apply Rmult_lt_reg_r with (2 * PI); [lra |].
    replace (x / (2 * PI) * (2 * PI)) with x by (field; lra). exact H2.
Qed.

Lemma Ratan2_right (y x : R) : 0 < x -> Js.Ratan2 y x = atan (y / x).
Proof.
  intros Hx. unfold Js.Ratan2. destruct (Rlt_dec 0 x); [reflexivity | lra].
Qed.

Lemma sin_two_PI_minus (x : R) : sin x = - sin (2 * PI - x).
Proof. rewrite sin_minus, sin_2PI, cos_2PI. ring. Qed.

Lemma cos_two_PI_minus (x : R) : cos x = cos (2 * PI - x).
Proof. rewrite cos_minus, sin_2PI, cos_2PI. ring. Qed.

(** An enclosure of the arc tangent of a non-negative number, from the
    Taylor polynomials of the sine and the cosine at the two ends. *)
Lemma atan_between (u ul uh cl ch : R) :
  0 <= cl -> ch <= 3 / 2 -> cl <= ch -> 0 <= ul -> ul <= u <= uh ->
  0 < cos_lo cl -> sin_hi cl <= ul * cos_lo cl ->
  uh * cos_hi ch <= sin_lo ch ->
  cl <= atan u <= ch.
Proof.
  intros Hcl Hch Hcc Hul [Hu1 Hu2] Hcpos Hlow Hupp.
  pose proof Trig.PI_bounds as [Hp1 Hp2].
  pose proof (Trig.sin_taylor cl ltac:(lra)) as [_ Hs1].
  pose proof (Trig.cos_taylor cl ltac:(lra)) as [Hc1 _].
  pose proof (Trig.sin_taylor ch ltac:(lra)) as [Hs2 _].
  pose proof (Trig.cos_taylor ch ltac:(lra)) as [_ Hc2].
  assert (Hcosl : 0 < cos cl) by lra.
  assert (Hcosh : 0 < cos ch) by (apply cos_gt_0; lra).
  pose proof (atan_bound u) as [Hb1 Hb2].
  pose proof (tan_atan u) as Hinv.
  split.
  - destruct (Rle_dec cl (atan u)) as [H | H]; [exact H | exfalso].
    assert (Hlt : tan (atan u) < tan cl) by (apply tan_increasing; lra).
    rewrite Hinv in Hlt. unfold tan in Hlt.
    assert (Hm : u * cos cl < sin cl).
    { apply Rmult_lt_compat_r with (r := cos cl) in Hlt; [| exact Hcosl].
      unfold Rdiv in Hlt. rewrite Rmult_assoc, Rinv_l in Hlt by lra. lra. }
    assert (H1 : ul * cos_lo cl <= u * cos cl)
      by (apply Rmult_le_compat; lra).
    lra.
  - destruct (Rle_dec (atan u) ch) as [H | H]; [exact H | exfalso].
    assert (Hlt : tan ch < tan (atan u)) by (apply tan_increasing; lra).
    rewrite Hinv in Hlt. unfold tan in Hlt.
    assert (Hm : sin ch < u * cos ch).
    { apply Rmult_lt_compat_r with (r := cos ch) in Hlt; [| exact Hcosh].
      unfold Rdiv in Hlt. rewrite Rmult_assoc, Rinv_l in Hlt by lra. lra. }
    assert (H1 : u * cos ch <= uh * cos_hi ch)
      by (apply Rmult_le_compat; lra).
    lra.
Qed.

Lemma quotient_between (x y xl xh yl yh ql qh : R) :
  0 <= xl -> xl <= x <= xh -> 0 < yl -> yl <= y <= yh ->
  ql * yh <= xl -> xh <= qh * yl -> 0 <= ql ->
  ql <= x / y <= qh.
Proof.
  intros Hxl [Hx1 Hx2] Hyl [Hy1 Hy2] Hq1 Hq2 Hql.
  assert (Hy : 0 < y) by lra.
  assert (Hqh : 0 <= qh) by nra.
  split.
  - apply Rmult_le_reg_r with y; [exact Hy |].
    unfold Rdiv. rewrite Rmult_assoc, Rinv_l by lra.
    assert (ql * y <= ql * yh) by (apply Rmult_le_compat_l; lra). lra.
  - apply Rmult_le_reg_r with y; [exact Hy |].
    unfold Rdiv. rewrite Rmult_assoc, Rinv_l by lra.
    assert (qh * yl <= qh * y) by (apply Rmult_le_compat_l; lra). lra.
Qed.

(** Enclosures of the hour angle under the linear sidereal clock at the
    longitude 0.4 rad: a day after the instant 10.115, and around the four
    instants to which the refinement projects from there.  Each follows the
    series term by term: the mean anomaly and the mean distance about three
    quarters of a turn, the longitude just short of a full turn, the right
    ascension through the arc tangent (positive at the first instant,
    negative and reduced by a full turn at the others), and the sidereal
    time after eleven, respectively ten, whole turns. *)
Lemma hour_angle_a_day_ahead (T : R) :
  11.115 <= T <= 11.115 ->
  6.19496972 <= Rhour_angle linear_greenwich T 0.4 <= 6.19498142.
Proof.
  intros HT.
  pose proof Enclosures.rad_tight as [Hr1 Hr2].
  assert (HPI : PI = 180 * rad) by (unfold rad; field).
  assert (HrT : 0.19399334 <= rad * T <= 0.19399336)
    by (apply (product_between rad T 0.017453292 0.017453293 11.115 11.115); lra).
  assert (HyM : 0.1776813 <= (Rmean_anomaly T - 3 * (PI / 2)) <= 0.1776817)
    by (unfold Rmean_anomaly; lra).
  assert (HcM : 0.98425609 <= - sin (Rmean_anomaly T) <= 0.98425617).
  { rewrite (sin_about_three_halves_PI (Rmean_anomaly T)), Ropp_involutive.
    apply (cos_between _ 0.1776813 0.1776817); [exact HyM | lra | lra | |];
      unfold cos_lo, cos_hi, cos_lo; simpl pow; lra. }
  assert (HyF : 0.51807933 <= - (Rmean_distance T - 3 * (PI / 2)) <= 0.51807978)
    by (unfold Rmean_distance; lra).
  assert (HcF : 0.86877157 <= - sin (Rmean_distance T) <= 0.86877193).
  { rewrite (sin_about_three_halves_PI (Rmean_distance T)), Ropp_involutive,
      <- cos_neg.
    apply (cos_between _ 0.51807933 0.51807978); [exact HyF | lra | lra | |];
      unfold cos_lo, cos_hi, cos_lo; simpl pow; lra. }
  assert (HrF : 0.01516292 <= rad * - sin (Rmean_distance T) <= 0.01516294)
    by (apply (product_between rad _ 0.017453292 0.017453293 0.86877157 0.86877193); lra).
  assert (Hnb : 0.07775545 <= - Rlatitude T <= 0.07775556).
  { replace (- Rlatitude T) with (5.128 * (rad * - sin (Rmean_distance T)))
      by (unfold Rlatitude; ring).
    lra. }
  assert (Hnsb : 0.07767712 <= - sin (Rlatitude T) <= 0.07767724).
  { rewrite <- sin_neg.
    apply (sin_between _ 0.07775545 0.07775556); [exact Hnb | lra | lra | |];
      unfold sin_hi, sin_lo; simpl pow; lra. }
  assert (Hcb : 0.99697855 <= cos (Rlatitude T) <= 0.99697857).
  { rewrite <- cos_neg.
    apply (cos_between _ 0.07775545 0.07775556); [exact Hnb | lra | lra | |];
      unfold cos_lo, cos_hi, cos_lo; simpl pow; lra. }
  assert (Hntb : 0.07791252 <= - tan (Rlatitude T) <= 0.07791265).
  { replace (- tan (Rlatitude T))
      with (- sin (Rlatitude T) / cos (Rlatitude T))
      by (unfold tan; field; lra).
    apply (quotient_between _ _ 0.07767712 0.07767724 0.99697855 0.99697857); lra. }
  assert (He : 0.40908764 <= Robliquity T <= 0.40908767)
    by (unfold Robliquity; lra).
  assert (Hse : 0.39777241 <= sin (Robliquity T) <= 0.39777245)
    by (apply (sin_between _ 0.40908764 0.40908767); [exact He | lra | lra | |];
        unfold sin_hi, sin_lo; simpl pow; lra).
  assert (Hce : 0.91748408 <= cos (Robliquity T) <= 0.91748412)
    by (apply (cos_between _ 0.40908764 0.40908767); [exact He | lra | lra | |];
        unfold cos_lo, cos_hi, cos_lo; simpl pow; lra).
  assert (HrM : 0.0171785 <= rad * - sin (Rmean_anomaly T) <= 0.01717852)
    by (apply (product_between rad _ 0.017453292 0.017453293 0.98425609 0.98425617); lra).
  assert (HyL : 0.02475447 <= 2 * PI - Rlongitude T <= 0.02475501).
  { replace (2 * PI - Rlongitude T)
      with (2 * PI - 218.316 * rad - 13.176396 * (rad * T)
            + 6.289 * (rad * - sin (Rmean_anomaly T)))
      by (unfold Rlongitude; ring).
    lra. }
  assert (Hnsl : 0.02475194 <= - sin (Rlongitude T) <= 0.02475249).
  { rewrite (sin_two_PI_minus (Rlongitude T)), Ropp_involutive.
    apply (sin_between _ 0.02475447 0.02475501); [exact HyL | lra | lra | |];
      unfold sin_hi, sin_lo; simpl pow; lra. }
  assert (Hcl : 0.99969361 <= cos (Rlongitude T) <= 0.99969363).
  { rewrite (cos_two_PI_minus (Rlongitude T)).
    apply (cos_between _ 0.02475447 0.02475501); [exact HyL | lra | lra | |];
      unfold cos_lo, cos_hi, cos_lo; simpl pow; lra. }
  assert (Hlst : Rlimit (linear_greenwich T + 0.4)
                 = linear_greenwich T + 0.4 - IZR 11 * (2 * PI))
    by (apply Rlimit_in_turn; unfold linear_greenwich; lra).
  unfold Rhour_angle, Rright_ascension. rewrite Hlst.
  unfold linear_greenwich.
  set (tb := tan (Rlatitude T)) in *.
  set (se := sin (Robliquity T)) in *. set (ce := cos (Robliquity T)) in *.
  set (sl := sin (Rlongitude T)) in *. set (cl := cos (Rlongitude T)) in *.
  assert (Hp1 : 0.02270951 <= - sl * ce <= 0.02271002)
    by (apply (product_between (- sl) ce 0.02475194 0.02475249 0.91748408 0.91748412); lra).
  assert (Hp2 : 0.03099145 <= - tb * se <= 0.03099151)
    by (apply (product_between (- tb) se 0.07791252 0.07791265 0.39777241 0.39777245); lra).
  rewrite Ratan2_right by lra.
  assert (Hu : 0.00828396 <= (sl * ce - tb * se) / cl <= 0.00828454)
    by (apply (quotient_between _ _ 0.00828143 0.008282 0.99969361 0.99969363); lra).
  assert (Hat : 0.00828367 <= atan ((sl * ce - tb * se) / cl) <= 0.00828446).
  { apply (atan_between _ 0.00828396 0.00828454); [lra | lra | lra | lra | exact Hu | | |];
      unfold sin_hi, sin_lo, cos_hi, cos_lo; simpl pow; lra. }
  rewrite (Rlimit_in_turn 0) by lra.
  lra.
Qed.

Lemma hour_angle_iterate_1 (T : R) :
  10.12903804 <= T <= 10.12903997 ->
  0.19854593 <= Rhour_angle linear_greenwich T 0.4 <= 0.19857268.
Proof.
  intros HT.
  pose proof Enclosures.rad_tight as [Hr1 Hr2].
  assert (HPI : PI = 180 * rad) by (unfold rad; field).
  assert (HrT : 0.17678505 <= rad * T <= 0.17678511)
    by (apply (product_between rad T 0.017453292 0.017453293 10.12903804 10.12903997); lra).
  assert (HyM : 0.04714396 <= - (Rmean_anomaly T - 3 * (PI / 2)) <= 0.04714489)
    by (unfold Rmean_anomaly; lra).
  assert (HcM : 0.99888888 <= - sin (Rmean_anomaly T) <= 0.99888893).
  { rewrite (sin_about_three_halves_PI (Rmean_anomaly T)), Ropp_involutive, <- cos_neg.
    apply (cos_between _ 0.04714396 0.04714489); [exact HyM | lra | lra | |];
      unfold cos_lo, cos_hi, cos_lo; simpl pow; lra. }
  assert (HyF : 0.74573329 <= - (Rmean_distance T - 3 * (PI / 2)) <= 0.74573427)
    by (unfold Rmean_distance; lra).
  assert (HcF : 0.73458753 <= - sin (Rmean_distance T) <= 0.73459057).
  { rewrite (sin_about_three_halves_PI (Rmean_distance T)), Ropp_involutive,
      <- cos_neg.
    apply (cos_between _ 0.74573329 0.74573427); [exact HyF | lra | lra | |];
      unfold cos_lo, cos_hi, cos_lo; simpl pow; lra. }
  assert (HrF : 0.01282097 <= rad * - sin (Rmean_distance T) <= 0.01282103)
    by (apply (product_between rad _ 0.017453292 0.017453293 0.73458753 0.73459057); lra).
  assert (Hnb : 0.06574593 <= - Rlatitude T <= 0.06574625).
  { replace (- Rlatitude T) with (5.128 * (rad * - sin (Rmean_distance T)))
      by (unfold Rlatitude; ring).
    lra. }
  assert (Hnsb : 0.06569857 <= - sin (Rlatitude T) <= 0.0656989).
  { rewrite <- sin_neg.
    apply (sin_between _ 0.06574593 0.06574625); [exact Hnb | lra | lra | |];
      unfold sin_hi, sin_lo; simpl pow; lra. }
  assert (Hcb : 0.99783949 <= cos (Rlatitude T) <= 0.99783952).
  { rewrite <- cos_neg.
    apply (cos_between _ 0.06574593 0.06574625); [exact Hnb | lra | lra | |];
      unfold cos_lo, cos_hi, cos_lo; simpl pow; lra. }
  assert (Hntb : 0.06584081 <= - tan (Rlatitude T) <= 0.06584116).
  { replace (- tan (Rlatitude T))
      with (- sin (Rlatitude T) / cos (Rlatitude T))
      by (unfold tan; field; lra).
    apply (quotient_between _ _ 0.06569857 0.0656989 0.99783949 0.99783952); lra. }
  assert (He : 0.40908764 <= Robliquity T <= 0.40908768)
    by (unfold Robliquity; lra).
  assert (Hse : 0.39777241 <= sin (Robliquity T) <= 0.39777246)
    by (apply (sin_between _ 0.40908764 0.40908768); [exact He | lra | lra | |];
        unfold sin_hi, sin_lo; simpl pow; lra).
  assert (Hce : 0.91748408 <= cos (Robliquity T) <= 0.91748412)
    by (apply (cos_between _ 0.40908764 0.40908768); [exact He | lra | lra | |];
        unfold cos_lo, cos_hi, cos_lo; simpl pow; lra).
  assert (HrM : 0.01743389 <= rad * - sin (Rmean_anomaly T) <= 0.01743391)
    by (apply (product_between rad _ 0.017453292 0.017453293 0.99888888 0.99888893); lra).
  assert (HyL : 0.25310334 <= 2 * PI - Rlongitude T <= 0.2531044).
  { replace (2 * PI - Rlongitude T)
      with (2 * PI - 218.316 * rad - 13.176396 * (rad * T)
            + 6.289 * (rad * - sin (Rmean_anomaly T)))
      by (unfold Rlongitude; ring).
    lra. }
  assert (Hnsl : 0.25040962 <= - sin (Rlongitude T) <= 0.25041066).
  { rewrite (sin_two_PI_minus (Rlongitude T)), Ropp_involutive.
    apply (sin_between _ 0.25310334 0.2531044); [exact HyL | lra | lra | |];
      unfold sin_hi, sin_lo; simpl pow; lra. }
  assert (Hcl : 0.96813971 <= cos (Rlongitude T) <= 0.96813998).
  { rewrite (cos_two_PI_minus (Rlongitude T)).
    apply (cos_between _ 0.25310334 0.2531044); [exact HyL | lra | lra | |];
      unfold cos_lo, cos_hi, cos_lo; simpl pow; lra. }
  assert (Hlst : Rlimit (linear_greenwich T + 0.4)
                 = linear_greenwich T + 0.4 - IZR 10 * (2 * PI))
    by (apply Rlimit_in_turn; unfold linear_greenwich; lra).
  unfold Rhour_angle, Rright_ascension. rewrite Hlst.
  unfold linear_greenwich.
  set (tb := tan (Rlatitude T)) in *.
  set (se := sin (Robliquity T)) in *. set (ce := cos (Robliquity T)) in *.
  set (sl := sin (Rlongitude T)) in *. set (cl := cos (Rlongitude T)) in *.
  assert (Hp1 : 0.22974683 <= - sl * ce <= 0.22974781)
    by (apply (product_between (- sl) ce 0.25040962 0.25041066 0.91748408 0.91748412); lra).
  assert (Hp2 : 0.02618965 <= - tb * se <= 0.02618981)
    by (apply (product_between (- tb) se 0.06584081 0.06584116 0.39777241 0.39777246); lra).
  rewrite Ratan2_right by lra.
  assert (Hu : 0.21025577 <= (- sl * ce - - tb * se) / cl <= 0.21025701)
    by (apply (quotient_between _ _ 0.20355702 0.20355816 0.96813971 0.96813998); lra).
  assert (Hat : 0.20723704 <= atan ((- sl * ce - - tb * se) / cl) <= 0.20723844).
  { apply (atan_between _ 0.21025577 0.21025701); [lra | lra | lra | lra | exact Hu | | |];
      unfold sin_hi, sin_lo, cos_hi, cos_lo; simpl pow; lra. }
  replace ((sl * ce - tb * se) / cl)
    with (- ((- sl * ce - - tb * se) / cl)) by (field; lra).
  rewrite atan_opp.
  rewrite (Rlimit_in_turn (-1)) by lra.
  lra.
Qed.

Lemma hour_angle_iterate_2 (T : R) :
  10.09743421 <= T <= 10.09744041 ->
  0.00633413 <= Rhour_angle linear_greenwich T 0.4 <= 0.00638705.
Proof.
  intros HT.
  pose proof Enclosures.rad_tight as [Hr1 Hr2].
  assert (HPI : PI = 180 * rad) by (unfold rad; field).
  assert (HrT : 0.17623346 <= rad * T <= 0.17623359)
    by (apply (product_between rad T 0.017453292 0.017453293 10.09743421 10.09744041); lra).
  assert (HyM : 0.05434957 <= - (Rmean_anomaly T - 3 * (PI / 2)) <= 0.05435141)
    by (unfold Rmean_anomaly; lra).
  assert (HcM : 0.99852332 <= - sin (Rmean_anomaly T) <= 0.99852343).
  { rewrite (sin_about_three_halves_PI (Rmean_anomaly T)), Ropp_involutive, <- cos_neg.
    apply (cos_between _ 0.05434957 0.05435141); [exact HyM | lra | lra | |];
      unfold cos_lo, cos_hi, cos_lo; simpl pow; lra. }
  assert (HyF : 0.75302954 <= - (Rmean_distance T - 3 * (PI / 2)) <= 0.75303145)
    by (unfold Rmean_distance; lra).
  assert (HcF : 0.7296166 <= - sin (Rmean_distance T) <= 0.72962048).
  { rewrite (sin_about_three_halves_PI (Rmean_distance T)), Ropp_involutive,
      <- cos_neg.
    apply (cos_between _ 0.75302954 0.75303145); [exact HyF | lra | lra | |];
      unfold cos_lo, cos_hi, cos_lo; simpl pow; lra. }
  assert (HrF : 0.01273421 <= rad * - sin (Rmean_distance T) <= 0.01273429)
    by (apply (product_between rad _ 0.017453292 0.017453293 0.7296166 0.72962048); lra).
  assert (Hnb : 0.06530102 <= - Rlatitude T <= 0.06530144).
  { replace (- Rlatitude T) with (5.128 * (rad * - sin (Rmean_distance T)))
      by (unfold Rlatitude; ring).
    lra. }
  assert (Hnsb : 0.06525462 <= - sin (Rlatitude T) <= 0.06525504).
  { rewrite <- sin_neg.
    apply (sin_between _ 0.06530102 0.06530144); [exact Hnb | lra | lra | |];
      unfold sin_hi, sin_lo; simpl pow; lra. }
  assert (Hcb : 0.99786861 <= cos (Rlatitude T) <= 0.99786865).
  { rewrite <- cos_neg.
    apply (cos_between _ 0.06530102 0.06530144); [exact Hnb | lra | lra | |];
      unfold cos_lo, cos_hi, cos_lo; simpl pow; lra. }
  assert (Hntb : 0.06539399 <= - tan (Rlatitude T) <= 0.06539443).
  { replace (- tan (Rlatitude T))
      with (- sin (Rlatitude T) / cos (Rlatitude T))
      by (unfold tan; field; lra).
    apply (quotient_between _ _ 0.06525462 0.06525504 0.99786861 0.99786865); lra. }
  assert (He : 0.40908764 <= Robliquity T <= 0.40908768)
    by (unfold Robliquity; lra).
  assert (Hse : 0.39777241 <= sin (Robliquity T) <= 0.39777246)
    by (apply (sin_between _ 0.40908764 0.40908768); [exact He | lra | lra | |];
        unfold sin_hi, sin_lo; simpl pow; lra).
  assert (Hce : 0.91748408 <= cos (Robliquity T) <= 0.91748412)
    by (apply (cos_between _ 0.40908764 0.40908768); [exact He | lra | lra | |];
        unfold cos_lo, cos_hi, cos_lo; simpl pow; lra).
  assert (HrM : 0.01742751 <= rad * - sin (Rmean_anomaly T) <= 0.01742753)
    by (apply (product_between rad _ 0.017453292 0.017453293 0.99852332 0.99852343); lra).
  assert (HyL : 0.26033026 <= 2 * PI - Rlongitude T <= 0.26033225).
  { replace (2 * PI - Rlongitude T)
      with (2 * PI - 218.316 * rad - 13.176396 * (rad * T)
            + 6.289 * (rad * - sin (Rmean_anomaly T)))
      by (unfold Rlongitude; ring).
    lra. }
  assert (Hnsl : 0.25739969 <= - sin (Rlongitude T) <= 0.25740163).
  { rewrite (sin_two_PI_minus (Rlongitude T)), Ropp_involutive.
    apply (sin_between _ 0.26033026 0.26033225); [exact HyL | lra | lra | |];
      unfold sin_hi, sin_lo; simpl pow; lra. }
  assert (Hcl : 0.9663045 <= cos (Rlongitude T) <= 0.96630503).
  { rewrite (cos_two_PI_minus (Rlongitude T)).
    apply (cos_between _ 0.26033026 0.26033225); [exact HyL | lra | lra | |];
      unfold cos_lo, cos_hi, cos_lo; simpl pow; lra. }
  assert (Hlst : Rlimit (linear_greenwich T + 0.4)
                 = linear_greenwich T + 0.4 - IZR 10 * (2 * PI))
    by (apply Rlimit_in_turn; unfold linear_greenwich; lra).
  unfold Rhour_angle, Rright_ascension. rewrite Hlst.
  unfold linear_greenwich.
  set (tb := tan (Rlatitude T)) in *.
  set (se := sin (Robliquity T)) in *. set (ce := cos (Robliquity T)) in *.
  set (sl := sin (Rlongitude T)) in *. set (cl := cos (Rlongitude T)) in *.
  assert (Hp1 : 0.23616011 <= - sl * ce <= 0.23616191)
    by (apply (product_between (- sl) ce 0.25739969 0.25740163 0.91748408 0.91748412); lra).
  assert (Hp2 : 0.02601192 <= - tb * se <= 0.02601211)
    by (apply (product_between (- tb) se 0.06539399 0.06539443 0.39777241 0.39777246); lra).
  rewrite Ratan2_right by lra.
  assert (Hu : 0.21747584 <= (- sl * ce - - tb * se) / cl <= 0.21747803)
    by (apply (quotient_between _ _ 0.210148 0.21014999 0.9663045 0.96630503); lra).
  assert (Hat : 0.2141413 <= atan ((- sl * ce - - tb * se) / cl) <= 0.2141436).
  { apply (atan_between _ 0.21747584 0.21747803); [lra | lra | lra | lra | exact Hu | | |];
      unfold sin_hi, sin_lo, cos_hi, cos_lo; simpl pow; lra. }
  replace ((sl * ce - tb * se) / cl)
    with (- ((- sl * ce - - tb * se) / cl)) by (field; lra).
  rewrite atan_opp.
  rewrite (Rlimit_in_turn (-1)) by lra.
  lra.
Qed.

Lemma hour_angle_iterate_3 (T : R) :
  10.09641768 <= T <= 10.0964323 ->
  0.00015044 <= Rhour_angle linear_greenwich T 0.4 <= 0.00025938.
Proof.
  intros HT.
  pose proof Enclosures.rad_tight as [Hr1 Hr2].
  assert (HPI : PI = 180 * rad) by (unfold rad; field).
  assert (HrT : 0.17621572 <= rad * T <= 0.176216)
    by (apply (product_between rad T 0.017453292 0.017453293 10.09641768 10.0964323); lra).
  assert (HyM : 0.05457938 <= - (Rmean_anomaly T - 3 * (PI / 2)) <= 0.05458318)
    by (unfold Rmean_anomaly; lra).
  assert (HcM : 0.9985107 <= - sin (Rmean_anomaly T) <= 0.99851092).
  { rewrite (sin_about_three_halves_PI (Rmean_anomaly T)), Ropp_involutive, <- cos_neg.
    apply (cos_between _ 0.05457938 0.05458318); [exact HyM | lra | lra | |];
      unfold cos_lo, cos_hi, cos_lo; simpl pow; lra. }
  assert (HyF : 0.75326224 <= - (Rmean_distance T - 3 * (PI / 2)) <= 0.75326613)
    by (unfold Rmean_distance; lra).
  assert (HcF : 0.72945609 <= - sin (Rmean_distance T) <= 0.72946133).
  { rewrite (sin_about_three_halves_PI (Rmean_distance T)), Ropp_involutive,
      <- cos_neg.
    apply (cos_between _ 0.75326224 0.75326613); [exact HyF | lra | lra | |];
      unfold cos_lo, cos_hi, cos_lo; simpl pow; lra. }
  assert (HrF : 0.01273141 <= rad * - sin (Rmean_distance T) <= 0.01273151)
    by (apply (product_between rad _ 0.017453292 0.017453293 0.72945609 0.72946133); lra).
  assert (Hnb : 0.06528667 <= - Rlatitude T <= 0.06528719).
  { replace (- Rlatitude T) with (5.128 * (rad * - sin (Rmean_distance T)))
      by (unfold Rlatitude; ring).
    lra. }
  assert (Hnsb : 0.0652403 <= - sin (Rlatitude T) <= 0.06524082).
  { rewrite <- sin_neg.
    apply (sin_between _ 0.06528667 0.06528719); [exact Hnb | lra | lra | |];
      unfold sin_hi, sin_lo; simpl pow; lra. }
  assert (Hcb : 0.99786954 <= cos (Rlatitude T) <= 0.99786959).
  { rewrite <- cos_neg.
    apply (cos_between _ 0.06528667 0.06528719); [exact Hnb | lra | lra | |];
      unfold cos_lo, cos_hi, cos_lo; simpl pow; lra. }
  assert (Hntb : 0.06537958 <= - tan (Rlatitude T) <= 0.06538011).
  { replace (- tan (Rlatitude T))
      with (- sin (Rlatitude T) / cos (Rlatitude T))
      by (unfold tan; field; lra).
    apply (quotient_between _ _ 0.0652403 0.06524082 0.99786954 0.99786959); lra. }
  assert (He : 0.40908764 <= Robliquity T <= 0.40908768)
    by (unfold Robliquity; lra).
  assert (Hse : 0.39777241 <= sin (Robliquity T) <= 0.39777246)
    by (apply (sin_between _ 0.40908764 0.40908768); [exact He | lra | lra | |];
        unfold sin_hi, sin_lo; simpl pow; lra).
  assert (Hce : 0.91748408 <= cos (Robliquity T) <= 0.91748412)
    by (apply (cos_between _ 0.40908764 0.40908768); [exact He | lra | lra | |];
        unfold cos_lo, cos_hi, cos_lo; simpl pow; lra).
  assert (HrM : 0.01742729 <= rad * - sin (Rmean_anomaly T) <= 0.01742731)
    by (apply (product_between rad _ 0.017453292 0.017453293 0.9985107 0.99851092); lra).
  assert (HyL : 0.26056065 <= 2 * PI - Rlongitude T <= 0.26056461).
  { replace (2 * PI - Rlongitude T)
      with (2 * PI - 218.316 * rad - 13.176396 * (rad * T)
            + 6.289 * (rad * - sin (Rmean_anomaly T)))
      by (unfold Rlongitude; ring).
    lra. }
  assert (Hnsl : 0.25762231 <= - sin (Rlongitude T) <= 0.25762615).
  { rewrite (sin_two_PI_minus (Rlongitude T)), Ropp_involutive.
    apply (sin_between _ 0.26056065 0.26056461); [exact HyL | lra | lra | |];
      unfold sin_hi, sin_lo; simpl pow; lra. }
  assert (Hcl : 0.96624467 <= cos (Rlongitude T) <= 0.9662457).
  { rewrite (cos_two_PI_minus (Rlongitude T)).
    apply (cos_between _ 0.26056065 0.26056461); [exact HyL | lra | lra | |];
      unfold cos_lo, cos_hi, cos_lo; simpl pow; lra. }
  assert (Hlst : Rlimit (linear_greenwich T + 0.4)
                 = linear_greenwich T + 0.4 - IZR 10 * (2 * PI))
    by (apply Rlimit_in_turn; unfold linear_greenwich; lra).
  unfold Rhour_angle, Rright_ascension. rewrite Hlst.
  unfold linear_greenwich.
  set (tb := tan (Rlatitude T)) in *.
  set (se := sin (Robliquity T)) in *. set (ce := cos (Robliquity T)) in *.
  set (sl := sin (Rlongitude T)) in *. set (cl := cos (Rlongitude T)) in *.
  assert (Hp1 : 0.23636436 <= - sl * ce <= 0.23636791)
    by (apply (product_between (- sl) ce 0.25762231 0.25762615 0.91748408 0.91748412); lra).
  assert (Hp2 : 0.02600619 <= - tb * se <= 0.02600641)
    by (apply (product_between (- tb) se 0.06537958 0.06538011 0.39777241 0.39777246); lra).
  rewrite Ratan2_right by lra.
  assert (Hu : 0.21770647 <= (- sl * ce - - tb * se) / cl <= 0.21771062)
    by (apply (quotient_between _ _ 0.21035795 0.21036172 0.96624467 0.9662457); lra).
  assert (Hat : 0.2143615 <= atan ((- sl * ce - - tb * se) / cl) <= 0.21436567).
  { apply (atan_between _ 0.21770647 0.21771062); [lra | lra | lra | lra | exact Hu | | |];
      unfold sin_hi, sin_lo, cos_hi, cos_lo; simpl pow; lra. }
  replace ((sl * ce - tb * se) / cl)
    with (- ((- sl * ce - - tb * se) / cl)) by (field; lra).
  rewrite atan_opp.
  rewrite (Rlimit_in_turn (-1)) by lra.
  lra.
Qed.

Lemma hour_angle_iterate_4 (T : R) :
  10.0963764 <= T <= 10.09640835 ->
  (-0.00010422) <= Rhour_angle linear_greenwich T 0.4 <= 0.0001168.
Proof.
  intros HT.
  pose proof Enclosures.rad_tight as [Hr1 Hr2].
  assert (HPI : PI = 180 * rad) by (unfold rad; field).
  assert (HrT : 0.176215 <= rad * T <= 0.17621558)
    by (apply (product_between rad T 0.017453292 0.017453293 10.0963764 10.09640835); lra).
  assert (HyM : 0.05458487 <= - (Rmean_anomaly T - 3 * (PI / 2)) <= 0.05459259)
    by (unfold Rmean_anomaly; lra).
  assert (HcM : 0.99851019 <= - sin (Rmean_anomaly T) <= 0.99851062).
  { rewrite (sin_about_three_halves_PI (Rmean_anomaly T)), Ropp_involutive, <- cos_neg.
    apply (cos_between _ 0.05458487 0.05459259); [exact HyM | lra | lra | |];
      unfold cos_lo, cos_hi, cos_lo; simpl pow; lra. }
  assert (HyF : 0.7532678 <= - (Rmean_distance T - 3 * (PI / 2)) <= 0.75327566)
    by (unfold Rmean_distance; lra).
  assert (HcF : 0.72944957 <= - sin (Rmean_distance T) <= 0.72945753).
  { rewrite (sin_about_three_halves_PI (Rmean_distance T)), Ropp_involutive,
      <- cos_neg.
    apply (cos_between _ 0.7532678 0.75327566); [exact HyF | lra | lra | |];
      unfold cos_lo, cos_hi, cos_lo; simpl pow; lra. }
  assert (HrF : 0.01273129 <= rad * - sin (Rmean_distance T) <= 0.01273144)
    by (apply (product_between rad _ 0.017453292 0.017453293 0.72944957 0.72945753); lra).
  assert (Hnb : 0.06528605 <= - Rlatitude T <= 0.06528683).
  { replace (- Rlatitude T) with (5.128 * (rad * - sin (Rmean_distance T)))
      by (unfold Rlatitude; ring).
    lra. }
  assert (Hnsb : 0.06523968 <= - sin (Rlatitude T) <= 0.06524047).
  { rewrite <- sin_neg.
    apply (sin_between _ 0.06528605 0.06528683); [exact Hnb | lra | lra | |];
      unfold sin_hi, sin_lo; simpl pow; lra. }
  assert (Hcb : 0.99786957 <= cos (Rlatitude T) <= 0.99786963).
  { rewrite <- cos_neg.
    apply (cos_between _ 0.06528605 0.06528683); [exact Hnb | lra | lra | |];
      unfold cos_lo, cos_hi, cos_lo; simpl pow; lra. }
  assert (Hntb : 0.06537896 <= - tan (Rlatitude T) <= 0.06537976).
  { replace (- tan (Rlatitude T))
      with (- sin (Rlatitude T) / cos (Rlatitude T))
      by (unfold tan; field; lra).
    apply (quotient_between _ _ 0.06523968 0.06524047 0.99786957 0.99786963); lra. }
  assert (He : 0.40908764 <= Robliquity T <= 0.40908768)
    by (unfold Robliquity; lra).
  assert (Hse : 0.39777241 <= sin (Robliquity T) <= 0.39777246)
    by (apply (sin_between _ 0.40908764 0.40908768); [exact He | lra | lra | |];
        unfold sin_hi, sin_lo; simpl pow; lra).
  assert (Hce : 0.91748408 <= cos (Robliquity T) <= 0.91748412)
    by (apply (cos_between _ 0.40908764 0.40908768); [exact He | lra | lra | |];
        unfold cos_lo, cos_hi, cos_lo; simpl pow; lra).
  assert (HrM : 0.01742728 <= rad * - sin (Rmean_anomaly T) <= 0.0174273)
    by (apply (product_between rad _ 0.017453292 0.017453293 0.99851019 0.99851062); lra).
  assert (HyL : 0.26056612 <= 2 * PI - Rlongitude T <= 0.26057404).
  { replace (2 * PI - Rlongitude T)
      with (2 * PI - 218.316 * rad - 13.176396 * (rad * T)
            + 6.289 * (rad * - sin (Rmean_anomaly T)))
      by (unfold Rlongitude; ring).
    lra. }
  assert (Hnsl : 0.2576276 <= - sin (Rlongitude T) <= 0.25763526).
  { rewrite (sin_two_PI_minus (Rlongitude T)), Ropp_involutive.
    apply (sin_between _ 0.26056612 0.26057404); [exact HyL | lra | lra | |];
      unfold sin_hi, sin_lo; simpl pow; lra. }
  assert (Hcl : 0.96624224 <= cos (Rlongitude T) <= 0.96624429).
  { rewrite (cos_two_PI_minus (Rlongitude T)).
    apply (cos_between _ 0.26056612 0.26057404); [exact HyL | lra | lra | |];
      unfold cos_lo, cos_hi, cos_lo; simpl pow; lra. }
  assert (Hlst : Rlimit (linear_greenwich T + 0.4)
                 = linear_greenwich T + 0.4 - IZR 10 * (2 * PI))
    by (apply Rlimit_in_turn; unfold linear_greenwich; lra).
  unfold Rhour_angle, Rright_ascension. rewrite Hlst.
  unfold linear_greenwich.
  set (tb := tan (Rlatitude T)) in *.
  set (se := sin (Robliquity T)) in *. set (ce := cos (Robliquity T)) in *.
  set (sl := sin (Rlongitude T)) in *. set (cl := cos (Rlongitude T)) in *.
  assert (Hp1 : 0.23636922 <= - sl * ce <= 0.23637626)
    by (apply (product_between (- sl) ce 0.2576276 0.25763526 0.91748408 0.91748412); lra).
  assert (Hp2 : 0.02600594 <= - tb * se <= 0.02600627)
    by (apply (product_between (- tb) se 0.06537896 0.06537976 0.39777241 0.39777246); lra).
  rewrite Ratan2_right by lra.
  assert (Hu : 0.21771197 <= (- sl * ce - - tb * se) / cl <= 0.21772007)
    by (apply (quotient_between _ _ 0.21036295 0.21037032 0.96624224 0.96624429); lra).
  assert (Hat : 0.21436675 <= atan ((- sl * ce - - tb * se) / cl) <= 0.2143747).
  { apply (atan_between _ 0.21771197 0.21772007); [lra | lra | lra | lra | exact Hu | | |];
      unfold sin_hi, sin_lo, cos_hi, cos_lo; simpl pow; lra. }
  replace ((sl * ce - tb * se) / cl)
    with (- ((- sl * ce - - tb * se) / cl)) by (field; lra).
  rewrite atan_opp.
  rewrite (Rlimit_in_turn (-1)) by lra.
  lra.
Qed.

End HourAngleBounds.

Module EarlyTransit.
Import lunar.

(** One step of the refinement, from an enclosure of the current estimate
    and an enclosure of the hour angle around the projected instant. *)
Lemma iterative_between (greenwich : R -> R)
    (t lon h hl hh ql qh al ah : R) :
  0 <= hl -> hl <= h <= hh ->
  ql <= hl * 0.15915494 -> hh * 0.15915495 <= qh ->
  (forall T : R,
     t - qh <= T <= t - ql -> al <= Rhour_angle greenwich T lon <= ah) ->
  hl + al <= Rhour_angle_iterative greenwich t lon h <= hh + ah.
Proof.
  intros Hhl Hh Hql Hqh Hha.
  pose proof HourAngleBounds.inv_two_PI as [Hi1 Hi2].
  assert (Hq : ql <= h / (2 * PI) <= qh).
  { unfold Rdiv.
    apply (Enclosures.product_between h (/ (2 * PI)) hl hh
             0.15915494 0.15915495); lra. }
  unfold Rhour_angle_iterative.
  pose proof (Hha (t - h / (2 * PI)) ltac:(lra)). lra.
Qed.

(** A day after the instant 10.115, at longitude 0.4 rad under the linear
    sidereal clock, the hour angle is 6.195; the four refinement steps
    project to the instants 10.1290, 10.0974, 10.0964 and 10.0964 and raise
    the estimate to 6.400, more than a full turn. *)
Lemma refined_hour_angle_a_day_ahead :
  6.399896
  <= Nat.iter 4 (Rhour_angle_iterative linear_greenwich (10.115 + 24 / 24) 0.4)
       (Rhour_angle linear_greenwich (10.115 + 24 / 24) 0.4)
  <= 6.40031733.
Proof.
  unfold Nat.iter. cbn [nat_rect].
  pose proof (HourAngleBounds.hour_angle_a_day_ahead (10.115 + 24 / 24)
                ltac:(lra)) as H0.
  set (h0 := Rhour_angle linear_greenwich (10.115 + 24 / 24) 0.4) in *.
  assert (H1 : 6.39351565
               <= Rhour_angle_iterative linear_greenwich (10.115 + 24 / 24)
                    0.4 h0
               <= 6.3935541).
  { pose proof (iterative_between linear_greenwich (10.115 + 24 / 24) 0.4 h0
                  6.19496972 6.19498142 0.98596003 0.98596196
                  0.19854593 0.19857268 ltac:(lra) H0 ltac:(lra) ltac:(lra))
      as H.
    assert (Hs : forall T : R,
               10.115 + 24 / 24 - 0.98596196 <= T
               <= 10.115 + 24 / 24 - 0.98596003 ->
               0.19854593 <= Rhour_angle linear_greenwich T 0.4
               <= 0.19857268)
      by (intros T HT; apply HourAngleBounds.hour_angle_iterate_1; lra).
    specialize (H Hs). lra. }
  set (h1 := Rhour_angle_iterative linear_greenwich (10.115 + 24 / 24) 0.4 h0)
    in *.
  assert (H2 : 6.39984978
               <= Rhour_angle_iterative linear_greenwich (10.115 + 24 / 24)
                    0.4 h1
               <= 6.39994115).
  { pose proof (iterative_between linear_greenwich (10.115 + 24 / 24) 0.4 h1
                  6.39351565 6.3935541 1.01755959 1.01756579
                  0.00633413 0.00638705 ltac:(lra) H1 ltac:(lra) ltac:(lra))
      as H.
    assert (Hs : forall T : R,
               10.115 + 24 / 24 - 1.01756579 <= T
               <= 10.115 + 24 / 24 - 1.01755959 ->
               0.00633413 <= Rhour_angle linear_greenwich T 0.4
               <= 0.00638705)
      by (intros T HT; apply HourAngleBounds.hour_angle_iterate_2; lra).
    specialize (H Hs). lra. }
  set (h2 := Rhour_angle_iterative linear_greenwich (10.115 + 24 / 24) 0.4 h1)
    in *.
  assert (H3 : 6.40000022
               <= Rhour_angle_iterative linear_greenwich (10.115 + 24 / 24)
                    0.4 h2
               <= 6.40020053).
  { pose proof (iterative_between linear_greenwich (10.115 + 24 / 24) 0.4 h2
                  6.39984978 6.39994115 1.0185677 1.01858232
                  0.00015044 0.00025938 ltac:(lra) H2 ltac:(lra) ltac:(lra))
      as H.
    assert (Hs : forall T : R,
               10.115 + 24 / 24 - 1.01858232 <= T
               <= 10.115 + 24 / 24 - 1.0185677 ->
               0.00015044 <= Rhour_angle linear_greenwich T 0.4
               <= 0.00025938)
      by (intros T HT; apply HourAngleBounds.hour_angle_iterate_3; lra).
    specialize (H Hs). lra. }
  set (h3 := Rhour_angle_iterative linear_greenwich (10.115 + 24 / 24) 0.4 h2)
    in *.
  pose proof (iterative_between linear_greenwich (10.115 + 24 / 24) 0.4 h3
                6.40000022 6.40020053 1.01859165 1.0186236
                (-0.00010422) 0.0001168 ltac:(lra) H3 ltac:(lra) ltac:(lra))
    as H.
  assert (Hs : forall T : R,
             10.115 + 24 / 24 - 1.0186236 <= T
             <= 10.115 + 24 / 24 - 1.01859165 ->
             (-0.00010422) <= Rhour_angle linear_greenwich T 0.4
             <= 0.0001168)
    by (intros T HT; apply HourAngleBounds.hour_angle_iterate_4; lra).
  specialize (H Hs). lra.
Qed.

(** The backward search from a day ahead overshoots the query instant: its
    result, about 10.0964, passes the only test made on it (not later than
    11.115) and is returned. *)
Lemma _transit_example (lat : num) :
  exists r : R,
    _transit linear_greenwich (Fin 10.115) lat (Fin 0.4) = Fin r
    /\ 10.096 < r < 10.097.
Proof.
  pose proof refined_hour_angle_a_day_ahead as Hh.
  pose proof HourAngleBounds.inv_two_PI as [Hi1 Hi2].
  unfold _transit. cbv zeta.
  rewrite TransitFacts._hours_later_fin.
  rewrite HourAngleBounds._hour_angle_refined_real.
  rewrite AngleFacts.transit_direct_fin.
  set (h := Nat.iter 4 _ _) in *.
  assert (Hq : 1.0185 <= h / (2 * PI) <= 1.0187).
  { unfold Rdiv.
    apply (Enclosures.product_between h (/ (2 * PI)) 6.399896 6.40031733
             0.15915494 0.15915495); lra. }
  cbn [Js.le].
  replace (Js.Rleb (10.115 + 24 / 24 - h / (2 * PI)) (10.115 + 24 / 24))
    with true by (symmetry; apply JsFacts.Rleb_true; lra).
  eexists. split; [reflexivity | lra].
Qed.

End EarlyTransit.

Module TransitClaims.
Import lunar.

(** C2, as stated, does not hold: the backward search is accepted when its
    result is not later than t + 24h, with no test against t.  Under the
    linear sidereal clock, for t = 10.115 and the longitude 0.4 rad the
    hour angle a day ahead refines to 6.400, more than a full turn, and the
    instant returned, about 10.0964, is earlier than t. *)
Lemma transit_before_the_window :
  exists r : R,
    _transit linear_greenwich (Fin 10.115) (Fin 0) (Fin 0.4) = Fin r
    /\ r < 10.115.
Proof.
  destruct (EarlyTransit._transit_example (Fin 0)) as [r [Hr Hlt]].
  exists r. split; [exact Hr | lra].
Qed.

(** C2, amended: the solver first searches backward from t + 24h and
    accepts that result when it is not later than t + 24h (no lower bound
    is tested); otherwise it searches forward from t and accepts that
    result when it is not earlier than t (no upper bound is tested); it
    returns NaN exactly when neither test succeeds.  A finite result is the
    accepted one of the two; it can be the instant t + 24h itself, and it
    can be earlier than t. *)
Theorem transit_selection (greenwich : R -> R) (t lat lon : num) :
  let later_t := _hours_later t 24 in
  let first :=
    _transit_direct later_t (_hour_angle_refined greenwich later_t lon) in
  let second := _transit_direct t (_hour_angle_refined greenwich t lon) in
  _transit greenwich t lat lon
  = (if Js.le first later_t then first
     else if Js.ge second t then second else NaN)
  /\ (_transit greenwich t lat lon = NaN
      <-> Js.le first later_t = false /\ Js.ge second t = false)
  /\ (forall r : R,
        _transit greenwich t lat lon = Fin r ->
        (first = Fin r /\ Js.le first later_t = true)
        \/ (second = Fin r /\ Js.le first later_t = false
            /\ Js.ge second t = true))
  /\ (forall tr : R,
        exists lon' : R,
          _transit greenwich (Fin tr) lat (Fin lon') = Fin (tr + 24 / 24))
  /\ (exists r : R,
        _transit linear_greenwich (Fin 10.115) lat (Fin 0.4) = Fin r
        /\ 10.096 < r < 10.097).
Proof.
  intros later_t first second.
  assert (Hdef : _transit greenwich t lat lon
                 = (if Js.le first later_t then first
                    else if Js.ge second t then second else NaN))
    by reflexivity.
  split; [exact Hdef |]. rewrite Hdef.
  split; [| split; [| split]].
  - destruct (Js.le first later_t) eqn:H1.
    + apply TransitFacts.le_not_NaN in H1.
      split; intros H; [tauto | destruct H; discriminate].
    + destruct (Js.ge second t) eqn:H2.
      * unfold Js.ge in H2. apply TransitFacts.le_not_NaN in H2.
        split; intros H; [tauto | destruct H; discriminate].
      * tauto.
  - intros r Hr.
    destruct (Js.le first later_t); [left; tauto |].
    destruct (Js.ge second t); [right; tauto | discriminate].
  - intros tr. apply TransitFacts._transit_at_window_end.
  - apply EarlyTransit._transit_example.
Qed.

End TransitClaims.

(** * Further properties of the code *)

(** ** Angles and the transit solver *)

Module AngleProperties.
Import lunar.

Lemma Rhour_angle_range (greenwich : R -> R) (t lon : R) :
  - (2 * PI) < Rhour_angle greenwich t lon < 2 * PI.
Proof.
  unfold Rhour_angle.
  pose proof (AngleFacts.Rlimit_range (greenwich t + lon)).
  pose proof (AngleFacts.Rlimit_range (Rright_ascension t)).
  lra.
Qed.

Lemma Rhour_angle_iterative_range (greenwich : R -> R) (t lon h : R) :
  h - 2 * PI < Rhour_angle_iterative greenwich t lon h < h + 2 * PI.
Proof.
  unfold Rhour_angle_iterative.
  pose proof (Rhour_angle_range greenwich (t - h / (2 * PI)) lon). lra.
Qed.

Lemma refined_range (greenwich : R -> R) (t lon : R) :
  - (5 * (2 * PI))
  < Nat.iter 4 (Rhour_angle_iterative greenwich t lon)
      (Rhour_angle greenwich t lon)
  < 5 * (2 * PI).
Proof.
  unfold Nat.iter. cbn [nat_rect].
  pose proof (Rhour_angle_range greenwich t lon) as H0.
  set (h0 := Rhour_angle greenwich t lon) in *.
  pose proof (Rhour_angle_iterative_range greenwich t lon h0) as H1.
  set (h1 := Rhour_angle_iterative greenwich t lon h0) in *.
  pose proof (Rhour_angle_iterative_range greenwich t lon h1) as H2.
  set (h2 := Rhour_angle_iterative greenwich t lon h1) in *.
  pose proof (Rhour_angle_iterative_range greenwich t lon h2) as H3.
  set (h3 := Rhour_angle_iterative greenwich t lon h2) in *.
  pose proof (Rhour_angle_iterative_range greenwich t lon h3) as H4.
  lra.
Qed.

Lemma projected_range (t h : R) :
  - (5 * (2 * PI)) < h < 5 * (2 * PI) -> t - 5 < t - h / (2 * PI) < t + 5.
Proof.
  intros [H1 H2]. pose proof PI_RGT_0 as Hpi.
  assert (Hq : - 5 < h / (2 * PI) < 5).
  { split.
    - apply Rmult_lt_reg_r with (2 * PI); [lra |].
      unfold Rdiv. rewrite Rmult_assoc, Rinv_l by lra. lra.
    - apply Rmult_lt_reg_r with (2 * PI); [lra |].
      unfold Rdiv. rewrite Rmult_assoc, Rinv_l by lra. lra. }
  lra.
Qed.

(** X2: the hour angle of a finite instant and longitude is finite and lies
    strictly between -2 pi and 2 pi, so one projection by [_transit_direct]
    moves the instant by less than a day. *)
Theorem hour_angle_within_a_turn (greenwich : R -> R) (t lon : R) :
  exists ha : R,
    _hour_angle greenwich (Fin t) (Fin lon) = Fin ha
    /\ - (2 * PI) < ha < 2 * PI
    /\ exists t1 : R,
         _transit_direct (Fin t) (Fin ha) = Fin t1 /\ t - 1 < t1 < t + 1.
Proof.
  exists (Rhour_angle greenwich t lon).
  split; [apply HourAngleBounds._hour_angle_real |].
  pose proof (Rhour_angle_range greenwich t lon) as [H1 H2].
  split; [lra |].
  eexists. split; [apply AngleFacts.transit_direct_fin |].
  pose proof PI_RGT_0 as Hpi.
  set (h := Rhour_angle greenwich t lon) in *.
  assert (Hq : - 1 < h / (2 * PI) < 1).
  { split.
    - apply Rmult_lt_reg_r with (2 * PI); [lra |].
      unfold Rdiv. rewrite Rmult_assoc, Rinv_l by lra. lra.
    - apply Rmult_lt_reg_r with (2 * PI); [lra |].
      unfold Rdiv. rewrite Rmult_assoc, Rinv_l by lra. lra. }
  lra.
Qed.

(** X3: a finite instant returned by [_transit] for a finite query [t] and
    longitude lies strictly between four days before [t] and five days
    after it: each of the five hour angles that make up a refined estimate
    is less than a turn, the backward search is accepted only up to
    t + 24h and the forward search only from [t] on. *)
Theorem transit_result_bounds (greenwich : R -> R) (t : R) (lat : num)
    (lon r : R) :
  _transit greenwich (Fin t) lat (Fin lon) = Fin r -> t - 4 < r < t + 5.
Proof.
  unfold _transit. cbv zeta.
  rewrite TransitFacts._hours_later_fin.
  rewrite !HourAngleBounds._hour_angle_refined_real.
  rewrite !AngleFacts.transit_direct_fin.
  pose proof (projected_range (t + 24 / 24) _
                (refined_range greenwich (t + 24 / 24) lon)) as Hb.
  pose proof (projected_range t _ (refined_range greenwich t lon)) as Hf.
  set (r1 := t + 24 / 24 - _ / (2 * PI)) in *.
  set (r2 := t - _ / (2 * PI)) in *.
  cbn [Js.le Js.ge].
  destruct (Js.Rleb r1 (t + 24 / 24)) eqn:E1.
  - apply JsFacts.Rleb_true in E1. intros H. injection H as <-. lra.
  - destruct (Js.Rleb t r2) eqn:E2.
    + apply JsFacts.Rleb_true in E2. intros H. injection H as <-. lra.
    + discriminate.
Qed.

Lemma transit_result_bounds_witness :
  exists r : R,
    _transit linear_greenwich (Fin 10.115) (Fin 0) (Fin 0.4) = Fin r
    /\ 10.115 - 4 < r < 10.115 + 5.
Proof.
  destruct (EarlyTransit._transit_example (Fin 0)) as [r [Hr _]].
  exists r. split; [exact Hr |].
  exact (transit_result_bounds linear_greenwich 10.115 (Fin 0) 0.4 r Hr).
Defined.

End AngleProperties.

(** ** The position series *)

Module PositionProperties.
Import lunar.

(** X6: the ecliptic latitude of a finite instant is finite and never
    exceeds [L1], 5.128 degrees, in absolute value; so is the result of the
    public [latitude] on a finite time value. *)
Theorem latitude_bounded :
  (forall t : R,
     exists b : R, _latitude (Fin t) = Fin b /\ Rabs b <= 5.128 * rad)
  /\ (forall ms : R,
        exists b : R, latitude (Fin ms) = Fin b /\ Rabs b <= 5.128 * rad).
Proof.
  assert (H : forall t : R, Rabs (Rlatitude t) <= 5.128 * rad).
  { intros t. unfold Rlatitude.
    pose proof (SIN_bound (Rmean_distance t)) as [Hs1 Hs2].
    pose proof PositionFacts.rad_pos as Hrad.
    set (s := sin (Rmean_distance t)) in *.
    apply Rabs_le. split; nra. }
  split.
  - intros t. exists (Rlatitude t).
    split; [apply PositionFacts._latitude_fin | apply H].
  - intros ms. unfold latitude.
    rewrite PositionFacts.julian_to_fin, PositionFacts._latitude_fin.
    eexists. split; [reflexivity | apply H].
Qed.

(** X7: the distance of a finite instant lies between [D0 + D1] and
    [D0 - D1], that is between 364096 km and 405906 km expressed in
    astronomical units; so does the result of the public [distance] on a
    finite time value. *)
Theorem distance_between_perigee_and_apogee :
  (forall t : R,
     exists d : R,
       _distance (Fin t) = Fin d
       /\ 364096 / 149597870.7 <= d <= 405906 / 149597870.7)
  /\ (forall ms : R,
        exists d : R,
          distance (Fin ms) = Fin d
          /\ 364096 / 149597870.7 <= d <= 405906 / 149597870.7).
Proof.
  assert (H : forall t : R,
             364096 / 149597870.7 <= Rdistance t <= 405906 / 149597870.7).
  { intros t. unfold Rdistance.
    pose proof (COS_bound (Rmean_anomaly t)) as [Hc1 Hc2].
    set (c := cos (Rmean_anomaly t)) in *.
    lra. }
  split.
  - intros t. exists (Rdistance t).
    split; [apply PositionFacts._distance_fin | apply H].
  - intros ms. unfold distance.
    rewrite PositionFacts.julian_to_fin, PositionFacts._distance_fin.
    eexists. split; [reflexivity | apply H].
Qed.

End PositionProperties.

(** ** Equatorial coordinates *)

Module EquatorialProperties.
Import lunar.

Lemma sin_monotone (x y : R) :
  - (PI / 2) <= x -> x <= y -> y <= PI / 2 -> sin x <= sin y.
Proof.
  intros Hx Hxy Hy.
  destruct (Req_dec x y) as [-> | Hne]; [lra |].
  left. apply sin_increasing_1; lra.
Qed.

Lemma Ratan2_range (y x : R) : - PI < Js.Ratan2 y x <= PI.
Proof.
  pose proof PI_RGT_0 as Hpi.
  pose proof (atan_bound (y / x)) as [Ha1 Ha2].
  unfold Js.Ratan2.
  destruct (Rlt_dec 0 x) as [Hx | Hx]; [lra |].
  destruct (Rlt_dec x 0) as [Hx' | Hx'].
  - destruct (Rlt_dec y 0) as [Hy | Hy].
    + assert (Hq : 0 < y / x).
      { replace (y / x) with ((- y) / (- x)) by (field; lra).
        apply Rdiv_lt_0_compat; lra. }
      pose proof (atan_increasing 0 (y / x) Hq) as Hinc.
      rewrite atan_0 in Hinc. lra.
    + assert (Hq : y / x <= 0).
      { replace (y / x) with (- (y / (- x))) by (field; lra).
        assert (0 <= y / - x).
        { unfold Rdiv. apply Rmult_le_pos; [lra |].
          left. apply Rinv_0_lt_compat. lra. }
        lra. }
      assert (Hat : atan (y / x) <= 0).
      { destruct Hq as [Hq | Hq].
        - pose proof (atan_increasing (y / x) 0 Hq) as Hinc.
          rewrite atan_0 in Hinc. lra.
        - rewrite Hq, atan_0. lra. }
      lra.
  - destruct (Rlt_dec 0 y); [lra |].
    destruct (Rlt_dec y 0); lra.
Qed.

(** X10: within 36525 units of time of the epoch the declination does not
    exceed 28.6 degrees in absolute value: the obliquity stays below
    23.46 degrees and the latitude below 5.128. *)
Theorem declination_bounded (t : R) :
  -36525 <= t <= 36525 ->
  exists d : R,
    _declination (Fin t) = Fin d /\ - (28.6 * rad) <= d <= 28.6 * rad.
Proof.
  intros Ht. exists (asin (Rsin_declination t)).
  split; [apply ElevationFacts._declination_fin |].
  pose proof Enclosures.rad_tight as [Hr1 Hr2].
  pose proof Trig.PI_bounds as [Hp1 Hp2].
  assert (HPI : PI = 180 * rad) by (unfold rad; field).
  pose proof (ElevationFacts.Rsin_declination_range t) as Hrange.
  assert (Hb : - (5.128 * rad) <= Rlatitude t <= 5.128 * rad).
  { unfold Rlatitude.
    pose proof (SIN_bound (Rmean_distance t)) as [Hs1 Hs2].
    set (s := sin (Rmean_distance t)) in *. split; nra. }
  assert (He : 23.42 * rad <= Robliquity t <= 23.46 * rad).
  { unfold Robliquity. split; nra. }
  assert (Hcb : 0 <= cos (Rlatitude t)) by (apply cos_ge_0; lra).
  assert (Hse : 0 <= sin (Robliquity t)) by (apply sin_ge_0; lra).
  pose proof (SIN_bound (Rlongitude t)) as [Hl1 Hl2].
  assert (Hprod : 0 <= cos (Rlatitude t) * sin (Robliquity t))
    by (apply Rmult_le_pos; assumption).
  assert (Hup : Rsin_declination t <= sin (Rlatitude t + Robliquity t)).
  { rewrite sin_plus. unfold Rsin_declination.
    set (p := cos (Rlatitude t) * sin (Robliquity t)) in *.
    set (sl := sin (Rlongitude t)) in *. nra. }
  assert (Hlo : sin (Rlatitude t - Robliquity t) <= Rsin_declination t).
  { rewrite sin_minus. unfold Rsin_declination.
    set (p := cos (Rlatitude t) * sin (Robliquity t)) in *.
    set (sl := sin (Rlongitude t)) in *. nra. }
  split.
  - apply Trig.asin_lower; [exact Hrange | lra |].
    apply Rle_trans with (sin (Rlatitude t - Robliquity t)); [| exact Hlo].
    apply sin_monotone; lra.
  - apply Trig.asin_upper; [exact Hrange | lra |].
    apply Rle_trans with (sin (Rlatitude t + Robliquity t)); [exact Hup |].
    apply sin_monotone; lra.
Qed.

Lemma declination_bounded_witness :
  -36525 <= 0 <= 36525
  /\ exists d : R,
       _declination (Fin 0) = Fin d /\ - (28.6 * rad) <= d <= 28.6 * rad.
Proof. split; [lra | apply (declination_bounded 0); lra]. Defined.

(** X11: on finite arguments [_right_ascension_direct] is finite and lies in
    (-pi, pi]: it is what [Math.atan2] returns and is not reduced to
    [0, 2 pi). *)
Theorem right_ascension_range :
  (forall lat lon obl : R,
     exists a : R,
       _right_ascension_direct (Fin lat) (Fin lon) (Fin obl) = Fin a
       /\ - PI < a <= PI)
  /\ (forall t : R,
        exists a : R, _right_ascension (Fin t) = Fin a /\ - PI < a <= PI).
Proof.
  split.
  - intros lat lon obl. eexists. split; [reflexivity |].
    apply Ratan2_range.
  - intros t. exists (Rright_ascension t).
    split; [apply HourAngleBounds._right_ascension_fin |].
    apply Ratan2_range.
Qed.

End EquatorialProperties.

(** ** Samples on a line *)

Module ParabolaProperties.
Import lunar Classification.

(** X17: three finite samples on a straight line give [a = 0]; the
    divisions by zero then leave no root within the segment, so nothing is
    recorded, also when the line crosses the threshold. *)
Theorem collinear_samples_record_nothing (h0 h1 h2 : R)
    (i moonrise moonset : num) :
  (h2 + h0) / 2 - h1 = 0 ->
  let p := fit (Fin h0) (Fin h1) (Fin h2) in
  roots (count_roots p) = 0%nat
  /\ record_events i (Fin h0) p (count_roots p) moonrise moonset
     = (moonrise, moonset).
Proof.
  intros Ha p.
  assert (Hr : roots (count_roots p) = 0%nat)
    by (apply SweepEval.count_roots_degenerate; exact Ha).
  split; [exact Hr |].
  unfold record_events. rewrite Hr. reflexivity.
Qed.

Lemma collinear_samples_record_nothing_witness :
  (1 + -1) / 2 - 0 = 0
  /\ roots (count_roots (fit (Fin (-1)) (Fin 0) (Fin 1))) = 0%nat.
Proof.
  split; [lra |].
  apply (collinear_samples_record_nothing (-1) 0 1 (Fin 0) NaN NaN). lra.
Defined.

End ParabolaProperties.

(** ** The sweep *)

Module SweepProperties.
Import lunar Classification.

Lemma record_events_keeps (i h0 : num) (p : Parabola) (r : Roots)
    (moonrise moonset : num) :
  (Js.isNaN moonrise = false ->
   fst (record_events i h0 p r moonrise moonset) = moonrise)
  /\ (Js.isNaN moonset = false ->
      snd (record_events i h0 p r moonrise moonset) = moonset).
Proof.
  unfold record_events.
  destruct (roots r) as [| [| [| n]]]; cbn [fst snd].
  - now split.
  - split; intros H.
    + rewrite H, andb_false_r. destruct (Js.isNaN moonset); reflexivity.
    + rewrite H. destruct (Js.lt h0 (Fin 0) && Js.isNaN moonrise);
        reflexivity.
  - split; intros H; rewrite H; reflexivity.
  - now split.
Qed.

(** X19: the sweep never replaces an event it has recorded: a rise (a set)
    that is not NaN when a run of iterations starts is the rise (the set)
    when it ends, so the event returned is the one of the earliest segment
    that recorded it. *)
Theorem sweep_keeps_recorded (greenwich : R -> R) (t lat lon : num)
    (indices : list Z) (st : Sweep) :
  (Js.isNaN (rise_h st) = false ->
   rise_h (sweep greenwich t lat lon indices st) = rise_h st)
  /\ (Js.isNaN (set_h st) = false ->
      set_h (sweep greenwich t lat lon indices st) = set_h st).
Proof.
  revert st. induction indices as [| i rest IH]; intros st; cbn [sweep].
  - now split.
  - rewrite SweepInvariants.segment_unfold. cbv zeta.
    set (p := fit (h0 st) (segment_h1 greenwich t lat lon i st)
                (segment_h2 greenwich t lat lon i)).
    destruct (record_events_keeps (Js.of_Z i) (h0 st) p (count_roots p)
                (rise_h st) (set_h st)) as [Hr Hs].
    destruct (found_all _).
    + cbn [rise_h set_h]. split; assumption.
    + cbn [rise_h set_h h0 h1].
      match goal with
      | |- context [sweep _ _ _ _ rest ?s] =>
          destruct (IH s) as [IHr IHs]; cbn [rise_h set_h] in IHr, IHs
      end.
      split; intros H.
      * rewrite IHr; [now apply Hr | rewrite Hr; assumption].
      * rewrite IHs; [now apply Hs | rewrite Hs; assumption].
Qed.

(** A sweep all of whose samples are NaN records nothing. *)
Lemma sweep_of_NaN (greenwich : R -> R) (t lat lon : num) :
  (forall k : Z,
     _elevation greenwich (_hours_later t (Js.of_Z k)) lat lon = NaN) ->
  forall (indices : list Z) (st : Sweep),
    h0 st = NaN -> rise_h st = NaN -> set_h st = NaN ->
    rise_h (sweep greenwich t lat lon indices st) = NaN
    /\ set_h (sweep greenwich t lat lon indices st) = NaN.
Proof.
  intros Hnan indices.
  induction indices as [| i rest IH]; intros st H0 Hr Hs; cbn [sweep].
  - now split.
  - rewrite SweepInvariants.segment_unfold. cbv zeta.
    unfold segment_h2. rewrite Hnan, H0, Hr, Hs.
    cbn [Js.sub Js.add Js.neg].
    unfold fit. cbn [Js.add Js.sub Js.neg Js.div Js.mul].
    unfold count_roots. cbn [p_d Js.ge Js.le].
    unfold record_events. cbn [roots fst snd].
    unfold found_all. cbn [rise_h set_h Js.lt andb].
    apply IH; reflexivity.
Qed.

Lemma _rise_and_set_of_NaN (greenwich : R -> R) (t lat lon : num) :
  _elevation greenwich t lat lon = NaN ->
  (forall k : Z,
     _elevation greenwich (_hours_later t (Js.of_Z k)) lat lon = NaN) ->
  _rise_and_set greenwich t lat lon = {| moonrise := NaN; moonset := NaN |}.
Proof.
  intros Hinit Hnan. rewrite SweepResults._rise_and_set_unfold. cbv zeta.
  destruct (sweep_of_NaN greenwich t lat lon Hnan loop_indices
              (initial greenwich t lat lon)) as [Hr Hs];
    try reflexivity.
  - unfold initial. cbn [h0]. rewrite Hinit. reflexivity.
  - rewrite Hr, Hs, !SweepResults._hours_later_NaN. reflexivity.
Qed.

End SweepProperties.

(** ** Times and latitudes that are not numbers *)

Module InvalidInput.
Import lunar Classification.

Lemma linear_of_nonfinite (c0 c1 : R) (t : num) :
  finite t = false -> finite (Fin c0 + Fin c1 * t)%js = false.
Proof.
  destruct t as [r | | |]; intros H; try discriminate; cbn [Js.mul].
  - unfold Js.signed_inf.
    destruct (Rlt_dec 0 c1); [reflexivity |].
    destruct (Rlt_dec c1 0); reflexivity.
  - unfold Js.signed_inf.
    destruct (Rlt_dec 0 (- c1)); [reflexivity |].
    destruct (Rlt_dec (- c1) 0); reflexivity.
  - reflexivity.
Qed.

Lemma sin_of_nonfinite (x : num) : finite x = false -> Js.sin x = NaN.
Proof. destruct x; intros H; try discriminate; reflexivity. Qed.

Lemma cos_of_nonfinite (x : num) : finite x = false -> Js.cos x = NaN.
Proof. destruct x; intros H; try discriminate; reflexivity. Qed.

Lemma mul_NaN_r (x : num) : (x * NaN)%js = NaN.
Proof. destruct x; reflexivity. Qed.

Lemma add_NaN_r (x : num) : (x + NaN)%js = NaN.
Proof. destruct x; reflexivity. Qed.

Lemma sub_NaN_r (x : num) : (x - NaN)%js = NaN.
Proof. destruct x; reflexivity. Qed.

Ltac fold_constants :=
  rewrite ?PositionFacts.RAD_fin;
  repeat match goal with
         | |- context [Js.mul (Fin ?a) (Fin ?b)] =>
             change (Js.mul (Fin a) (Fin b)) with (Fin (a * b))
         end.

Lemma _latitude_nonfinite (t : num) : finite t = false -> _latitude t = NaN.
Proof.
  intros H. unfold _latitude, _mean_distance, F0, F1.
  fold_constants.
  rewrite (sin_of_nonfinite _ (linear_of_nonfinite _ _ t H)).
  apply mul_NaN_r.
Qed.

Lemma _longitude_nonfinite (t : num) : finite t = false -> _longitude t = NaN.
Proof.
  intros H. unfold _longitude, _mean_anomaly, M0, M1.
  fold_constants.
  rewrite (sin_of_nonfinite _ (linear_of_nonfinite _ _ t H)).
  rewrite mul_NaN_r. apply add_NaN_r.
Qed.

Lemma _distance_nonfinite (t : num) : finite t = false -> _distance t = NaN.
Proof.
  intros H. unfold _distance, _mean_anomaly, M0, M1.
  fold_constants.
  rewrite (cos_of_nonfinite _ (linear_of_nonfinite _ _ t H)).
  rewrite mul_NaN_r. apply add_NaN_r.
Qed.

Lemma _declination_nonfinite (t : num) :
  finite t = false -> _declination t = NaN.
Proof.
  intros H. unfold _declination, _declination_direct.
  rewrite (_latitude_nonfinite t H). reflexivity.
Qed.

Lemma _right_ascension_nonfinite (t : num) :
  finite t = false -> _right_ascension t = NaN.
Proof.
  intros H. unfold _right_ascension, _right_ascension_direct.
  rewrite (_longitude_nonfinite t H). reflexivity.
Qed.

Section WithSidereal.
Variable greenwich : R -> R.

Lemma _hour_angle_nonfinite (t lon : num) :
  finite t = false -> _hour_angle greenwich t lon = NaN.
Proof.
  intros H. unfold _hour_angle, _hour_angle_direct.
  rewrite (_right_ascension_nonfinite t H).
  change (limit_angle NaN) with NaN. apply sub_NaN_r.
Qed.

Lemma _hour_angle_NaN (lon : num) : _hour_angle greenwich NaN lon = NaN.
Proof. now apply _hour_angle_nonfinite. Qed.

Lemma _transit_direct_NaN (t : num) : _transit_direct t NaN = NaN.
Proof. unfold _transit_direct. cbn [Js.mul]. apply sub_NaN_r. Qed.

Lemma _hour_angle_refined_nonfinite (t lon : num) :
  finite t = false -> _hour_angle_refined greenwich t lon = NaN.
Proof.
  intros H. unfold _hour_angle_refined, _hour_angle_iterative. cbv zeta.
  rewrite (_hour_angle_nonfinite t lon H).
  rewrite !_transit_direct_NaN, !_hour_angle_NaN. reflexivity.
Qed.

Lemma _hours_later_nonfinite (t : num) (hrs : R) :
  finite t = false -> finite (_hours_later t (Fin hrs)) = false.
Proof.
  unfold _hours_later. rewrite JsFacts.div_fin by lra.
  destruct t; intros H; try discriminate; reflexivity.
Qed.

Lemma _elevation_nonfinite (t lat lon : num) :
  finite t = false -> _elevation greenwich t lat lon = NaN.
Proof.
  intros H. unfold _elevation. cbv zeta.
  rewrite (_declination_nonfinite t H). cbn [Js.sin Js.cos].
  rewrite !mul_NaN_r.
  destruct (Js.cos lat); reflexivity.
Qed.

Lemma _transit_nonfinite (t lat lon : num) :
  finite t = false -> _transit greenwich t lat lon = NaN.
Proof.
  intros H. unfold _transit. cbv zeta.
  rewrite (_hour_angle_refined_nonfinite _ lon
             (_hours_later_nonfinite t 24 H)).
  rewrite (_hour_angle_refined_nonfinite t lon H).
  rewrite !_transit_direct_NaN. cbn [Js.le]. unfold Js.ge.
  destruct t; reflexivity.
Qed.

Lemma _rise_and_set_nonfinite (t lat lon : num) :
  finite t = false ->
  _rise_and_set greenwich t lat lon = {| moonrise := NaN; moonset := NaN |}.
Proof.
  intros H. apply SweepProperties._rise_and_set_of_NaN.
  - now apply _elevation_nonfinite.
  - intros k. apply _elevation_nonfinite.
    now apply _hours_later_nonfinite.
Qed.

(** X20: a time that is not finite (NaN or an infinity) makes every
    position series that takes a sine or a cosine of it NaN, and with them
    the hour angle, the elevation, the transit and both the rise and the
    set; only the obliquity, which is linear, follows the infinity. *)
Theorem nonfinite_time_gives_NaN (t lat lon : num) :
  finite t = false ->
  _latitude t = NaN /\ _longitude t = NaN /\ _distance t = NaN
  /\ _declination t = NaN /\ _right_ascension t = NaN
  /\ _hour_angle greenwich t lon = NaN
  /\ _elevation greenwich t lat lon = NaN
  /\ _transit greenwich t lat lon = NaN
  /\ _rise_and_set greenwich t lat lon = {| moonrise := NaN; moonset := NaN |}
  /\ _obliquity PInf = NInf /\ _obliquity NInf = PInf.
Proof.
  intros H.
  split; [now apply _latitude_nonfinite |].
  split; [now apply _longitude_nonfinite |].
  split; [now apply _distance_nonfinite |].
  split; [now apply _declination_nonfinite |].
  split; [now apply _right_ascension_nonfinite |].
  split; [now apply _hour_angle_nonfinite |].
  split; [now apply _elevation_nonfinite |].
  split; [now apply _transit_nonfinite |].
  split; [now apply _rise_and_set_nonfinite |].
  unfold _obliquity, E0, E1. rewrite PositionFacts.RAD_fin.
  cbn [Js.mul Js.add].
  pose proof PositionFacts.rad_pos as Hrad. unfold rad in Hrad.
  rewrite JsFacts.signed_inf_neg by lra.
  rewrite JsFacts.signed_inf_pos by lra.
  split; reflexivity.
Qed.

(** X21: a latitude that is NaN makes the elevation NaN at every instant,
    and the sweep then records nothing: the rise and the set are NaN. *)
Theorem NaN_latitude_gives_NaN (t lon : num) :
  _elevation greenwich t NaN lon = NaN
  /\ _rise_and_set greenwich t NaN lon
     = {| moonrise := NaN; moonset := NaN |}.
Proof.
  assert (H : forall t' : num, _elevation greenwich t' NaN lon = NaN)
    by reflexivity.
  split; [apply H |].
  apply SweepProperties._rise_and_set_of_NaN; [apply H | intros k; apply H].
Qed.

End WithSidereal.

Lemma nonfinite_time_gives_NaN_witness :
  finite PInf = false /\ _transit linear_greenwich PInf (Fin 0) (Fin 0) = NaN.
Proof.
  split; [reflexivity |].
  apply (nonfinite_time_gives_NaN linear_greenwich PInf (Fin 0) (Fin 0)). reflexivity.
Defined.

End InvalidInput.

(** ** The phase number and its label *)

Module PhaseProperties.
Import lunar.

(** X22: the phase number is the remainder of the floored division by 30
    of an integer: the golden-number term plus the month and the day, plus
    2 in January and February, minus 4 before the year 2000 and minus 8
    from 2000 on; the decimal 8.3 of the source acts as 8. *)
Theorem phase_number_formula (new_Date : Z -> Date) (ts : Z) :
  let date := new_Date ts in
  let year := getFullYear date in
  let month := (getMonth date + 1)%Z in
  let g := Z.rem (Z.rem year 100) 19 in
  let g := if (9 <? g)%Z then (g - 19)%Z else g in
  number (phase new_Date ts)
  = ((Z.rem (g * 11) 30 + month + getDate date
      + (if (month <? 3)%Z then 2 else 0)
      - (if (year <? 2000)%Z then 4 else 8)) mod 30)%Z.
Proof.
  unfold phase. cbv zeta. cbn [number].
  apply PhaseFacts._phaseNumber_formula.
Qed.

(** X23: from one day to the next within a month the phase number advances
    by one, modulo 30. *)
Theorem phase_number_next_day (new_Date : Z -> Date) (ts1 ts2 : Z) :
  getFullYear (new_Date ts2) = getFullYear (new_Date ts1) ->
  getMonth (new_Date ts2) = getMonth (new_Date ts1) ->
  getDate (new_Date ts2) = (getDate (new_Date ts1) + 1)%Z ->
  number (phase new_Date ts2)
  = ((number (phase new_Date ts1) + 1) mod 30)%Z.
Proof.
  intros Hy Hm Hd. unfold phase. cbv zeta. cbn [number].
  rewrite !PhaseFacts._phaseNumber_formula. cbv zeta. rewrite Hy, Hm, Hd.
  rewrite Z.add_mod_idemp_l by lia. f_equal. lia.
Qed.

Lemma phase_number_next_day_witness :
  let new_Date :=
    fun ts : Z => {| getFullYear := 2024; getMonth := 2; getDate := ts |} in
  number (phase new_Date 11) = ((number (phase new_Date 10) + 1) mod 30)%Z.
Proof.
  intros new_Date.
  apply (phase_number_next_day new_Date 10 11); reflexivity.
Defined.

(** X24: the year enters the phase number through its last two digits and
    the side of 2000 it is on: a calendar date and the same date a hundred
    years later, both from 2000 on or both between the years 0 and 1999,
    have the same phase number. *)
Theorem phase_number_century (new_Date : Z -> Date) (ts1 ts2 : Z) :
  getFullYear (new_Date ts2) = (getFullYear (new_Date ts1) + 100)%Z ->
  getMonth (new_Date ts2) = getMonth (new_Date ts1) ->
  getDate (new_Date ts2) = getDate (new_Date ts1) ->
  (2000 <= getFullYear (new_Date ts1)
   \/ 0 <= getFullYear (new_Date ts1) < 1900)%Z ->
  number (phase new_Date ts2) = number (phase new_Date ts1).
Proof.
  intros Hy Hm Hd Hrange. unfold phase. cbv zeta. cbn [number].
  rewrite !PhaseFacts._phaseNumber_formula. cbv zeta. rewrite Hy, Hm, Hd.
  set (y := getFullYear (new_Date ts1)) in *.
  assert (Hrem : Z.rem (y + 100) 100 = Z.rem y 100).
  { rewrite !Z.rem_mod_nonneg by lia.
    replace (y + 100)%Z with (y + 1 * 100)%Z by lia.
    apply Z.mod_add. lia. }
  rewrite Hrem.
  assert (Hside : (y + 100 <? 2000)%Z = (y <? 2000)%Z).
  { destruct (Z.ltb_spec (y + 100) 2000), (Z.ltb_spec y 2000);
      try reflexivity; lia. }
  rewrite Hside. reflexivity.
Qed.

Lemma phase_number_century_witness :
  let new_Date :=
    fun ts : Z => {| getFullYear := ts; getMonth := 2; getDate := 10 |} in
  number (phase new_Date 2124) = number (phase new_Date 2024).
Proof.
  intros new_Date.
  apply (phase_number_century new_Date 2024 2124); try reflexivity.
  left. cbn. lia.
Defined.

End PhaseProperties.

(** ** The phase of a timestamp *)

Module PhaseJsProperties.
Import PhaseJs.

Lemma Fin_IZR_inj (a b : Z) : Fin (IZR a) = Fin (IZR b) <-> a = b.
Proof.
  split; [| now intros ->].
  intros [= H]. now apply eq_IZR.
Qed.

(** X25: on a valid date [phase] carries a label: the phase number lies in
    0..29, where the mapping is total; the label is "new-moon" exactly for
    the number 0, "first-quarter" for 8, "full-moon" for 15 and
    "last-quarter" for 22.  On Invalid Date the label is missing. *)
Theorem phase_label_present
    (calendar : Z -> lunar.Date) (parseInt_text : String.string -> num)
    (ts : Timestamp) :
  let p := phase calendar parseInt_text ts in
  match _dateFromTimestamp parseInt_text ts with
  | Valid _ =>
      string p <> None
      /\ (string p = Some "new-moon"%string <-> number p = Fin 0)
      /\ (string p = Some "first-quarter"%string <-> number p = Fin 8)
      /\ (string p = Some "full-moon"%string <-> number p = Fin 15)
      /\ (string p = Some "last-quarter"%string <-> number p = Fin 22)
  | Invalid => string p = None
  end.
Proof.
  cbv zeta. unfold phase. cbv zeta. cbn [number string].
  destruct (_dateFromTimestamp parseInt_text ts) as [tv |] eqn:Hd.
  - rewrite (PhaseJsFacts._phaseNumber_valid _ _ _ tv Hd). unfold Js.of_Z.
    assert (Hr : (0 <= lunar._phaseNumber calendar tv < 30)%Z).
    { rewrite PhaseFacts._phaseNumber_formula. cbv zeta.
      apply Z.mod_pos_bound. lia. }
    set (n := lunar._phaseNumber calendar tv) in *.
    rewrite PhaseJsFacts._phaseString_int.
    rewrite (Fin_IZR_inj n 0), (Fin_IZR_inj n 8), (Fin_IZR_inj n 15),
      (Fin_IZR_inj n 22).
    rewrite PhaseFacts._phaseString_cases. cbv zeta.
    rewrite PhaseFacts.Math_round_integer.
    repeat match goal with
    | |- context [(?a =? ?b)%Z] => destruct (Z.eqb_spec a b)
    | |- context [(?a <? ?b)%Z] => destruct (Z.ltb_spec a b)
    end; try lia;
    repeat split; intros Hs; try discriminate; try reflexivity; try lia.
  - rewrite (PhaseJsFacts._phaseNumber_invalid _ _ _ Hd). reflexivity.
Qed.

(** X29: on a valid date the phase number and the label are those that the
    integer computation of [_phaseNumber] and [_phaseString] gives from the
    calendar fields of the time value. *)
Theorem phase_of_valid_date
    (calendar : Z -> lunar.Date) (parseInt_text : String.string -> num)
    (ts : Timestamp) (tv : Z) :
  _dateFromTimestamp parseInt_text ts = Valid tv ->
  number (phase calendar parseInt_text ts)
  = Js.of_Z (lunar.number (lunar.phase calendar tv))
  /\ string (phase calendar parseInt_text ts)
     = lunar.string (lunar.phase calendar tv).
Proof.
  intros Hd. unfold phase, lunar.phase. cbv zeta.
  cbn [number string lunar.number lunar.string].
  rewrite (PhaseJsFacts._phaseNumber_valid _ _ _ tv Hd).
  split; [reflexivity |]. apply PhaseJsFacts._phaseString_int.
Qed.

Lemma phase_of_valid_date_witness :
  let calendar :=
    fun _ : Z =>
      {| lunar.getFullYear := 1970; lunar.getMonth := 0;
         lunar.getDate := 1 |} in
  let parseInt_text := fun _ : String.string => NaN in
  number (phase calendar parseInt_text (Number (Fin 0)))
  = Js.of_Z (lunar.number (lunar.phase calendar 0))
  /\ string (phase calendar parseInt_text (Number (Fin 0)))
     = lunar.string (lunar.phase calendar 0).
Proof.
  intros calendar parseInt_text.
  apply (phase_of_valid_date calendar parseInt_text (Number (Fin 0)) 0).
  unfold _dateFromTimestamp. cbv zeta.
  rewrite PhaseJsFacts.new_Date_valid by (rewrite Rabs_R0; lra).
  now rewrite (PhaseJsFacts.Rtrunc_IZR 0).
Defined.

End PhaseJsProperties.

(** ** Events before the query *)

Module CulminationProperties.
Import lunar Classification.

(** X27: when the elevation above the threshold is positive at the query
    instant and more than nine times as large an hour later, the first
    segment has both roots before the query; the sweep stops there and
    returns a set and a rise that both lie within the hour before the
    query instant, the set first. *)
Theorem climbing_moon_events_precede_query (greenwich : R -> R) (t : R)
    (lat lon : num) (hA hB : R) :
  (_elevation greenwich (Fin t) lat lon - - PARALLAX)%js = Fin hA ->
  (_elevation greenwich (_hours_later (Fin t) (Js.of_Z 1)) lat lon
   - - PARALLAX)%js = Fin hB ->
  0 < hA -> 9 * hA < hB ->
  exists r s : R,
    _rise_and_set greenwich (Fin t) lat lon
    = {| moonrise := Fin r; moonset := Fin s |}
    /\ t - 1 / 24 < s /\ s < r /\ r < t.
Proof.
  intros HA HB Hup Hclimb.
  exact (EarlyRise.rise_and_set_before_query greenwich t lat lon hA hB
           HA HB Hup Hclimb).
Qed.

Lemma climbing_moon_events_precede_query_witness :
  exists r s : R,
    _rise_and_set linear_greenwich (Fin 12.035) (Fin (90 * rad)) (Fin 0)
    = {| moonrise := Fin r; moonset := Fin s |}
    /\ 12.035 - 1 / 24 < s /\ s < r /\ r < 12.035.
Proof.
  destruct (SpanClaims.polar_samples linear_greenwich 0)
    as (hA & hB & HA & HB & Hup & Hclimb).
  exact (climbing_moon_events_precede_query linear_greenwich 12.035
           (Fin (90 * rad)) (Fin 0) hA hB HA HB Hup Hclimb).
Defined.

End CulminationProperties.

(** ** The public queries on a NaN time *)

Module PublicInvalidInput.
Import lunar Classification.

(** X28: on a time value that is NaN every public query returns NaN. *)
Theorem queries_on_NaN_time (greenwich : R -> R) (lat lon : num) :
  latitude NaN = NaN /\ longitude NaN = NaN /\ obliquity NaN = NaN
  /\ distance NaN = NaN /\ declination NaN = NaN
  /\ right_ascension NaN = NaN
  /\ elevation greenwich NaN lat lon = NaN
  /\ transit greenwich NaN lat lon = NaN
  /\ rise greenwich NaN lat lon = NaN
  /\ set greenwich NaN lat lon = NaN
  /\ rise_and_set greenwich NaN lat lon
     = {| moonrise := NaN; moonset := NaN |}.
Proof.
  assert (Hf : finite NaN = false) by reflexivity.
  unfold latitude, longitude, obliquity, distance, declination,
    right_ascension, elevation, transit, rise, set, rise_and_set.
  cbv zeta. change (julian_to NaN) with NaN.
  pose proof (InvalidInput._rise_and_set_nonfinite greenwich NaN
                (lat * RAD)%js (lon * RAD)%js Hf) as Hrs.
  pose proof (InvalidInput._transit_nonfinite greenwich NaN
                (lat * RAD)%js (lon * RAD)%js Hf) as Htr.
  split; [now apply InvalidInput._latitude_nonfinite |].
  split; [now apply InvalidInput._longitude_nonfinite |].
  split.
  { unfold _obliquity. rewrite InvalidInput.mul_NaN_r.
    apply InvalidInput.add_NaN_r. }
  split; [now apply InvalidInput._distance_nonfinite |].
  split; [now apply InvalidInput._declination_nonfinite |].
  split; [now apply InvalidInput._right_ascension_nonfinite |].
  split; [now apply InvalidInput._elevation_nonfinite |].
  split; [now rewrite Htr |].
  repeat split; now rewrite Hrs.
Qed.

End PublicInvalidInput.
